(** * HyMD support components: bonded topology, bond forces, CSVR thermostat, logging

  A shallow embedding of [hymd/force.py], [hymd/thermostat.py],
  [hPF/logger.py] and of the two fixtures of [test/conftest.py] that the
  bonded-list construction is run on, followed by the properties proved
  about them.

  Conventions of the embedding.
  - A Python call either returns a value or raises: [Py.result].
  - A NumPy float64 is a real number or a non-finite value (inf or nan,
    collapsed to one absorbing element): [Float.float].  Rounding error and
    overflow are not modelled; division by zero and the square root of a
    negative number are.
  - A [dict] is an association list in insertion order, since the order of
    iteration decides the order of the emitted entries. *)

From Stdlib Require Import ZArith String Ascii Bool List Lia.
From Stdlib Require Import Reals Lra Sorted.
From Stdlib Require PrimFloat FloatOps SpecFloat.
From Stdlib Require DecimalString.
Import ListNotations.

(* ================================================================== *)
(** ** Python calls that may raise *)

Module Py.

Inductive exn : Type :=
| KeyError | TypeError | IndexError | ZeroDivisionError | ValueError.

(** [Unfinished] is not a Python outcome: it marks a [while] loop of the
    model whose budget of passes ran out before the loop's own exit
    condition was met.  The one such loop is the path search of [Nx];
    [prepare_bonds_old_finishes] shows the budget is never exhausted. *)
Inductive result (A : Type) : Type :=
| OK (a : A)
| Raise (e : exn)
| Unfinished.
Arguments OK {A} a.
Arguments Raise {A} e.
Arguments Unfinished {A}.

Definition bind {A B} (c : result A) (k : A -> result B) : result B :=
  match c with
  | OK a => k a
  | Raise e => Raise e
  | Unfinished => Unfinished
  end.

Definition fmap {A B} (f : A -> B) (c : result A) : result B :=
  bind c (fun a => OK (f a)).

(** A [for] loop whose body may raise: the first exception ends the loop. *)
Fixpoint for_each {A S} (body : S -> A -> result S) (xs : list A) (s : S)
  : result S :=
  match xs with
  | [] => OK s
  | x :: xs' => bind (body s x) (for_each body xs')
  end.

(** [seq[i]] for [0 <= i]. *)
Definition getitem {A} (xs : list A) (i : nat) : result A :=
  match nth_error xs i with
  | Some x => OK x
  | None => Raise IndexError
  end.

(** [enumerate(xs)] *)
Definition enumerate {A} (xs : list A) : list (nat * A) :=
  combine (seq 0 (length xs)) xs.

End Py.

Declare Scope py_scope.
Delimit Scope py_scope with py.
Notation "x <- c ;; k" := (Py.bind c (fun x => k))
(at level 61, c at next level, right associativity) : py_scope.
Notation "' p <- c ;; k" := (Py.bind c (fun p => k))
(at level 61, p pattern, c at next level, right associativity) : py_scope.

(* ================================================================== *)
(** ** NumPy float64 values *)

Module Float.

Inductive float : Type :=
| Finite (x : R)
| NonFinite.

Definition lift2 (op : R -> R -> R) (a b : float) : float :=
  match a, b with
  | Finite x, Finite y => Finite (op x y)
  | _, _ => NonFinite
  end.

Definition fadd := lift2 Rplus.
Definition fsub := lift2 Rminus.
Definition fmul := lift2 Rmult.

(** NumPy division: a zero divisor gives inf or nan (and a warning), never
    an exception. *)
Definition fdiv (a b : float) : float :=
  match a, b with
  | Finite x, Finite y =>
      if Req_dec_T y 0 then NonFinite else Finite (x / y)
  | _, _ => NonFinite
  end.

(** [np.sqrt]: nan below zero. *)
Definition fsqrt (a : float) : float :=
  match a with
  | Finite x => if Rlt_dec x 0 then NonFinite else Finite (sqrt x)
  | NonFinite => NonFinite
  end.

Definition of_Z (n : Z) : float := Finite (IZR n).

(** The largest integer not above [x]. *)
Definition Rfloor (x : R) : Z := (up x - 1)%Z.

(** [np.around] on a real: nearest integer, ties to the even one. *)
Definition around (x : R) : Z :=
  let f := Rfloor x in
  let d := (x - IZR f)%R in
  if Rlt_dec d (1 / 2) then f
  else if Rlt_dec (1 / 2) d then (f + 1)%Z
  else if Z.even f then f else (f + 1)%Z.

Definition faround (a : float) : float :=
  match a with
  | Finite x => Finite (IZR (around x))
  | NonFinite => NonFinite
  end.

(** [np.radians] *)
Definition radians (deg : R) : R := (deg * (PI / 180))%R.

(** Rows of an [(N, 3)] array. *)
Record vec (A : Type) : Type := V3 { vx : A; vy : A; vz : A }.
Arguments V3 {A} vx vy vz.
Arguments vx {A} v.
Arguments vy {A} v.
Arguments vz {A} v.

Definition vmap {A B} (f : A -> B) (v : vec A) : vec B :=
  V3 (f (vx v)) (f (vy v)) (f (vz v)).
Definition vzip {A B C} (f : A -> B -> C) (u : vec A) (v : vec B) : vec C :=
  V3 (f (vx u) (vx v)) (f (vy u) (vy v)) (f (vz u) (vz v)).

Definition vzero : vec float := V3 (Finite 0) (Finite 0) (Finite 0).
Definition vadd := vzip fadd.
Definition vsub := vzip fsub.
Definition vscale (a : float) (v : vec float) : vec float := vmap (fmul a) v.
Definition vdiv (v : vec float) (a : float) : vec float :=
  vmap (fun x => fdiv x a) v.
Definition vfinite (v : vec R) : vec float := vmap Finite v.

(** [np.sum(v ** 2)] of one row and [np.linalg.norm]. *)
Definition vsumsq (v : vec float) : float :=
  fadd (fadd (fmul (vx v) (vx v)) (fmul (vy v) (vy v))) (fmul (vz v) (vz v)).
Definition vnorm (v : vec float) : float := fsqrt (vsumsq v).

Definition fsum (xs : list float) : float := fold_left fadd xs (Finite 0).
Definition vsum (vs : list (vec float)) : vec float := fold_left vadd vs vzero.

End Float.

(* ================================================================== *)
(** ** Configuration *)

Module Input.

(** [force.Bond] *)
Record Bond : Type := mkBond {
  atom_1 : string;
  atom_2 : string;
  equilibrium : R;
  strength : R
}.

(** [force.Angle(Bond)]: the fields of [Bond], then [atom_3].  The fixture
    builds it positionally as [Angle(atom_1, atom_2, atom_3, equilibrium,
    strength)]. *)
Record Angle : Type := mkAngle {
  angle_base :> Bond;
  atom_3 : string
}.

(** Modelled from the spec: the [Config] dataclass of [input_parser], which
    is not among the source files; the fields are the ones [force.py] and
    [thermostat.py] read or write, with the meaning the spec's data model
    gives them.  The scalar fields are Python numbers, so a division by
    [tau] raises [ZeroDivisionError] when [tau] is zero. *)
Record Config : Type := mkConfig {
  bonds : list Bond;
  angle_bonds : list Angle;
  mass : R;
  time_step : R;
  respa_inner : Z;
  tau : R;
  target_temperature : R;
  thermostat_coupling_groups : list (list string);
  unique_names : list string;
  thermostat_work : Float.float
}.

End Input.

(* ================================================================== *)
(** ** The graph library calls used by the bonded-list construction

    [networkx.Graph] keeps two dicts, node -> attributes and node ->
    neighbours, both in insertion order. *)

Module Nx.
Import Py.
Local Open Scope Z_scope.
Local Open Scope py_scope.

(** The attributes [add_node(..., name=, local_index=)] sets.  A node that
    only [add_edge] created has none. *)
Record attrs : Type := mkAttrs { name : string; local_index : nat }.

Definition dict (V : Type) : Type := list (Z * V).

Fixpoint dict_get {V} (k : Z) (d : dict V) : option V :=
  match d with
  | [] => None
  | (k', v) :: d' => if k =? k' then Some v else dict_get k d'
  end.

Definition dict_mem {V} (k : Z) (d : dict V) : bool :=
  match dict_get k d with Some _ => true | None => false end.

(** [d[k] = v]: an existing key keeps its position. *)
Fixpoint dict_set {V} (k : Z) (v : V) (d : dict V) : dict V :=
  match d with
  | [] => [(k, v)]
  | (k', v') :: d' =>
      if k =? k' then (k, v) :: d' else (k', v') :: dict_set k v d'
  end.

Record Graph : Type := mkGraph {
  _node : dict (option attrs);
  _adj : dict (list Z)
}.

Definition empty : Graph := mkGraph [] [].

Definition ensure_node (g : Graph) (n : Z) : Graph :=
  if dict_mem n (_node g) then g
  else mkGraph (_node g ++ [(n, None)]) (_adj g ++ [(n, [])]).

Definition add_node (g : Graph) (n : Z) (a : attrs) : Graph :=
  let g' := ensure_node g n in
  mkGraph (dict_set n (Some a) (_node g')) (_adj g').

Definition add_neighbour (u v : Z) (adj : dict (list Z)) : dict (list Z) :=
  match dict_get u adj with
  | Some ns =>
      if existsb (Z.eqb v) ns then adj else dict_set u (ns ++ [v]) adj
  | None => adj
  end.

Definition add_edge (g : Graph) (u v : Z) : Graph :=
  let g' := ensure_node (ensure_node g u) v in
  mkGraph (_node g') (add_neighbour v u (add_neighbour u v (_adj g'))).

(** [G.nodes()[n]["name"]] and [G.nodes()[n]["local_index"]]: a missing
    node or a missing attribute is a [KeyError]. *)
Definition node_attrs (g : Graph) (n : Z) : result attrs :=
  match dict_get n (_node g) with
  | Some (Some a) => OK a
  | _ => Raise KeyError
  end.

Definition paths : Type := dict (list Z).

(** The inner loop of [_single_shortest_path]:
    [for w in adj[v]: if w not in paths: paths[w] = paths[v] + [w];
    nextlevel[w] = 1]. *)
Fixpoint visit_neighbours (pv : list Z) (ws : list Z)
    (st : paths * list Z) : paths * list Z :=
  match ws with
  | [] => st
  | w :: ws' =>
      let '(ps, next) := st in
      if dict_mem w ps then visit_neighbours pv ws' st
      else visit_neighbours pv ws' (ps ++ [(w, pv ++ [w])], next ++ [w])
  end.

(** [for v in thislevel: ...] *)
Definition visit_level (adj : dict (list Z)) (thislevel : list Z)
    (ps : paths) : result (paths * list Z) :=
  for_each
    (fun st v =>
       match dict_get v adj, dict_get v (fst st) with
       | Some ws, Some pv => OK (visit_neighbours pv ws st)
       | _, _ => Raise KeyError
       end)
    thislevel (ps, []).

(** [while nextlevel and cutoff > level], with no cutoff.  Every pass but
    the last adds a node to [paths], so the number of nodes bounds the
    number of passes; [budget] is that bound
    ([shortest_path_loop_finishes]). *)
Fixpoint shortest_path_loop (budget : nat) (adj : dict (list Z))
    (nextlevel : list Z) (ps : paths) : result paths :=
  match nextlevel with
  | [] => OK ps
  | _ :: _ =>
      match budget with
      | O => Unfinished
      | S budget' =>
          '(ps', next) <- visit_level adj nextlevel ps ;;
          shortest_path_loop budget' adj next ps'
      end
  end.

Definition single_source_shortest_path (g : Graph) (source : Z)
  : result paths :=
  shortest_path_loop (length (_node g)) (_adj g) [source]
                     [(source, [source])].

(** [for n in G: yield (n, single_source_shortest_path(G, n))]: a generator,
    so the paths from a node are computed when the consumer reaches it. *)
Definition all_pairs_shortest_path (g : Graph) : list (Z * result paths) :=
  map (fun n => (n, single_source_shortest_path g n)) (map fst (_node g)).

End Nx.

(* ================================================================== *)
(** ** [hymd/force.py] *)

Module Force.
Import Py Float Input.
Local Open Scope py_scope.

(** A row of [bonds_2]: [[local_i, local_j, equilibrium, strength]]. *)
Definition entry2 : Type := (nat * nat * R * R)%type.

(** A row of [bonds_3]:
    [[local_i, local_mid, local_j, radians(equilibrium), strength]]. *)
Definition entry3 : Type := (nat * nat * nat * R * R)%type.

Definition row2 (i j : nat) (r0 k : R) : entry2 := (i, j, r0, k).
Definition row3 (i mid j : nat) (theta0 k : R) : entry3 :=
  (i, mid, j, theta0, k).

(** [np.unique]: the distinct values, ascending. *)
Fixpoint insert_unique (x : Z) (xs : list Z) : list Z :=
  match xs with
  | [] => [x]
  | y :: ys =>
      if (x <? y)%Z then x :: xs
      else if (x =? y)%Z then xs
      else y :: insert_unique x ys
  end.

Definition np_unique (xs : list Z) : list Z :=
  fold_left (fun acc x => insert_unique x acc) xs [].

(** Lines 42-53: the graph of molecule [mol].  [bonds] is [None] when the
    caller passes Python's [None], and subscripting it raises [TypeError]. *)
Definition molecule_graph (mol : Z) (molecules : list Z) (names : list string)
    (bonds : option (list (list Z))) (indices : list Z) : result Nx.Graph :=
  for_each
    (fun bond_graph '(local_index, global_index) =>
       m <- getitem molecules local_index ;;
       if negb (m =? mol)%Z then OK bond_graph
       else
         nm <- getitem names local_index ;;
         let g := Nx.add_node bond_graph global_index
                              (Nx.mkAttrs nm local_index) in
         row <- match bonds with
                | None => Raise TypeError
                | Some rows => getitem rows local_index
                end ;;
         OK (fold_left (fun g' bond => Nx.add_edge g' global_index bond)
                       (filter (fun b => negb (b =? -1)%Z) row) g))
    (enumerate indices) Nx.empty.

(** Lines 65-67. *)
Definition bond_matches (name_i name_j : string) (b : Bond) : bool :=
  let match_forward :=
    String.eqb name_i (atom_1 b) && String.eqb name_j (atom_2 b) in
  let match_backward :=
    String.eqb name_j (atom_2 b) && String.eqb name_i (atom_1 b) in
  match_forward || match_backward.

(** Lines 64-75: [for b in config.bonds: ... bonds_2.append(...)]. *)
Definition append_bonds_2 (config_bonds : list Bond) (name_i name_j : string)
    (local_i local_j : nat) (bonds_2 : list entry2) : list entry2 :=
  fold_left
    (fun acc b =>
       if bond_matches name_i name_j b
       then acc ++ [(local_i, local_j, equilibrium b, strength b)]
       else acc)
    config_bonds bonds_2.

(** Lines 83-93. *)
Definition angle_matches (name_i name_mid name_j : string) (a : Angle) : bool :=
  let match_forward :=
    String.eqb name_i (atom_1 a) && String.eqb name_mid (atom_2 a)
    && String.eqb name_j (atom_3 a) in
  let match_backward :=
    String.eqb name_i (atom_3 a) && String.eqb name_mid (atom_2 a)
    && String.eqb name_j (atom_1 a) in
  match_forward || match_backward.

(** Lines 82-102: [for a in config.angle_bonds: ... bonds_3.append(...)]. *)
Definition append_bonds_3 (config_angles : list Angle)
    (name_i name_mid name_j : string) (local_i local_mid local_j : nat)
    (bonds_3 : list entry3) : list entry3 :=
  fold_left
    (fun acc a =>
       if angle_matches name_i name_mid name_j a
       then acc ++ [(local_i, local_mid, local_j,
                     radians (equilibrium a), strength a)]
       else acc)
    config_angles bonds_3.

(** Lines 59-102: the body of [for j, path in connected.items()]. *)
Definition visit_path (config : Config) (bond_graph : Nx.Graph) (i : Z)
    (acc : list entry2 * list entry3) (jp : Z * list Z)
  : result (list entry2 * list entry3) :=
  let '(j, path) := jp in
  let ordered := (last path 0 >? hd 0 path)%Z in
  bonds_2 <-
    (if (length path =? 2)%nat && ordered then
       ai <- Nx.node_attrs bond_graph i ;;
       aj <- Nx.node_attrs bond_graph j ;;
       OK (append_bonds_2 (bonds config) (Nx.name ai) (Nx.name aj)
             (Nx.local_index ai) (Nx.local_index aj) (fst acc))
     else OK (fst acc)) ;;
  bonds_3 <-
    (if (length path =? 3)%nat && ordered then
       ai <- Nx.node_attrs bond_graph i ;;
       amid <- Nx.node_attrs bond_graph (nth 1 path 0%Z) ;;
       aj <- Nx.node_attrs bond_graph j ;;
       OK (append_bonds_3 (angle_bonds config)
             (Nx.name ai) (Nx.name amid) (Nx.name aj)
             (Nx.local_index ai) (Nx.local_index amid) (Nx.local_index aj)
             (snd acc))
     else OK (snd acc)) ;;
  OK (bonds_2, bonds_3).

(** Lines 41-102: the body of [for mol in different_molecules]. *)
Definition visit_molecule (molecules : list Z) (names : list string)
    (bonds : option (list (list Z))) (indices : list Z) (config : Config)
    (acc : list entry2 * list entry3) (mol : Z)
  : result (list entry2 * list entry3) :=
  bond_graph <- molecule_graph mol molecules names bonds indices ;;
  let connectivity := Nx.all_pairs_shortest_path bond_graph in
  for_each
    (fun acc' '(i, c1) =>
       connected <- c1 ;;
       for_each (visit_path config bond_graph i) connected acc')
    connectivity acc.

Definition prepare_bonds_old (molecules : list Z) (names : list string)
    (bonds : option (list (list Z))) (indices : list Z) (config : Config)
  : result (list entry2 * list entry3) :=
  for_each (visit_molecule molecules names bonds indices config)
           (np_unique molecules) ([], []).

(** [a[i] = g(a[i])] on a list of rows: [IndexError] out of range. *)
Fixpoint update_row {A} (rows : list A) (i : nat) (g : A -> A)
  : result (list A) :=
  match rows, i with
  | [], _ => Raise IndexError
  | x :: rows', O => OK (g x :: rows')
  | x :: rows', S i' => fmap (cons x) (update_row rows' i' g)
  end.

(** [x -= L * np.around(x / L)], in exact arithmetic: the quotient is the
    real quotient, and a tie of [np.around] is a quotient that is exactly
    an integer and a half.  NumPy rounds the quotient to binary64 before
    [np.around] sees it, so a quotient close below a tie can be rounded
    onto it; [Binary64.wrap] is the same line on binary64 values. *)
Definition wrap (x : float) (L : R) : float :=
  fsub x (fmul (Finite L) (faround (fdiv x (Finite L)))).

(** Lines 186-197 (and 161-175): the force vector on [j] and the energy of
    one bonded pair. *)
Definition pair_force (box_size : vec R) (ri rj : vec R) (r0 k : R)
  : vec float * float :=
  let rij := vsub (vfinite rj) (vfinite ri) in
  let rij := vzip wrap rij box_size in
  let dr := vnorm rij in
  let df := fmul (Finite (- k)) (fsub dr (Finite r0)) in
  let f_bond_vector := vdiv (vscale df rij) dr in
  (f_bond_vector,
   fmul (Finite (5 / 10 * k))
        (fmul (fsub dr (Finite r0)) (fsub dr (Finite r0)))).

(** The loop body both variants share once [i], [j], [r0] and [k] are read. *)
Definition bond_step (r : list (vec R)) (box_size : vec R)
    (st : list (vec float) * float) (i j : nat) (r0 k : R)
  : result (list (vec float) * float) :=
  let '(f_bonds, energy) := st in
  ri <- getitem r i ;;
  rj <- getitem r j ;;
  let '(f_bond_vector, e) := pair_force box_size ri rj r0 k in
  f_bonds <- update_row f_bonds i (fun f => vsub f f_bond_vector) ;;
  f_bonds <- update_row f_bonds j (fun f => vadd f f_bond_vector) ;;
  OK (f_bonds, fadd energy e).

(** [f_bonds.fill(0.0)] *)
Definition fill_zero (f_bonds : list (vec float)) : list (vec float) :=
  map (fun _ => vzero) f_bonds.

(** The result pairs the force array as the call leaves it with the returned
    energy. *)
Definition compute_bond_forces__plain (f_bonds : list (vec float))
    (r : list (vec R)) (bonds_2 : list entry2) (box_size : vec R)
  : result (list (vec float) * float) :=
  for_each
    (fun st '(i, j, r0, k) => bond_step r box_size st i j r0 k)
    bonds_2 (fill_zero f_bonds, Finite 0).

(** Lines 108-116 of [prepare_bonds]: the two-body list as four arrays. *)
Definition bonds_2_arrays (bonds_2 : list entry2)
  : list nat * list nat * list R * list R :=
  (map (fun '(i, _, _, _) => i) bonds_2,
   map (fun '(_, j, _, _) => j) bonds_2,
   map (fun '(_, _, r0, _) => r0) bonds_2,
   map (fun '(_, _, _, k) => k) bonds_2).

(** Moving one atom along one axis, as a test of the periodic images does. *)
Inductive axis : Type := AxisX | AxisY | AxisZ.

Definition component {A} (d : axis) (v : vec A) : A :=
  match d with AxisX => vx v | AxisY => vy v | AxisZ => vz v end.

Definition add_along (d : axis) (s : R) (v : vec R) : vec R :=
  match d with
  | AxisX => V3 (vx v + s)%R (vy v) (vz v)
  | AxisY => V3 (vx v) (vy v + s)%R (vz v)
  | AxisZ => V3 (vx v) (vy v) (vz v + s)%R
  end.

Fixpoint translate (r : list (vec R)) (atom : nat) (d : axis) (s : R)
  : list (vec R) :=
  match r, atom with
  | [], _ => []
  | v :: r', O => add_along d s v :: r'
  | v :: r', S a => v :: translate r' a d s
  end.

(** One box length along [d], in the positive or the negative sense. *)
Definition box_length (box_size : vec R) (d : axis) (positive : bool) : R :=
  if positive then component d box_size else (- component d box_size)%R.

End Force.

(* ================================================================== *)
(** ** [hymd/thermostat.py]

    The ranks of the communicator run the call in lockstep and meet at every
    [allreduce] and [bcast], so the call is given as one function of all the
    ranks' arrays: an [allreduce] is the sum over the ranks, and the values
    rank 0 draws are the ones every rank uses ([bcast]). *)

Module Thermostat.
Import Py Float Input.
Local Open Scope py_scope.

(** One local particle: its row of [names] and its row of [velocity].  The
    two arrays have one row per local particle, so a rank's arrays are kept
    as one list of rows. *)
Record particle : Type := mkParticle { pname : string; pvel : vec float }.

Definition rank_arrays : Type := list particle.

(** What the call reads and writes: every rank's arrays and the
    configuration, which every rank holds with the same values. *)
Record state : Type := mkState {
  ranks : list rank_arrays;
  config : Config
}.

Definition set_thermostat_work (c : Config) (w : float) : Config :=
  mkConfig (bonds c) (angle_bonds c) (mass c) (time_step c) (respa_inner c)
           (tau c) (target_temperature c) (thermostat_coupling_groups c)
           (unique_names c) w.

Definition set_thermostat_coupling_groups (c : Config)
    (groups : list (list string)) : Config :=
  mkConfig (bonds c) (angle_bonds c) (mass c) (time_step c) (respa_inner c)
           (tau c) (target_temperature c) groups
           (unique_names c) (thermostat_work c).


(** [np.logical_or.reduce(list(names == np.string_(t) for t in group))] at
    one row. *)
Definition in_group (group : list string) (p : particle) : bool :=
  existsb (String.eqb (pname p)) group.

(** [velocity[ind]] *)
Definition selected (group : list string) (rk : rank_arrays)
  : list (vec float) :=
  map pvel (filter (in_group group) rk).

(** Line 134. *)
Definition group_n_particles (world : list rank_arrays) (group : list string)
  : Z :=
  fold_left Z.add
            (map (fun rk => Z.of_nat (length (selected group rk))) world) 0%Z.

(** Line 137. *)
Definition com_velocity (world : list rank_arrays) (group : list string)
  : vec float :=
  vsum (map (fun rk => vsum (selected group rk)) world).

(** [com_velocity / group_n_particles], the vector lines 138 and 168
    subtract and add back. *)
Definition com_per_particle (world : list rank_arrays) (group : list string)
  : vec float :=
  vdiv (com_velocity world group) (of_Z (group_n_particles world group)).

(** Line 140, with [velocity_clean] of line 138. *)
Definition kinetic_energy (m : R) (world : list rank_arrays)
    (group : list string) : float :=
  let shift := com_per_particle world group in
  fsum (map (fun rk =>
               fmul (Finite (5 / 10 * m))
                    (fsum (map (fun v => vsumsq (vsub v shift))
                               (selected group rk))))
            world).

(** Lines 141-142. *)
Definition target_kinetic_energy (c : Config) (n : Z) : R :=
  (3 / 2 * (2479 / 1000 / 298) * IZR n * target_temperature c)%R.

(** Line 144. *)
Definition coupling_decay (c : Config) : result R :=
  if Req_dec_T (tau c) 0 then Raise ZeroDivisionError
  else OK (exp (- (time_step c * IZR (respa_inner c)) / tau c)).

(** Lines 157-160; [Rgauss] is the source's [R]. *)
Definition alpha_squared (c Rgauss SNf K_target : R) (N_f : Z) (K : float)
  : float :=
  fadd
    (fadd (Finite c)
          (fdiv (Finite ((1 - c) * (SNf + Rgauss * Rgauss) * K_target))
                (fmul (of_Z N_f) K)))
    (fmul (Finite (2 * Rgauss))
          (fsqrt (fdiv (Finite (c * (1 - c) * K_target))
                       (fmul (of_Z N_f) K)))).

(** [alpha2] for one coupling group, from lines 134-144. *)
Definition group_alpha_squared (cfg : Config) (world : list rank_arrays)
    (group : list string) (c Rgauss SNf : R) : float :=
  let n := group_n_particles world group in
  alpha_squared c Rgauss SNf (target_kinetic_energy cfg n) (3 * n)%Z
                (kinetic_energy (mass cfg) world group).

(** Lines 138, 163 and 168 at one selected row. *)
Definition rescale (scaled : bool) (alpha : float) (shift : vec float)
    (v : vec float) : vec float :=
  let velocity_clean := vsub v shift in
  let velocity_clean :=
    if scaled then vscale alpha velocity_clean else velocity_clean in
  vadd velocity_clean shift.

(** Lines 131-168: the body of the loop over the coupling groups.  The two
    generators are called once per group; a stateful generator is given as a
    function of the group's position [i]. *)
Definition thermostat_group
    (random_gaussian : nat -> result R)
    (random_chi_squared : nat -> Z -> result R)
    (st : state) (ig : nat * list string) : result state :=
  let '(i, group) := ig in
  let cfg := config st in
  let n := group_n_particles (ranks st) group in
  let shift := com_per_particle (ranks st) group in
  let K := kinetic_energy (mass cfg) (ranks st) group in
  let N_f := (3 * n)%Z in
  c <- coupling_decay cfg ;;
  Rgauss <- random_gaussian i ;;
  SNf <- random_chi_squared i (N_f - 1)%Z ;;
  let alpha2 := group_alpha_squared cfg (ranks st) group c Rgauss SNf in
  let dK :=
    if (n >? 0)%Z then fmul K (fsub alpha2 (Finite 1)) else Finite 0 in
  let alpha := fsqrt alpha2 in
  OK (mkState
        (map (map (fun p =>
                     if in_group group p
                     then mkParticle (pname p)
                                     (rescale (n >? 0)%Z alpha shift (pvel p))
                     else p))
             (ranks st))
        (set_thermostat_work cfg (fadd (thermostat_work cfg) dK))).

(** Lines 128-129: [any] of a list of lists is true when one is not empty. *)
Definition default_groups (c : Config) : Config :=
  if existsb (fun g => negb (Nat.eqb (length g) 0))
             (thermostat_coupling_groups c)
  then c
  else set_thermostat_coupling_groups c [unique_names c].

Definition csvr_thermostat
    (random_gaussian : nat -> result R)
    (random_chi_squared : nat -> Z -> result R)
    (st : state) : result state :=
  let cfg := default_groups (config st) in
  for_each (thermostat_group random_gaussian random_chi_squared)
           (enumerate (thermostat_coupling_groups cfg))
           (mkState (ranks st) cfg).


End Thermostat.

(* ================================================================== *)
(** ** [hPF/logger.py] and the [logging] calls it makes *)

Module Logging.
Import Py.
Local Open Scope string_scope.
Local Open Scope py_scope.

(** *** [%]-formatting of a log record *)

(** The attributes of a [LogRecord] the format string names.  [asctime] is
    the text [Formatter.formatTime] stored; [msecs] is the integer [%d]
    prints for the record's milliseconds. *)
Record LogRecord : Type := mkRecord {
  asctime : string;
  msecs : Z;
  levelname : string;
  filename : string;
  lineno : Z;
  funcName : string;
  message : string
}.

Inductive value : Type := VStr (s : string) | VInt (n : Z).

Definition attribute (rec : LogRecord) (key : string) : result value :=
  if String.eqb key "asctime" then OK (VStr (asctime rec))
  else if String.eqb key "msecs" then OK (VInt (msecs rec))
  else if String.eqb key "levelname" then OK (VStr (levelname rec))
  else if String.eqb key "filename" then OK (VStr (filename rec))
  else if String.eqb key "lineno" then OK (VInt (lineno rec))
  else if String.eqb key "funcName" then OK (VStr (funcName rec))
  else if String.eqb key "message" then OK (VStr (message rec))
  else Raise KeyError.

(** A format string is text and conversions [%(key)-Ns] or [%(key)Nd]: the
    flag [-] and the width are optional.  Nothing else of Python's
    conversion syntax occurs in the format strings of [logger.py]; it is
    refused with [ValueError]. *)
Inductive piece : Type :=
| Lit (c : ascii)
| Conv (key : string) (left_justify : bool) (width : nat) (type : ascii).

Inductive mode : Type :=
| Text
| Percent
| Key (acc : string)
| Spec (key : string) (left_justify : bool) (width : option nat).

Definition digit (c : ascii) : option nat :=
  let n := nat_of_ascii c in
  if (48 <=? n)%nat && (n <=? 57)%nat then Some (n - 48)%nat else None.

Fixpoint parse (m : mode) (s : string) : result (list piece) :=
  match s with
  | EmptyString =>
      match m with Text => OK [] | _ => Raise ValueError end
  | String c s' =>
      match m with
      | Text =>
          if Ascii.eqb c "%" then parse Percent s'
          else fmap (cons (Lit c)) (parse Text s')
      | Percent =>
          if Ascii.eqb c "(" then parse (Key "") s'
          else if Ascii.eqb c "%" then fmap (cons (Lit c)) (parse Text s')
          else Raise ValueError
      | Key acc =>
          if Ascii.eqb c ")" then parse (Spec acc false None) s'
          else parse (Key (acc ++ String c "")) s'
      | Spec key lj width =>
          match digit c, width with
          | Some d, None => parse (Spec key lj (Some d)) s'
          | Some d, Some w => parse (Spec key lj (Some (10 * w + d)%nat)) s'
          | None, _ =>
              if Ascii.eqb c "-" then
                match width with
                | None => parse (Spec key true None) s'
                | Some _ => Raise ValueError
                end
              else if Ascii.eqb c "s" || Ascii.eqb c "d" then
                fmap (cons (Conv key lj
                                 (match width with Some w => w | None => O end)
                                 c))
                     (parse Text s')
              else Raise ValueError
          end
      end
  end.

(** [str(n)] *)
Definition string_of_Z (n : Z) : string :=
  DecimalString.NilZero.string_of_int (Z.to_int n).

Fixpoint spaces (n : nat) : string :=
  match n with O => "" | S n' => String " " (spaces n') end.

(** The text padded to the width: on the right with the flag [-], on the
    left without. *)
Definition pad (left_justify : bool) (width : nat) (s : string) : string :=
  let fill := spaces (width - String.length s) in
  if left_justify then s ++ fill else fill ++ s.

Definition convert (type : ascii) (v : value) : result string :=
  match v with
  | VStr s => if Ascii.eqb type "s" then OK s else Raise TypeError
  | VInt n => OK (string_of_Z n)
  end.

Fixpoint render (ps : list piece) (rec : LogRecord) : result string :=
  match ps with
  | [] => OK ""
  | Lit c :: ps' => fmap (String c) (render ps' rec)
  | Conv key lj width ty :: ps' =>
      v <- attribute rec key ;;
      s <- convert ty v ;;
      rest <- render ps' rec ;;
      OK (pad lj width s ++ rest)
  end.

(** [fmt % record.__dict__] *)
Definition percent_format (fmt : string) (rec : LogRecord) : result string :=
  ps <- parse Text fmt ;;
  render ps rec.

(** *** Loggers, handlers and filters *)

Inductive Filter : Type := MPIFilter.

Record Formatter : Type := mkFormatter { fmt : string }.

Inductive stream : Type := File (path : string) | Stdout.

Record Handler : Type := mkHandler {
  h_stream : stream;
  h_level : Z;
  h_formatter : option Formatter
}.

(** A [logging.Logger]: a channel. *)
Record Channel : Type := mkChannel {
  ch_name : string;
  ch_level : Z;
  ch_filters : list Filter;
  ch_handlers : list Handler
}.

(** [logging.getLogger(name)] on first use: level [NOTSET], nothing attached. *)
Definition getLogger (name : string) : Channel := mkChannel name 0 [] [].

Definition setLevel (ch : Channel) (lvl : Z) : Channel :=
  mkChannel (ch_name ch) lvl (ch_filters ch) (ch_handlers ch).

(** [addFilter] and [addHandler] skip an object that is already attached;
    [setup] attaches objects it has just made, so they are always added. *)
Definition addFilter (ch : Channel) (f : Filter) : Channel :=
  mkChannel (ch_name ch) (ch_level ch) (ch_filters ch ++ [f]) (ch_handlers ch).

Definition addHandler (ch : Channel) (h : Handler) : Channel :=
  mkChannel (ch_name ch) (ch_level ch) (ch_filters ch) (ch_handlers ch ++ [h]).

(** [Formatter.format] for a record without exception text. *)
Definition format_record (f : Formatter) (rec : LogRecord) : result string :=
  percent_format (fmt f) rec.

(** The line a handler writes for a record: the formatted record and the
    terminator. *)
Definition emit (h : Handler) (rec : LogRecord) : result string :=
  match h_formatter h with
  | Some f => fmap (fun s => s ++ String "010" "") (format_record f rec)
  | None => OK (message rec ++ String "010" "")
  end.

(** *** The class [Logger] *)

Definition format : string :=
  "%(levelname)-8s [%(filename)s:%(lineno)d] <%(funcName)s> %(message)s".
Definition date_format : string := "%(asctime)s,%(msecs)d".
Definition formatter : Formatter := mkFormatter (date_format ++ format).

(** The class attributes [setup] writes, and the two channels. *)
Record Logger : Type := mkLogger {
  level : option Z;
  log_file : option string;
  rank0 : Channel;
  all_ranks : Channel;
  log_file_handler : option Handler;
  log_to_stdout : option bool;
  stdout_handler : option Handler
}.

Definition initial : Logger :=
  mkLogger None None (getLogger "HyMD.rank_0") (getLogger "HyMD.all_ranks")
           None None None.

(** [logging.INFO] *)
Definition INFO : Z := 20.

(** The truth value of [log_file]: [None] and the empty string are false. *)
Definition truthy (log_file : option string) : bool :=
  match log_file with
  | Some s => negb (String.eqb s "")
  | None => false
  end.

Definition setup (default_level : Z) (log_file_arg : option string)
    (log_to_stdout_arg : bool) (cls : Logger) : Logger :=
  let rank0_1 := addFilter (setLevel (rank0 cls) default_level) MPIFilter in
  let all_ranks_1 := setLevel (all_ranks cls) default_level in
  let cls1 :=
    mkLogger (Some default_level) log_file_arg rank0_1 all_ranks_1
             (log_file_handler cls) (log_to_stdout cls) (stdout_handler cls) in
  if negb (truthy log_file_arg) && negb log_to_stdout_arg then cls1
  else
    let cls2 :=
      match log_file_arg with
      | Some path =>
          if truthy log_file_arg then
            let h := mkHandler (File path) default_level (Some formatter) in
            mkLogger (level cls1) (log_file cls1)
                     (addHandler (rank0 cls1) h) (addHandler (all_ranks cls1) h)
                     (Some h) (log_to_stdout cls1) (stdout_handler cls1)
          else cls1
      | None => cls1
      end in
    if log_to_stdout_arg then
      let h := mkHandler Stdout default_level (Some formatter) in
      mkLogger (level cls2) (log_file cls2)
               (addHandler (rank0 cls2) h) (addHandler (all_ranks cls2) h)
               (log_file_handler cls2) (Some true) (Some h)
    else cls2.

End Logging.

(* ================================================================== *)
(** ** [test/conftest.py]: the fixtures the bonded-list construction runs on *)

Module Conftest.
Import Input.
Local Open Scope string_scope.

(** [ndarray.fill] writes in place and returns [None]. *)
Definition ndarray_fill (rows : list (list Z)) (value : Z)
  : option (list (list Z)) := None.

(** [np.empty(shape=(n, m), dtype=int)]: the contents are unspecified; zeros
    stand for them. *)
Definition np_empty (n m : nat) : list (list Z) := repeat (repeat 0%Z m) n.

(** The parts of a [Config] the fixtures do not set. *)
Definition config_with (bs : list Bond) (angles : list Angle) : Config :=
  mkConfig bs angles 0 0 1 1 0 [] [] (Float.Finite 0).

Module three_atoms.
Definition indices : list Z := [0; 1; 2]%Z.
Definition molecules : list Z := [0; 1; 2]%Z.
(** [bonds = np.empty(shape=(3, 3), dtype=int).fill(-1)] *)
Definition bonds : option (list (list Z)) := ndarray_fill (np_empty 3 3) (-1).
Definition names : list string := ["A"; "B"; "C"].
End three_atoms.

Module dppc_single.
Definition indices : list Z := [0; 1; 2; 3; 4; 5; 6; 7; 8; 9; 10; 11]%Z.
Definition molecules : list Z := [0; 0; 0; 0; 0; 0; 0; 0; 0; 0; 0; 0]%Z.
Definition bonds : option (list (list Z)) :=
  Some [ [1; -1; -1]; [0; 2; -1]; [1; 3; 4]; [2; 8; -1]; [2; 5; -1];
         [4; 6; -1]; [5; 7; -1]; [6; -1; -1]; [3; 9; -1]; [8; 10; -1];
         [9; 11; -1]; [10; -1; -1] ]%Z.
Definition names : list string :=
  ["N"; "P"; "G"; "G"; "C"; "C"; "C"; "C"; "C"; "C"; "C"; "C"].
(** [CONF['bond_2']] *)
Definition bond_2 : list Bond :=
  [ mkBond "N" "P" (47 / 100) 1250;
    mkBond "P" "G" (47 / 100) 1250;
    mkBond "G" "G" (37 / 100) 1250;
    mkBond "G" "C" (47 / 100) 1250;
    mkBond "C" "C" (47 / 100) 1250 ]%R.
(** [CONF['bond_3']], each [Angle(atom_1, atom_2, atom_3, equilibrium,
    strength)]. *)
Definition bond_3 : list Angle :=
  [ mkAngle (mkBond "P" "G" 120 25) "G";
    mkAngle (mkBond "P" "G" 180 25) "C";
    mkAngle (mkBond "G" "C" 180 25) "C";
    mkAngle (mkBond "C" "C" 180 25) "C" ]%R.
Definition config : Config := config_with bond_2 bond_3.
End dppc_single.

End Conftest.

(* ================================================================== *)
(** ** Concrete inputs used in the statements below *)

Module Examples.
Import Float Input.
Local Open Scope R_scope.
Local Open Scope string_scope.

(** A bonded pair whose names are those of a definition, in the reverse
    order. *)
Module reversed_pair.
Definition indices : list Z := [0; 1]%Z.
Definition molecules : list Z := [0; 0]%Z.
Definition bonds : option (list (list Z)) :=
  Some [ [1; -1; -1]; [0; -1; -1] ]%Z.
Definition names : list string := ["P"; "N"].
Definition forward_names : list string := ["N"; "P"].
Definition config : Config :=
  Conftest.config_with [mkBond "N" "P" (47 / 100) 1250] [].
End reversed_pair.

(** Two definitions for the same pair of names. *)
Module doubly_defined_pair.
Definition indices : list Z := [0; 1]%Z.
Definition molecules : list Z := [0; 0]%Z.
Definition bonds : option (list (list Z)) :=
  Some [ [1; -1; -1]; [0; -1; -1] ]%Z.
Definition names : list string := ["A"; "B"].
Definition config : Config :=
  Conftest.config_with [mkBond "A" "B" 1 100; mkBond "A" "B" 2 200] [].
End doubly_defined_pair.

(** A chain of three bonded particles A - B - C and two definitions for
    the angle, one written A B C and one written C B A. *)
Module doubly_defined_angle.
Definition indices : list Z := [0; 1; 2]%Z.
Definition molecules : list Z := [0; 0; 0]%Z.
Definition bonds : option (list (list Z)) :=
  Some [ [1; -1; -1]; [0; 2; -1]; [1; -1; -1] ]%Z.
Definition names : list string := ["A"; "B"; "C"].
Definition config : Config :=
  Conftest.config_with []
    [mkAngle (mkBond "A" "B" 120 10) "C"; mkAngle (mkBond "C" "B" 90 20) "A"].
End doubly_defined_angle.

(** Two local particles with the global index 0; the first of them and
    the particle B list each other. *)
Module repeated_index.
Definition indices : list Z := [0; 0; 1]%Z.
Definition molecules : list Z := [0; 0; 0]%Z.
Definition bonds : option (list (list Z)) :=
  Some [ [1; -1; -1]; [1; -1; -1]; [0; -1; -1] ]%Z.
Definition names : list string := ["A"; "A"; "B"].
Definition config : Config := Conftest.config_with [mkBond "A" "B" 1 100] [].
End repeated_index.

(** The bond array the three-atom fixture means to build: three rows of
    -1. *)
Definition three_atoms_unbonded : option (list (list Z)) :=
  Some [ [-1; -1; -1]; [-1; -1; -1]; [-1; -1; -1] ]%Z.

Definition near_positions : list (vec R) := [V3 0 0 0; V3 1 0 0].
Definition cube : vec R := V3 10 10 10.
Definition one_bond : list Force.entry2 := [Force.row2 0 1 1 1].
Definition two_rows : list (vec float) := [vzero; vzero].

Definition sample_config (groups : list (list string)) : Config :=
  mkConfig [] [] 72 (3 / 100) 5 (7 / 10) 323 groups ["A"; "B"] (Finite 0).

(** Two ranks; the group A has one particle on each, with opposite
    velocities; no particle is named W. *)
Definition two_ranks : Thermostat.state :=
  Thermostat.mkState
    [ [ Thermostat.mkParticle "A" (V3 (Finite 1) (Finite 0) (Finite 0));
        Thermostat.mkParticle "B" (V3 (Finite 5) (Finite 0) (Finite 0)) ];
      [ Thermostat.mkParticle "A" (V3 (Finite (-1)) (Finite 0) (Finite 0)) ] ]
    (sample_config [["A"]; ["W"]]).



Definition sample_record : Logging.LogRecord :=
  Logging.mkRecord "2021-03-04 10:20:30,123" 123 "INFO" "main.py" 10 "run"
                   "started".

End Examples.

(* ================================================================== *)
(** ** Terms the statements below are written in *)

Module Terms.
Import Py Float Input.
Local Open Scope R_scope.

(** *** Floats *)

Definition is_finite (a : float) : Prop := exists x, a = Finite x.

Definition fopp (a : float) : float :=
  match a with Finite x => Finite (- x) | NonFinite => NonFinite end.

Definition Rsum (xs : list R) : R := fold_right Rplus 0 xs.

(** Half-way between two consecutive integers. *)
Definition is_tie (x : R) : Prop := exists f : Z, x = IZR f + 1 / 2.

(** *** Graphs *)

Definition keys {V} (d : Nx.dict V) : list Z := map fst d.

(** Every neighbour is a node. *)
Definition closed (adj : Nx.dict (list Z)) : Prop :=
  forall v ws w, Nx.dict_get v adj = Some ws -> In w ws -> In w (keys adj).

(** What [add_node] and [add_edge] keep true of a graph. *)
Definition well_formed (g : Nx.Graph) : Prop :=
  closed (Nx._adj g) /\ keys (Nx._node g) = keys (Nx._adj g).

(** *** Bond forces *)

Definition rvsub (u v : vec R) : vec R :=
  V3 (vx u - vx v) (vy u - vy v) (vz u - vz v).

(** The wrapped displacement of lines 186-190 of [force.py]. *)
Definition wrapped (box_size : vec R) (rij : vec R) : vec float :=
  vzip Force.wrap (vfinite rij) box_size.

(** Lines 191-197 of [force.py] from the wrapped displacement on. *)
Definition force_of_wrapped (w : vec float) (r0 k : R) : vec float * float :=
  let dr := vnorm w in
  let df := fmul (Finite (- k)) (fsub dr (Finite r0)) in
  (vdiv (vscale df w) dr,
   fmul (Finite (5 / 10 * k))
        (fmul (fsub dr (Finite r0)) (fsub dr (Finite r0)))).

(** The row of atom [i] once atom [atom] has been moved by [s] along [d]. *)
Definition moved (atom : nat) (d : Force.axis) (s : R) (i : nat) (v : vec R)
  : vec R :=
  if Nat.eqb i atom then Force.add_along d s v else v.


(** No bonded pair is separated along [d] by an odd number of half box
    lengths. *)
Definition no_tie (r : list (vec R)) (box_size : vec R) (d : Force.axis)
    (bonds_2 : list Force.entry2) : Prop :=
  forall i j r0 k ri rj,
    In (i, j, r0, k) bonds_2 ->
    nth_error r i = Some ri -> nth_error r j = Some rj ->
    ~ is_tie ((Force.component d rj - Force.component d ri)
              / Force.component d box_size).

(** *** Thermostat *)

Definition count {A} (W : list (list A)) : nat :=
  fold_right (fun l n => (length l + n)%nat) O W.

(** The number of selected rows over all ranks. *)
Definition total_count (world : list Thermostat.rank_arrays)
    (group : list string) : nat :=
  count (map (Thermostat.selected group) world).

(** The sum of one component over all rows of all ranks. *)
Definition total (proj : vec R -> R) (W : list (list (vec R))) : R :=
  Rsum (map (fun l => Rsum (map proj l)) W).


(** *** Logging *)

Local Open Scope string_scope.

(** The line the code writes for a record: no space stands between the
    milliseconds and the level, and the function name is in angle
    brackets. *)
Definition written_line (rec : Logging.LogRecord) : string :=
  Logging.asctime rec ++ "," ++ Logging.string_of_Z (Logging.msecs rec)
  ++ Logging.pad true 8 (Logging.levelname rec)
  ++ " [" ++ Logging.filename rec ++ ":"
  ++ Logging.string_of_Z (Logging.lineno rec) ++ "] <"
  ++ Logging.funcName rec ++ "> " ++ Logging.message rec
  ++ String "010" "".

(** The line as the claim words it, with the function name bare or in the
    angle brackets of the format string. *)
Definition claimed_line (brackets : bool) (rec : Logging.LogRecord) : string :=
  Logging.asctime rec ++ "," ++ Logging.string_of_Z (Logging.msecs rec)
  ++ " " ++ Logging.pad true 8 (Logging.levelname rec)
  ++ " [" ++ Logging.filename rec ++ ":"
  ++ Logging.string_of_Z (Logging.lineno rec) ++ "] "
  ++ (if brackets then "<" ++ Logging.funcName rec ++ ">"
      else Logging.funcName rec)
  ++ " " ++ Logging.message rec ++ String "010" "".

End Terms.

(* ================================================================== *)
(** ** [hymd/force.py]: the three-body forces *)

Module Angles.
Import Py Float Input Force.
Local Open Scope py_scope.

(** [np.dot] of two rows. *)
Definition vdot (u v : vec float) : float :=
  fadd (fadd (fmul (vx u) (vx v)) (fmul (vy u) (vy v))) (fmul (vz u) (vz v)).

(** [v * a], a row times a scalar. *)
Definition vtimes (v : vec float) (a : float) : vec float :=
  vmap (fun x => fmul x a) v.

(** [-v] *)
Definition vneg (v : vec float) : vec float := vmap Terms.fopp v.

(** [np.arccos]: nan outside [-1, 1]. *)
Definition farccos (a : float) : float :=
  match a with
  | Finite x =>
      if Rle_dec (-1) x then
        if Rle_dec x 1 then Finite (acos x) else NonFinite
      else NonFinite
  | NonFinite => NonFinite
  end.

(** Lines 265-294 (and 222-255): the forces on the outer atoms [a] and [c]
    of one angle, and the term [0.5 * f * d] the energy is lowered by. *)
Definition angle_force (box_size : vec R) (pa pb pc : vec R) (theta0 k : R)
  : vec float * vec float * float :=
  let ra := vzip wrap (vsub (vfinite pa) (vfinite pb)) box_size in
  let rc := vzip wrap (vsub (vfinite pc) (vfinite pb)) box_size in
  let xra := fdiv (Finite 1) (fsqrt (vdot ra ra)) in
  let xrc := fdiv (Finite 1) (fsqrt (vdot rc rc)) in
  let ea := vtimes ra xra in
  let ec := vtimes rc xrc in
  let cosphi := vdot ea ec in
  let theta := farccos cosphi in
  let xsinph :=
    fdiv (Finite 1) (fsqrt (fsub (Finite 1) (fmul cosphi cosphi))) in
  let d := fsub theta (Finite theta0) in
  let f := fmul (Finite (- k)) d in
  let xrasin := fmul (fmul xra xsinph) f in
  let xrcsin := fmul (fmul xrc xsinph) f in
  let fa := vtimes (vsub (vtimes ea cosphi) ec) xrasin in
  let fc := vtimes (vsub (vtimes ec cosphi) ea) xrcsin in
  (fa, fc, fmul (fmul (Finite (5 / 10)) f) d).

(** The loop body both variants share once [a], [b], [c], [theta0] and [k]
    are read. *)
Definition angle_step (r : list (vec R)) (box_size : vec R)
    (st : list (vec float) * float) (a b c : nat) (theta0 k : R)
  : result (list (vec float) * float) :=
  let '(f_angles, energy) := st in
  pa <- getitem r a ;;
  pb <- getitem r b ;;
  pc <- getitem r c ;;
  let '(fa, fc, e) := angle_force box_size pa pb pc theta0 k in
  f_angles <- update_row f_angles a (fun f => vadd f fa) ;;
  f_angles <- update_row f_angles c (fun f => vadd f fc) ;;
  f_angles <- update_row f_angles b (fun f => vadd f (vneg (vadd fa fc))) ;;
  OK (f_angles, fsub energy e).

Definition compute_angle_forces__plain (f_angles : list (vec float))
    (r : list (vec R)) (bonds_3 : list entry3) (box_size : vec R)
  : result (list (vec float) * float) :=
  for_each
    (fun st '(a, b, c, theta0, k) => angle_step r box_size st a b c theta0 k)
    bonds_3 (fill_zero f_angles, Finite 0).

End Angles.

(* ================================================================== *)
(** ** [hymd/force.py]: [prepare_bonds] *)

Module Arrays.
Import Py Float Input Force.
Local Open Scope py_scope.

(** The nine arrays [prepare_bonds] returns, in the order of the tuple. *)
Record prepared : Type := mkPrepared {
  bonds_2_atom1 : list nat;
  bonds_2_atom2 : list nat;
  bonds_2_equilibrium : list R;
  bonds_2_stength : list R;
  bonds_3_atom1 : list nat;
  bonds_3_atom2 : list nat;
  bonds_3_atom3 : list nat;
  bonds_3_equilibrium : list R;
  bonds_3_stength : list R
}.

(** [np.empty(n, dtype=...)]: [n] slots of unspecified content; [fill]
    stands for it. *)
Definition np_empty {A} (n : nat) (fill : A) : list A := repeat fill n.

(** [a[i] = x] *)
Definition setitem {A} (a : list A) (i : nat) (x : A) : result (list A) :=
  update_row a i (fun _ => x).

(** Lines 108-116. *)
Definition fill_bonds_2 (bonds_2 : list entry2)
  : result (list nat * list nat * list R * list R) :=
  let n := length bonds_2 in
  for_each
    (fun '(atom1, atom2, equilibrium, stength) '(i, b) =>
       let '(b0, b1, b2, b3) := b in
       atom1 <- setitem atom1 i b0 ;;
       atom2 <- setitem atom2 i b1 ;;
       equilibrium <- setitem equilibrium i b2 ;;
       stength <- setitem stength i b3 ;;
       OK (atom1, atom2, equilibrium, stength))
    (enumerate bonds_2)
    (np_empty n O, np_empty n O, np_empty n 0%R, np_empty n 0%R).

(** Lines 117-127. *)
Definition fill_bonds_3 (bonds_3 : list entry3)
  : result (list nat * list nat * list nat * list R * list R) :=
  let n := length bonds_3 in
  for_each
    (fun '(atom1, atom2, atom3, equilibrium, stength) '(i, b) =>
       let '(b0, b1, b2, b3, b4) := b in
       atom1 <- setitem atom1 i b0 ;;
       atom2 <- setitem atom2 i b1 ;;
       atom3 <- setitem atom3 i b2 ;;
       equilibrium <- setitem equilibrium i b3 ;;
       stength <- setitem stength i b4 ;;
       OK (atom1, atom2, atom3, equilibrium, stength))
    (enumerate bonds_3)
    (np_empty n O, np_empty n O, np_empty n O, np_empty n 0%R,
     np_empty n 0%R).

Definition prepare_bonds (molecules : list Z) (names : list string)
    (bonds : option (list (list Z))) (indices : list Z) (config : Config)
  : result prepared :=
  '(bonds_2, bonds_3) <-
    prepare_bonds_old molecules names bonds indices config ;;
  '(a1, a2, e2, s2) <- fill_bonds_2 bonds_2 ;;
  '(b1, b2, b3, e3, s3) <- fill_bonds_3 bonds_3 ;;
  OK (mkPrepared a1 a2 e2 s2 b1 b2 b3 e3 s3).

End Arrays.

(* ================================================================== *)
(** ** [hPF/logger.py]: [MPIFilter], and how a channel handles a record *)

Module Handling.
Import Py Logging.
Local Open Scope py_scope.

(** [MPIFilter.filter] on the process of rank [rank]. *)
Definition filter (f : Filter) (rank : Z) : bool :=
  match f with MPIFilter => (rank =? 0)%Z end.

(** Where a line goes: to a handler's stream, or to the standard error
    stream of [logging.lastResort]. *)
Inductive destination : Type := To (s : stream) | LastResort.

(** [logging.WARNING], the level of the root logger and of [lastResort]. *)
Definition WARNING : Z := 30.

(** [Logger.getEffectiveLevel]: the channel's own level unless it is
    [NOTSET]; the ancestors of the two channels are [HyMD] and the root,
    which nothing here configures, so the root's [WARNING] is inherited. *)
Definition effective_level (ch : Channel) : Z :=
  if (ch_level ch =? 0)%Z then WARNING else ch_level ch.

(** [Logger.callHandlers]: every handler of the channel whose level admits
    the record emits it. *)
Definition call_handlers (ch : Channel) (levelno : Z) (rec : LogRecord)
  : result (list (destination * string)) :=
  for_each
    (fun out h =>
       if (h_level h <=? levelno)%Z then
         line <- emit h rec ;;
         OK (out ++ [(To (h_stream h), line)])
       else OK out)
    (ch_handlers ch) [].

(** A logging call at level [levelno] on the process of rank [rank]:
    [Logger.log], [Logger.handle] and [Logger.callHandlers].  The result is
    the lines written, in order.  With no handler on the channel or its
    ancestors the record goes to [lastResort] if it is a warning or
    worse. *)
Definition log (ch : Channel) (rank levelno : Z) (rec : LogRecord)
  : result (list (destination * string)) :=
  if (levelno <? effective_level ch)%Z then OK []
  else if negb (forallb (fun f => filter f rank) (ch_filters ch)) then OK []
  else
    match ch_handlers ch with
    | [] =>
        if (WARNING <=? levelno)%Z
        then OK [(LastResort, (message rec ++ String "010" "")%string)]
        else OK []
    | _ :: _ => call_handlers ch levelno rec
    end.

End Handling.

(* ================================================================== *)
(** ** Loops compiled with [numba.jit(nopython=True, fastmath=True)] *)

(** The compiled code is not Python: an array is read and written without a
    bounds check, so an index outside it touches whatever memory is there,
    and [fastmath] lets the compiler assume that no value is inf or nan.  A
    run that leaves an array, or in which a value that is not finite
    arises, has no defined result; [None] stands for such a run.
    [fastmath] also lets the compiler reorder and fuse the operations,
    which changes nothing in exact arithmetic. *)
Module Jit.
Import Float.

Definition bind {A B} (c : option A) (k : A -> option B) : option B :=
  match c with Some a => k a | None => None end.

Declare Scope jit_scope.
Delimit Scope jit_scope with jit.
Notation "x <- c ;; k" := (bind c (fun x => k))
  (at level 61, c at next level, right associativity) : jit_scope.

(** [a[i]], unchecked. *)
Definition getitem {A} (xs : list A) (i : nat) : option A := nth_error xs i.

(** [a[i] = g(a[i])], unchecked. *)
Fixpoint update_row {A} (rows : list A) (i : nat) (g : A -> A)
  : option (list A) :=
  match rows, i with
  | [], _ => None
  | x :: rows', O => Some (g x :: rows')
  | x :: rows', S i' =>
      match update_row rows' i' g with
      | Some rows'' => Some (x :: rows'')
      | None => None
      end
  end.

(** A value under [fastmath]. *)
Definition fast (a : float) : option float :=
  match a with Finite _ => Some a | NonFinite => None end.

Definition vfast (v : vec float) : option (vec float) :=
  bind (fast (vx v)) (fun x =>
  bind (fast (vy v)) (fun y =>
  bind (fast (vz v)) (fun z => Some (V3 x y z)))).

(** [for ind in range(n)] *)
Fixpoint for_range {S} (body : S -> nat -> option S) (inds : list nat)
    (s : S) : option S :=
  match inds with
  | [] => Some s
  | ind :: inds' => bind (body s ind) (for_range body inds')
  end.

End Jit.

(* ================================================================== *)
(** ** [hymd/force.py]: the compiled force loops *)

Module Compiled.
Import Float Input Force Jit.
Local Open Scope jit_scope.

(** Lines 154-175: the body of the loop of [compute_bond_forces__numba] at
    position [ind] of the four arrays. *)
Definition bond_body (r : list (vec R)) (box_size : vec R)
    (bonds_2_atom1 bonds_2_atom2 : list nat)
    (bonds_2_equilibrium bonds_2_stength : list R)
    (st : list (vec float) * float) (ind : nat)
  : option (list (vec float) * float) :=
  let '(f_bonds, energy) := st in
  i <- Jit.getitem bonds_2_atom1 ind ;;
  j <- Jit.getitem bonds_2_atom2 ind ;;
  r0 <- Jit.getitem bonds_2_equilibrium ind ;;
  k <- Jit.getitem bonds_2_stength ind ;;
  ri <- Jit.getitem r i ;;
  rj <- Jit.getitem r j ;;
  let rij := vsub (vfinite rj) (vfinite ri) in
  let rij0 :=
    fsub (vx rij)
         (fmul (Finite (vx box_size))
               (faround (fdiv (vx rij) (Finite (vx box_size))))) in
  let rij1 :=
    fsub (vy rij)
         (fmul (Finite (vy box_size))
               (faround (fdiv (vy rij) (Finite (vy box_size))))) in
  let rij2 :=
    fsub (vz rij)
         (fmul (Finite (vz box_size))
               (faround (fdiv (vz rij) (Finite (vz box_size))))) in
  let rij := V3 rij0 rij1 rij2 in
  let dr := vnorm rij in
  let df := fmul (Finite (- k)) (fsub dr (Finite r0)) in
  f_bond_vector <- Jit.vfast (vdiv (vscale df rij) dr) ;;
  f_bonds <- Jit.update_row f_bonds i (fun f => vsub f f_bond_vector) ;;
  f_bonds <- Jit.update_row f_bonds j (fun f => vadd f f_bond_vector) ;;
  e <- Jit.fast (fmul (Finite (5 / 10 * k))
                      (fmul (fsub dr (Finite r0)) (fsub dr (Finite r0)))) ;;
  Some (f_bonds, fadd energy e).

(** The result pairs the force array as the call leaves it with the
    returned energy. *)
Definition compute_bond_forces__numba (f_bonds : list (vec float))
    (r : list (vec R)) (box_size : vec R)
    (bonds_2_atom1 bonds_2_atom2 : list nat)
    (bonds_2_equilibrium bonds_2_stength : list R)
  : option (list (vec float) * float) :=
  Jit.for_range
    (bond_body r box_size bonds_2_atom1 bonds_2_atom2
               bonds_2_equilibrium bonds_2_stength)
    (seq 0 (length bonds_2_atom1)) (fill_zero f_bonds, Finite 0).



(** Lines 166-175 from the wrapped displacement on: what the body of the
    compiled two-body loop does once [i], [j], [r0], [k] and the wrapped
    [rij] are there. *)
Definition bond_tail (st : list (vec float) * float) (i j : nat) (r0 k : R)
    (rij : vec float) : option (list (vec float) * float) :=
  let '(f_bonds, energy) := st in
  let dr := vnorm rij in
  let df := fmul (Finite (- k)) (fsub dr (Finite r0)) in
  f_bond_vector <- Jit.vfast (vdiv (vscale df rij) dr) ;;
  f_bonds <- Jit.update_row f_bonds i (fun f => vsub f f_bond_vector) ;;
  f_bonds <- Jit.update_row f_bonds j (fun f => vadd f f_bond_vector) ;;
  e <- Jit.fast (fmul (Finite (5 / 10 * k))
                      (fmul (fsub dr (Finite r0)) (fsub dr (Finite r0)))) ;;
  Some (f_bonds, fadd energy e).

End Compiled.

(* ================================================================== *)
(** ** [hymd/force.py]: one bonded pair in binary64 *)

(** Lines 183-197 on the numbers NumPy computes with: every operation is
    rounded to the nearest binary64 value.  [Force.pair_force] is the same
    lines over the reals. *)
Module Binary64.
Import PrimFloat.
Local Open Scope float_scope.

Definition two52 : float := 4503599627370496.

(** [np.around]: C's [rint], to the nearest integer with ties to the even
    one.  Below [2 ^ 52] in magnitude, adding and subtracting [2 ^ 52]
    rounds to an integer; from there on every binary64 value is one. *)
Definition around (x : float) : float :=
  if ltb (abs x) two52 then
    if ltb x 0 then (x - two52) + two52 else (x + two52) - two52
  else x.

(** [x -= L * np.around(x / L)] *)
Definition wrap (x L : float) : float := x - L * around (x / L).

Definition vec : Set := (float * float * float)%type.

(** The force vector on [j] and the energy of one bonded pair. *)
Definition pair_force (box_size ri rj : vec) (r0 k : float) : vec * float :=
  let '(Lx, Ly, Lz) := box_size in
  let '(xi, yi, zi) := ri in
  let '(xj, yj, zj) := rj in
  let x := wrap (xj - xi) Lx in
  let y := wrap (yj - yi) Ly in
  let z := wrap (zj - zi) Lz in
  let dr := sqrt (x * x + y * y + z * z) in
  let df := - k * (dr - r0) in
  ((df * x / dr, df * y / dr, df * z / dr),
   0.5 * k * ((dr - r0) * (dr - r0))).

(** A box side just above 2: the next binary64 value, [2 + 2 ^ -51]. *)
Definition box_side : float := 0x1.0000000000001p1.

(** The same number as a real: [4503599627370497 * 2 ^ -51]. *)
Definition box_side_exact : R := (4503599627370497 / 2251799813685248)%R.

End Binary64.

(* ================================================================== *)
(** ** Terms for the compiled loops *)

Module CompiledTerms.
Import Py Float Input Force.

Definition finiteb (a : float) : bool :=
  match a with Finite _ => true | NonFinite => false end.

Definition vfiniteb (v : vec float) : bool :=
  finiteb (vx v) && finiteb (vy v) && finiteb (vz v).

(** Every force and the energy are finite numbers. *)
Definition all_finite (out : list (vec float) * float) : bool :=
  forallb vfiniteb (fst out) && finiteb (snd out).

(** What a compiled loop returns where the plain loop gives [res]: the same
    result when the plain loop returns and nothing in it is inf or nan;
    nothing defined otherwise. *)
Definition where_defined (res : result (list (vec float) * float))
  : option (list (vec float) * float) :=
  match res with
  | OK out => if all_finite out then Some out else None
  | _ => None
  end.

End CompiledTerms.

(* ================================================================== *)
(** ** Further terms in which properties are stated *)

Module Notions.
Import Py Float Input Force.
Local Open Scope R_scope.

(** Every component is exactly zero, or is not a finite number. *)
Definition balanced (v : vec float) : Prop :=
  forall d : axis, component d v = Finite 0 \/ component d v = NonFinite.

(** Both atoms of a two-body entry are rows of the position array and of
    the force array. *)
Definition rows_exist_2 (n_positions n_forces : nat) (b : entry2) : Prop :=
  let '(i, j, _, _) := b in
  (i < n_positions)%nat /\ (j < n_positions)%nat
  /\ (i < n_forces)%nat /\ (j < n_forces)%nat.

(** The three atoms of a three-body entry likewise. *)
Definition rows_exist_3 (n_positions n_forces : nat) (b : entry3) : Prop :=
  let '(a, b, c, _, _) := b in
  (a < n_positions)%nat /\ (b < n_positions)%nat /\ (c < n_positions)%nat
  /\ (a < n_forces)%nat /\ (b < n_forces)%nat /\ (c < n_forces)%nat.

(** The row every component of which is not a finite number. *)
Definition vnonfinite : vec float := V3 NonFinite NonFinite NonFinite.

(** Two atoms at the origin. *)
Definition coincident_positions : list (vec R) := [V3 0 0 0; V3 0 0 0].

(** Three atoms at a right angle about the second, with an entry whose
    equilibrium is the straight angle. *)
Definition bent_positions : list (vec R) := [V3 1 0 0; V3 0 0 0; V3 0 1 0].
Definition one_angle : list entry3 := [row3 0 1 2 PI 1].
Definition three_rows : list (vec float) := [vzero; vzero; vzero].

(** The strength of an entry. *)
Definition strength_2 (b : entry2) : R := let '(_, _, _, k) := b in k.
Definition strength_3 (b : entry3) : R := let '(_, _, _, _, k) := b in k.

(** The whole system moved by [t]. *)
Definition shifted (t : vec R) (r : list (vec R)) : list (vec R) :=
  map (fun v => V3 (vx v + vx t) (vy v + vy t) (vz v + vz t)) r.

(** The columns of the two lists of [prepare_bonds_old]. *)
Definition columns (bonds_2 : list entry2) (bonds_3 : list entry3)
  : Arrays.prepared :=
  Arrays.mkPrepared
    (map (fun '(i, _, _, _) => i) bonds_2)
    (map (fun '(_, j, _, _) => j) bonds_2)
    (map (fun '(_, _, r0, _) => r0) bonds_2)
    (map (fun '(_, _, _, k) => k) bonds_2)
    (map (fun '(a, _, _, _, _) => a) bonds_3)
    (map (fun '(_, b, _, _, _) => b) bonds_3)
    (map (fun '(_, _, c, _, _) => c) bonds_3)
    (map (fun '(_, _, _, t0, _) => t0) bonds_3)
    (map (fun '(_, _, _, _, k) => k) bonds_3).

(** Lines 269-294 of [force.py], from the two wrapped displacements on. *)
Definition angle_force_of_wrapped (ra rc : vec float) (theta0 k : R)
  : vec float * vec float * float :=
  let xra := fdiv (Finite 1) (fsqrt (Angles.vdot ra ra)) in
  let xrc := fdiv (Finite 1) (fsqrt (Angles.vdot rc rc)) in
  let ea := Angles.vtimes ra xra in
  let ec := Angles.vtimes rc xrc in
  let cosphi := Angles.vdot ea ec in
  let theta := Angles.farccos cosphi in
  let xsinph :=
    fdiv (Finite 1) (fsqrt (fsub (Finite 1) (fmul cosphi cosphi))) in
  let d := fsub theta (Finite theta0) in
  let f := fmul (Finite (- k)) d in
  let xrasin := fmul (fmul xra xsinph) f in
  let xrcsin := fmul (fmul xrc xsinph) f in
  let fa := Angles.vtimes (vsub (Angles.vtimes ea cosphi) ec) xrasin in
  let fc := Angles.vtimes (vsub (Angles.vtimes ec cosphi) ea) xrcsin in
  (fa, fc, fmul (fmul (Finite (5 / 10)) f) d).

(** Neither outer atom of an angle is separated from the middle atom along
    [d] by an odd number of half box lengths. *)
Definition no_tie_3 (r : list (vec R)) (box_size : vec R) (d : axis)
    (bonds_3 : list entry3) : Prop :=
  forall a b c theta0 k pa pb pc,
    In (a, b, c, theta0, k) bonds_3 ->
    nth_error r a = Some pa -> nth_error r b = Some pb ->
    nth_error r c = Some pc ->
    ~ Terms.is_tie ((component d pa - component d pb) / component d box_size)
    /\ ~ Terms.is_tie ((component d pc - component d pb)
                       / component d box_size).

(** *** What [prepare_bonds_old] emits *)

(** What the attributes of the nodes of the graph of molecule [mol] say of
    the arrays: the node is the global index of the local particle, the
    name is the particle's, and the particle belongs to [mol]. *)
Definition attrs_sound (molecules : list Z) (names : list string)
    (indices : list Z) (mol : Z) (g : Nx.Graph) : Prop :=
  forall n a,
    Nx.dict_get n (Nx._node g) = Some (Some a) ->
    nth_error indices (Nx.local_index a) = Some n
    /\ nth_error names (Nx.local_index a) = Some (Nx.name a)
    /\ nth_error molecules (Nx.local_index a) = Some mol.

(** Every path starts at [source] and ends at the key it is stored under. *)
Definition paths_from (source : Z) (ps : Nx.paths) : Prop :=
  forall k p, In (k, p) ps -> p <> [] /\ hd 0%Z p = source /\ last p 0%Z = k.

(** A two-body entry stands for a configured bond: its two atoms are local
    particles of one molecule, the first of the smaller global index, whose
    names are the two names of the bond in the order the bond gives them,
    and it carries the bond's equilibrium length and strength. *)
Definition sound_2 (molecules : list Z) (names : list string)
    (indices : list Z) (config : Config) (e : entry2) : Prop :=
  let '(i, j, r0, k) := e in
  exists (b : Bond) (gi gj mol : Z),
    In b (bonds config) /\ r0 = equilibrium b /\ k = strength b
    /\ nth_error names i = Some (atom_1 b)
    /\ nth_error names j = Some (atom_2 b)
    /\ nth_error indices i = Some gi /\ nth_error indices j = Some gj
    /\ (gi < gj)%Z
    /\ nth_error molecules i = Some mol /\ nth_error molecules j = Some mol.

(** A three-body entry stands for a configured angle: its three atoms are
    local particles of one molecule, the first of a smaller global index
    than the last, the middle one named as the angle's middle atom and the
    outer two as its outer atoms in either order, and it carries the
    angle's equilibrium in radians and its strength. *)
Definition sound_3 (molecules : list Z) (names : list string)
    (indices : list Z) (config : Config) (e : entry3) : Prop :=
  let '(i, m, j, t0, k) := e in
  exists (a : Angle) (gi gm gj mol : Z),
    In a (angle_bonds config)
    /\ t0 = radians (equilibrium a) /\ k = strength a
    /\ nth_error names m = Some (atom_2 a)
    /\ (nth_error names i = Some (atom_1 a)
        /\ nth_error names j = Some (atom_3 a)
        \/ nth_error names i = Some (atom_3 a)
           /\ nth_error names j = Some (atom_1 a))
    /\ nth_error indices i = Some gi /\ nth_error indices m = Some gm
    /\ nth_error indices j = Some gj /\ (gi < gj)%Z
    /\ nth_error molecules i = Some mol /\ nth_error molecules m = Some mol
    /\ nth_error molecules j = Some mol.

(** What the two lists hold while [prepare_bonds_old] runs. *)
Definition entries_sound (molecules : list Z) (names : list string)
    (indices : list Z) (config : Config)
    (acc : list entry2 * list entry3) : Prop :=
  Forall (sound_2 molecules names indices config) (fst acc)
  /\ Forall (sound_3 molecules names indices config) (snd acc).

(** *** Thermostat *)

(** The particle's name is in none of the groups. *)
Definition outside (groups : list (list string)) (p : Thermostat.particle)
  : bool :=
  negb (existsb (fun g => Thermostat.in_group g p) groups).

(** The velocity rows of the particles outside the groups, each at its
    place in its rank's array. *)
Definition velocities_outside (groups : list (list string))
    (world : list Thermostat.rank_arrays) : list (list (option (vec float))) :=
  map (map (fun p => if outside groups p then Some (Thermostat.pvel p)
                     else None))
      world.

(** The squared distance of a row from [s], and a row rescaled about
    [s]. *)
Definition sqdist (s u : vec R) : R :=
  (vx u - vx s) * (vx u - vx s) + (vy u - vy s) * (vy u - vy s)
  + (vz u - vz s) * (vz u - vz s).

Definition rescaled_about (a : R) (s u : vec R) : vec R :=
  V3 (a * (vx u - vx s) + vx s) (a * (vy u - vy s) + vy s)
     (a * (vz u - vz s) + vz s).


(** The [names] array of every rank. *)
Definition all_names (world : list Thermostat.rank_arrays)
  : list (list string) :=
  map (map Thermostat.pname) world.

(** *** What [prepare_bonds_old] emits for one pair of particles *)


(** The row of local particle [l] in the [bonds] array lists the global
    index [g]. *)
Definition lists_bond (bonds : option (list (list Z))) (l : nat) (g : Z)
  : Prop :=
  exists rows row,
    bonds = Some rows /\ nth_error rows l = Some row /\ In g row
    /\ g <> (-1)%Z.

(** The rows of [bonds_2] for the local pair [(li, lj)], and the rows of
    [bonds_3] whose outer atoms are [(li, lj)], in the order of the list. *)
Definition entries_2_of (li lj : nat) (bonds_2 : list entry2) : list entry2 :=
  filter (fun '(i, j, _, _) => Nat.eqb i li && Nat.eqb j lj) bonds_2.









(** The arrays fit together: [bonds] is an array; every local particle has
    a molecule, a name and a row of [bonds]; and every global index a row
    lists is that of a local particle of the same molecule. *)
Definition arrays_fit (molecules : list Z) (names : list string)
    (bonds : option (list (list Z))) (indices : list Z) : Prop :=
  exists rows,
    bonds = Some rows
    /\ forall l gl,
         nth_error indices l = Some gl ->
         exists m nm row,
           nth_error molecules l = Some m
           /\ nth_error names l = Some nm
           /\ nth_error rows l = Some row
           /\ forall u, In u row -> u <> (-1)%Z ->
                exists l', nth_error indices l' = Some u
                           /\ nth_error molecules l' = Some m.


End Notions.

(* ================================================================== *)
(** * Properties *)

(** ** The graph search of the bonded-list construction *)

Module NxFacts.
Import Py Nx Terms.
Local Open Scope Z_scope.

Lemma dict_get_In {V} (k : Z) (d : dict V) :
  In k (keys d) <-> exists v, dict_get k d = Some v.
Proof.
  induction d as [| [k' v'] d IH]; simpl.
  - split; [contradiction | intros [v H]; discriminate H].
  - destruct (Z.eqb_spec k k') as [-> | Hne].
    + split; [intros _; now exists v' | now left].
    + rewrite <- IH. split; [intros [H | H]; [congruence | exact H] | now right].
Qed.

Lemma dict_mem_In {V} (k : Z) (d : dict V) :
  dict_mem k d = true <-> In k (keys d).
Proof.
  unfold dict_mem. rewrite dict_get_In.
  destruct (dict_get k d) as [v |].
  - split; [intros _; now exists v | reflexivity].
  - split; [discriminate | intros [v H]; discriminate H].
Qed.

Lemma dict_mem_false {V} (k : Z) (d : dict V) :
  dict_mem k d = false -> ~ In k (keys d).
Proof.
  intros H Hin. apply dict_mem_In in Hin. congruence.
Qed.

Lemma keys_app {V} (d d' : dict V) : keys (d ++ d') = keys d ++ keys d'.
Proof. apply map_app. Qed.

(** *** One pass of the search *)

Lemma visit_neighbours_spec (pv ws : list Z) (ps : paths) (next : list Z) :
  exists added,
    keys (fst (visit_neighbours pv ws (ps, next))) = keys ps ++ added
    /\ snd (visit_neighbours pv ws (ps, next)) = next ++ added
    /\ incl added ws
    /\ (NoDup (keys ps) ->
        NoDup (keys (fst (visit_neighbours pv ws (ps, next))))).
Proof.
  revert ps next. induction ws as [| w ws IH]; intros ps next.
  - exists []. cbn [visit_neighbours fst snd]. rewrite !app_nil_r.
    repeat split; [apply incl_refl | auto].
  - cbn [visit_neighbours]. destruct (dict_mem w ps) eqn:E.
    + destruct (IH ps next) as [added [H1 [H2 [H3 H4]]]].
      exists added. repeat split; try assumption.
      now apply incl_tl.
    + destruct (IH (ps ++ [(w, pv ++ [w])]) (next ++ [w]))
        as [added [H1 [H2 [H3 H4]]]].
      exists (w :: added).
      split; [etransitivity; [exact H1 |]; rewrite keys_app;
              cbn [keys map fst]; now rewrite <- app_assoc |].
      split; [etransitivity; [exact H2 |]; now rewrite <- app_assoc |].
      split; [intros x [<- | Hx]; [now left | right; now apply H3] |].
      intros Hnd. apply H4. rewrite keys_app. cbn [keys map fst].
      apply NoDup_app; [assumption | repeat constructor; auto |].
      intros x Hx [<- | []]. now apply (dict_mem_false _ _ E).
Qed.


Lemma visit_level_spec (adj : dict (list Z)) (level : list Z) :
  closed adj ->
  forall (ps : paths) (next : list Z),
    incl level (keys adj) -> incl level (keys ps) ->
    exists ps' added,
      for_each
        (fun st v =>
           match dict_get v adj, dict_get v (fst st) with
           | Some ws, Some pv => OK (visit_neighbours pv ws st)
           | _, _ => Raise KeyError
           end)
        level (ps, next)
      = OK (ps', next ++ added)
      /\ keys ps' = keys ps ++ added
      /\ incl added (keys adj)
      /\ (NoDup (keys ps) -> NoDup (keys ps')).
Proof.
  intros Hclosed.
  induction level as [| v level IH]; intros ps next Hadj Hps.
  - exists ps, []. cbn [for_each]. rewrite !app_nil_r.
    repeat split; [apply incl_nil_l | auto].
  - cbn [for_each fst].
    destruct (proj1 (dict_get_In v adj) (Hadj v (or_introl eq_refl)))
      as [ws Hws].
    destruct (proj1 (dict_get_In v ps) (Hps v (or_introl eq_refl)))
      as [pv Hpv].
    rewrite Hws, Hpv. cbn [bind].
    destruct (visit_neighbours_spec pv ws ps next)
      as [a1 [K1 [N1 [I1 D1]]]].
    destruct (visit_neighbours pv ws (ps, next)) as [ps1 next1].
    cbn [fst snd] in K1, N1, D1. subst next1.
    destruct (IH ps1 (next ++ a1)) as [ps' [a2 [E [K2 [I2 D2]]]]].
    + intros x Hx. apply Hadj. now right.
    + intros x Hx. rewrite K1. apply in_or_app. left. apply Hps. now right.
    + exists ps', (a1 ++ a2).
      split; [rewrite E; now rewrite <- app_assoc |].
      split; [rewrite K2, K1; now rewrite <- app_assoc |].
      split.
      * intros x Hx. apply in_app_or in Hx as [Hx | Hx].
        -- apply (Hclosed v ws x Hws). now apply I1.
        -- now apply I2.
      * intros Hnd. apply D2. now apply D1.
Qed.

Lemma shortest_path_loop_nil (budget : nat) (adj : dict (list Z))
    (ps : paths) :
  shortest_path_loop budget adj [] ps = OK ps.
Proof. destruct budget; reflexivity. Qed.

(** The budget of the search is never exhausted: each pass but the last
    discovers a node. *)
Lemma shortest_path_loop_finishes (adj : dict (list Z)) :
  closed adj ->
  forall (budget : nat) (level : list Z) (ps : paths),
    NoDup (keys ps) -> incl (keys ps) (keys adj) -> incl level (keys ps) ->
    (length (keys adj) + 1 <= budget + length (keys ps))%nat ->
    exists r, shortest_path_loop budget adj level ps = OK r.
Proof.
  intros Hclosed.
  induction budget as [| budget IH]; intros level ps Hnd Hsub Hlevel Hm.
  - pose proof (NoDup_incl_length Hnd Hsub). lia.
  - destruct level as [| v level];
      [exists ps; reflexivity |].
    cbn [shortest_path_loop]. unfold visit_level.
    destruct (visit_level_spec adj (v :: level) Hclosed ps [])
      as [ps' [added [E [K [I D]]]]].
    + intros x Hx. apply Hsub. now apply Hlevel.
    + exact Hlevel.
    + rewrite E. cbn [bind app].
      destruct added as [| w added];
        [exists ps'; apply shortest_path_loop_nil |].
      apply IH.
      * now apply D.
      * rewrite K. intros x Hx. apply in_app_or in Hx as [Hx | Hx]; auto.
      * rewrite K. intros x Hx. apply in_or_app. now right.
      * rewrite K, length_app. cbn [length]. lia.
Qed.

(** *** Graphs built with [add_node] and [add_edge] *)

Lemma dict_get_app {V} (k : Z) (d d' : dict V) :
  dict_get k (d ++ d')
  = match dict_get k d with Some v => Some v | None => dict_get k d' end.
Proof.
  induction d as [| [k' v'] d IH]; [reflexivity |].
  cbn [app dict_get]. destruct (k =? k'); [reflexivity | exact IH].
Qed.

Lemma dict_get_set {V} (k k' : Z) (x : V) (d : dict V) :
  dict_get k (dict_set k' x d)
  = if k =? k' then Some x else dict_get k d.
Proof.
  induction d as [| [k0 v0] d IH]; cbn [dict_set dict_get].
  - reflexivity.
  - destruct (Z.eqb_spec k' k0) as [-> | Hne]; cbn [dict_get].
    + destruct (k =? k0); reflexivity.
    + rewrite IH. destruct (Z.eqb_spec k k0) as [-> | Hne'].
      * destruct (Z.eqb_spec k0 k'); [congruence | reflexivity].
      * reflexivity.
Qed.

Lemma keys_dict_set_present {V} (k : Z) (x : V) (d : dict V) :
  In k (keys d) -> keys (dict_set k x d) = keys d.
Proof.
  induction d as [| [k0 v0] d IH]; [contradiction |].
  cbn [dict_set]. destruct (Z.eqb_spec k k0) as [-> | Hne]; [reflexivity |].
  intros [H | H]; [cbn in H; congruence |].
  cbn [keys map fst]. f_equal. now apply IH.
Qed.

Lemma closed_ensure (adj : dict (list Z)) (n : Z) :
  closed adj -> closed (adj ++ [(n, [])]).
Proof.
  intros Hc v ws w Hget Hin. rewrite keys_app. apply in_or_app.
  rewrite dict_get_app in Hget.
  destruct (dict_get v adj) as [ws' |] eqn:E.
  - injection Hget as <-. left. now apply (Hc v ws' w).
  - cbn [dict_get] in Hget. destruct (v =? n); [| discriminate].
    injection Hget as <-. contradiction.
Qed.

Lemma well_formed_ensure_node (g : Graph) (n : Z) :
  well_formed g -> well_formed (ensure_node g n)
                   /\ In n (keys (_adj (ensure_node g n))).
Proof.
  intros [Hc Hk]. unfold ensure_node.
  destruct (dict_mem n (_node g)) eqn:E.
  - split; [now split |]. rewrite <- Hk. now apply dict_mem_In.
  - unfold well_formed. cbn [_node _adj]. split; [split |].
    + now apply closed_ensure.
    + rewrite !keys_app, Hk. reflexivity.
    + rewrite keys_app. apply in_or_app. right. now left.
Qed.

Lemma well_formed_mono (g : Graph) (n m : Z) :
  well_formed g -> In m (keys (_adj g)) ->
  In m (keys (_adj (ensure_node g n))).
Proof.
  intros _ Hm. unfold ensure_node.
  destruct (dict_mem n (_node g)); [exact Hm |].
  cbn [_adj]. rewrite keys_app. apply in_or_app. now left.
Qed.

Lemma well_formed_add_node (g : Graph) (n : Z) (a : attrs) :
  well_formed g -> well_formed (add_node g n a).
Proof.
  intros Hwf. destruct (well_formed_ensure_node g n Hwf) as [[Hc Hk] Hn].
  unfold add_node. split; cbn [_node _adj]; [exact Hc |].
  rewrite keys_dict_set_present; [exact Hk |]. now rewrite Hk.
Qed.

Lemma closed_add_neighbour (u v : Z) (adj : dict (list Z)) :
  closed adj -> In v (keys adj) ->
  closed (add_neighbour u v adj)
  /\ keys (add_neighbour u v adj) = keys adj.
Proof.
  intros Hc Hv. unfold add_neighbour.
  destruct (dict_get u adj) as [ns |] eqn:E; [| now split].
  destruct (existsb (Z.eqb v) ns); [now split |].
  assert (Hu : In u (keys adj)) by (apply dict_get_In; now exists ns).
  assert (Hk : keys (dict_set u (ns ++ [v]) adj) = keys adj)
    by now apply keys_dict_set_present.
  split; [| exact Hk].
  intros x ws w Hget Hin. rewrite Hk.
  rewrite dict_get_set in Hget.
  destruct (Z.eqb_spec x u) as [-> | Hne].
  - injection Hget as <-. apply in_app_or in Hin as [Hin | [<- | []]].
    + now apply (Hc u ns w).
    + exact Hv.
  - now apply (Hc x ws w).
Qed.

Lemma well_formed_add_edge (g : Graph) (u v : Z) :
  well_formed g -> well_formed (add_edge g u v).
Proof.
  intros Hwf.
  destruct (well_formed_ensure_node g u Hwf) as [Hwf1 Hu].
  destruct (well_formed_ensure_node (ensure_node g u) v Hwf1) as [Hwf2 Hv].
  pose proof (well_formed_mono (ensure_node g u) v u Hwf1 Hu) as Hu2.
  destruct Hwf2 as [Hc Hk].
  destruct (closed_add_neighbour u v _ Hc Hv) as [Hc1 Hk1].
  destruct (closed_add_neighbour v u _ Hc1) as [Hc2 Hk2];
    [now rewrite Hk1 |].
  unfold add_edge. split; cbn [_node _adj]; [exact Hc2 |].
  now rewrite Hk2, Hk1.
Qed.

Lemma single_source_shortest_path_finishes (g : Graph) (source : Z) :
  well_formed g -> In source (keys (_node g)) ->
  exists ps, single_source_shortest_path g source = OK ps.
Proof.
  intros [Hc Hk] Hs. unfold single_source_shortest_path.
  apply shortest_path_loop_finishes; [exact Hc | | | |].
  - cbn. repeat constructor. auto.
  - intros x [<- | []]. now rewrite <- Hk.
  - intros x [<- | []]. now left.
  - rewrite <- Hk. unfold keys. rewrite length_map. cbn [map length]. lia.
Qed.


(** *** The construction always returns or raises *)

Lemma for_each_invariant {A S} (P : S -> Prop)
    (body : S -> A -> result S) (xs : list A) :
  (forall s x s', P s -> body s x = OK s' -> P s') ->
  forall s s', P s -> for_each body xs s = OK s' -> P s'.
Proof.
  intros Hbody. induction xs as [| x xs IH]; intros s s' Hs H.
  - injection H as <-. exact Hs.
  - cbn [for_each] in H. destruct (body s x) as [s1 | e |] eqn:E;
      cbn [bind] in H; try discriminate H.
    apply (IH s1 s'); [now apply (Hbody s x) | exact H].
Qed.

Lemma for_each_finishes {A S} (body : S -> A -> result S) (xs : list A) :
  (forall s x, In x xs -> body s x <> Unfinished) ->
  forall s, for_each body xs s <> Unfinished.
Proof.
  induction xs as [| x xs IH]; intros Hbody s; [discriminate |].
  cbn [for_each]. pose proof (Hbody s x (or_introl eq_refl)) as Hx.
  destruct (body s x) as [s1 | e |]; cbn [bind];
    [| discriminate | contradiction].
  apply IH. intros s2 y Hy. apply Hbody. now right.
Qed.

Lemma getitem_finishes {A} (xs : list A) (i : nat) :
  getitem xs i <> Unfinished.
Proof. unfold getitem. destruct (nth_error xs i); discriminate. Qed.

Lemma fold_add_edge_well_formed (u : Z) (vs : list Z) (g : Graph) :
  well_formed g ->
  well_formed (fold_left (fun g' v => add_edge g' u v) vs g).
Proof.
  revert g. induction vs as [| v vs IH]; intros g Hg; [exact Hg |].
  cbn [fold_left]. apply IH. now apply well_formed_add_edge.
Qed.

Lemma well_formed_empty : well_formed empty.
Proof. split; [intros v ws w H; discriminate H | reflexivity]. Qed.

End NxFacts.

Module ConstructionFacts.
Import Py Nx Force Terms NxFacts.

Lemma molecule_graph_well_formed (mol : Z) (molecules : list Z)
    (names : list string) (bonds : option (list (list Z)))
    (indices : list Z) (g : Graph) :
  molecule_graph mol molecules names bonds indices = OK g -> well_formed g.
Proof.
  unfold molecule_graph.
  apply (for_each_invariant well_formed); [| exact well_formed_empty].
  intros s [local_index global_index] s' Hs.
  destruct (getitem molecules local_index) as [m | |]; cbn [bind];
    try discriminate.
  destruct (negb (m =? mol)%Z); [now intros [= <-] |].
  destruct (getitem names local_index) as [nm | |]; cbn [bind];
    try discriminate.
  destruct bonds as [rows |]; [| discriminate].
  destruct (getitem rows local_index) as [row | |]; cbn [bind];
    try discriminate.
  intros [= <-]. apply fold_add_edge_well_formed.
  now apply well_formed_add_node.
Qed.

Lemma molecule_graph_finishes (mol : Z) (molecules : list Z)
    (names : list string) (bonds : option (list (list Z)))
    (indices : list Z) :
  molecule_graph mol molecules names bonds indices <> Unfinished.
Proof.
  unfold molecule_graph. apply for_each_finishes.
  intros s [local_index global_index] _.
  pose proof (getitem_finishes molecules local_index) as H1.
  destruct (getitem molecules local_index) as [m | |]; cbn [bind];
    [| discriminate | contradiction].
  destruct (negb (m =? mol)%Z); [discriminate |].
  pose proof (getitem_finishes names local_index) as H2.
  destruct (getitem names local_index) as [nm | |]; cbn [bind];
    [| discriminate | contradiction].
  destruct bonds as [rows |]; [| discriminate].
  pose proof (getitem_finishes rows local_index) as H3.
  destruct (getitem rows local_index) as [row | |]; cbn [bind];
    [discriminate | discriminate | contradiction].
Qed.

Lemma node_attrs_finishes (g : Graph) (n : Z) : node_attrs g n <> Unfinished.
Proof.
  unfold node_attrs. destruct (dict_get n (_node g)) as [[a |] |]; discriminate.
Qed.

Lemma visit_path_finishes (config : Input.Config) (g : Graph) (i : Z)
    (acc : list entry2 * list entry3) (jp : Z * list Z) :
  visit_path config g i acc jp <> Unfinished.
Proof.
  unfold visit_path. destruct jp as [j path].
  pose proof (node_attrs_finishes g i) as Hi.
  pose proof (node_attrs_finishes g j) as Hj.
  pose proof (node_attrs_finishes g (nth 1 path 0%Z)) as Hm.
  destruct (node_attrs g i), (node_attrs g j),
    (node_attrs g (nth 1 path 0%Z)); try contradiction;
    destruct ((length path =? 2)%nat && (last path 0 >? hd 0 path)%Z);
    destruct ((length path =? 3)%nat && (last path 0 >? hd 0 path)%Z);
    cbn [bind]; discriminate.
Qed.

(** X1.  The construction returns lists or raises a Python exception on
    every input: the search for shortest paths never runs out of the
    budget the model gives its loop, the number of nodes of the graph. *)
Theorem prepare_bonds_old_finishes (molecules : list Z) (names : list string)
    (bonds : option (list (list Z))) (indices : list Z)
    (config : Input.Config) :
  prepare_bonds_old molecules names bonds indices config <> Unfinished.
Proof.
  unfold prepare_bonds_old. apply for_each_finishes.
  intros acc mol _. unfold visit_molecule.
  pose proof (molecule_graph_finishes mol molecules names bonds indices) as Hg.
  destruct (molecule_graph mol molecules names bonds indices) as [g | |] eqn:E;
    cbn [bind]; [| discriminate | contradiction].
  apply molecule_graph_well_formed in E.
  apply for_each_finishes.
  intros acc' [i c1] Hin. unfold all_pairs_shortest_path in Hin.
  apply in_map_iff in Hin as [n [[= <- <-] Hn]].
  destruct (single_source_shortest_path_finishes g n E Hn) as [ps ->].
  cbn [bind]. apply for_each_finishes.
  intros s jp _. apply visit_path_finishes.
Qed.

End ConstructionFacts.

(** ** Bonded-list construction *)

Module ForceFacts.
Import Py Float Input Force Examples.

(** X2.  The two tests of lines 65-66 are the same test: [match_backward]
    adds nothing to [match_forward], so a definition matches a pair only
    in its own order. *)
Lemma bond_matches_forward_only (name_i name_j : string) (b : Bond) :
  bond_matches name_i name_j b
  = String.eqb name_i (atom_1 b) && String.eqb name_j (atom_2 b).
Proof.
  unfold bond_matches.
  destruct (String.eqb name_i (atom_1 b)), (String.eqb name_j (atom_2 b));
    reflexivity.
Qed.

Lemma fold_append_filter {A B} (keep : A -> bool) (row : A -> B)
    (xs : list A) (acc : list B) :
  fold_left (fun acc x => if keep x then acc ++ [row x] else acc) xs acc
  = acc ++ map row (filter keep xs).
Proof.
  revert acc.
  induction xs as [| x xs IH]; intros acc; simpl.
  - now rewrite app_nil_r.
  - rewrite IH. destruct (keep x); simpl.
    + now rewrite <- app_assoc.
    + reflexivity.
Qed.

(** C1 (the code at the failing input).  Particles 0 and 1 are bonded and
    named P and N; the only definition is Bond(N, P).  The construction
    emits no two-body entry for the pair, while the same pair named N and P
    gets the entry of the definition. *)
Theorem prepare_bonds_old_misses_reversed_pair :
  prepare_bonds_old reversed_pair.molecules reversed_pair.names
    reversed_pair.bonds reversed_pair.indices reversed_pair.config
  = OK ([], [])
  /\ prepare_bonds_old reversed_pair.molecules reversed_pair.forward_names
       reversed_pair.bonds reversed_pair.indices reversed_pair.config
     = OK ([row2 0 1 (47 / 100) 1250], []).
Proof. split; reflexivity. Qed.


(** The two scans: each appends one entry for every definition that
    matches, in configuration order. *)
Lemma append_bonds_one_entry_per_match
    (config_bonds : list Bond) (config_angles : list Angle)
    (name_i name_mid name_j : string) (local_i local_mid local_j : nat)
    (bonds_2 : list entry2) (bonds_3 : list entry3) :
  append_bonds_2 config_bonds name_i name_j local_i local_j bonds_2
  = bonds_2
    ++ map (fun b => (local_i, local_j, equilibrium b, strength b))
           (filter (bond_matches name_i name_j) config_bonds)
  /\ append_bonds_3 config_angles name_i name_mid name_j
                    local_i local_mid local_j bonds_3
     = bonds_3
       ++ map (fun a : Angle =>
                 (local_i, local_mid, local_j,
                  radians (equilibrium a), strength a))
              (filter (angle_matches name_i name_mid name_j) config_angles).
Proof.
  split.
  - unfold append_bonds_2.
    apply (fold_append_filter (bond_matches name_i name_j)
             (fun b => (local_i, local_j, equilibrium b, strength b))).
  - unfold append_bonds_3.
    apply (fold_append_filter (angle_matches name_i name_mid name_j)
             (fun a : Angle =>
                (local_i, local_mid, local_j,
                 radians (equilibrium a), strength a))).
Qed.




(** C4 (the code at the failing input).  The fixture's [bonds] is the value
    of [ndarray.fill], which is [None]; the construction raises [TypeError]
    at [bonds[local_index]] for the first particle.  With three rows of -1
    in its place the construction returns two empty lists. *)
Theorem prepare_bonds_old_three_atoms (config : Config) :
  prepare_bonds_old Conftest.three_atoms.molecules Conftest.three_atoms.names
    Conftest.three_atoms.bonds Conftest.three_atoms.indices config
  = Raise TypeError
  /\ prepare_bonds_old Conftest.three_atoms.molecules
       Conftest.three_atoms.names three_atoms_unbonded
       Conftest.three_atoms.indices config
     = OK ([], []).
Proof. split; reflexivity. Qed.

End ForceFacts.

(* ================================================================== *)
(** ** Arithmetic of the float model *)

Module FloatFacts.
Import Float Terms.
Local Open Scope R_scope.

Lemma lift2_finite_inv (op : R -> R -> R) (a b : float) (z : R) :
  lift2 op a b = Finite z ->
  exists x y, a = Finite x /\ b = Finite y /\ z = op x y.
Proof.
  destruct a as [x |], b as [y |]; simpl; intros H; try discriminate H.
  injection H as <-. now exists x, y.
Qed.

Lemma fdiv_finite (x y : R) : y <> 0 -> fdiv (Finite x) (Finite y) = Finite (x / y).
Proof.
  intros Hy. unfold fdiv. destruct (Req_dec_T y 0); [contradiction | reflexivity].
Qed.

Lemma fdiv_by_zero (a : float) : fdiv a (Finite 0) = NonFinite.
Proof.
  destruct a as [x |]; simpl; [| reflexivity].
  destruct (Req_dec_T 0 0) as [_ | H]; [reflexivity | now contradiction H].
Qed.

Lemma fdiv_finite_inv (a b : float) (z : R) :
  fdiv a b = Finite z ->
  exists x y, a = Finite x /\ b = Finite y /\ y <> 0 /\ z = x / y.
Proof.
  destruct a as [x |], b as [y |]; simpl; intros H; try discriminate H.
  destruct (Req_dec_T y 0); [discriminate H |].
  injection H as <-. now exists x, y.
Qed.

Lemma fsqrt_finite (x : R) : 0 <= x -> fsqrt (Finite x) = Finite (sqrt x).
Proof.
  intros Hx. simpl. destruct (Rlt_dec x 0); [lra | reflexivity].
Qed.

Lemma fsqrt_finite_inv (a : float) (z : R) :
  fsqrt a = Finite z -> exists x, a = Finite x /\ 0 <= x /\ z = sqrt x.
Proof.
  destruct a as [x |]; simpl; intros H; [| discriminate H].
  destruct (Rlt_dec x 0); [discriminate H |].
  injection H as <-. exists x. repeat split; lra.
Qed.

(** Sums of reals, and the sums of the model on finite values. *)
Lemma fold_left_Rplus (xs : list R) (acc : R) :
  fold_left Rplus xs acc = acc + Rsum xs.
Proof.
  revert acc. induction xs as [| x xs IH]; intros acc; simpl.
  - lra.
  - rewrite IH. lra.
Qed.

Lemma fold_fadd_finite (xs : list R) (acc : R) :
  fold_left fadd (map Finite xs) (Finite acc) = Finite (acc + Rsum xs).
Proof.
  revert acc. induction xs as [| x xs IH]; intros acc; simpl.
  - f_equal. lra.
  - rewrite IH. f_equal. lra.
Qed.

Lemma fsum_finite (xs : list R) : fsum (map Finite xs) = Finite (Rsum xs).
Proof. unfold fsum. rewrite fold_fadd_finite. f_equal. lra. Qed.

Lemma fold_fadd_nonfinite (xs : list float) :
  fold_left fadd xs NonFinite = NonFinite.
Proof. induction xs as [| x xs IH]; simpl; [reflexivity | exact IH]. Qed.

Lemma fold_fadd_finite_inv (xs : list float) (acc : float) (t : R) :
  fold_left fadd xs acc = Finite t ->
  is_finite acc /\ exists xs', xs = map Finite xs'.
Proof.
  revert acc. induction xs as [| x xs IH]; intros acc H; simpl in H.
  - split; [now exists t | now exists []].
  - destruct (IH _ H) as [[s Hs] [xs' ->]].
    destruct (lift2_finite_inv _ _ _ _ Hs) as [a [b [-> [-> _]]]].
    split; [now exists a | now exists (b :: xs')].
Qed.

Lemma fsum_finite_inv (xs : list float) (t : R) :
  fsum xs = Finite t -> exists xs', xs = map Finite xs'.
Proof. intros H. exact (proj2 (fold_fadd_finite_inv _ _ _ H)). Qed.

(** A sum of rows is the row of the sums of the components. *)
Lemma fold_vadd_components (vs : list (vec float)) (acc : vec float) :
  fold_left vadd vs acc
  = V3 (fold_left fadd (map vx vs) (vx acc))
       (fold_left fadd (map vy vs) (vy acc))
       (fold_left fadd (map vz vs) (vz acc)).
Proof.
  revert acc. induction vs as [| v vs IH]; intros acc; simpl.
  - now destruct acc.
  - rewrite IH. reflexivity.
Qed.

Lemma vsum_components (vs : list (vec float)) :
  vsum vs = V3 (fsum (map vx vs)) (fsum (map vy vs)) (fsum (map vz vs)).
Proof. unfold vsum. rewrite fold_vadd_components. reflexivity. Qed.

Lemma Rsum_app (xs ys : list R) : Rsum (xs ++ ys) = Rsum xs + Rsum ys.
Proof. induction xs as [| x xs IH]; simpl; [lra | rewrite IH; lra]. Qed.

(** Rescaling every value about a shift [s]. *)
Lemma Rsum_rescaled (a s : R) (xs : list R) :
  Rsum (map (fun x => a * (x - s) + s) xs)
  = a * Rsum xs + INR (length xs) * (s - a * s).
Proof.
  induction xs as [| x xs IH].
  - simpl. lra.
  - cbn [map Rsum fold_right length]. fold (Rsum (map (fun x => a * (x - s) + s) xs)).
    fold (Rsum xs). rewrite IH, S_INR. lra.
Qed.

End FloatFacts.

(** ** Rounding to the nearest integer and the wrapped displacement *)

Module RoundFacts.
Import Float Terms FloatFacts.
Local Open Scope R_scope.

Lemma Rfloor_spec (x : R) : IZR (Rfloor x) <= x < IZR (Rfloor x) + 1.
Proof.
  unfold Rfloor. destruct (archimed x) as [H1 H2].
  rewrite minus_IZR. split; lra.
Qed.

Lemma Rfloor_unique (x : R) (n : Z) : IZR n <= x < IZR n + 1 -> Rfloor x = n.
Proof.
  intros [H1 H2]. unfold Rfloor.
  assert (H : (n + 1)%Z = up x).
  { apply tech_up; rewrite plus_IZR; lra. }
  rewrite <- H. lia.
Qed.

(** Half-way between [f] and [f + 1] the even one is taken. *)
Lemma around_tie (x : R) (f : Z) :
  x = IZR f + 1 / 2 -> around x = if Z.even f then f else (f + 1)%Z.
Proof.
  intros Hx. unfold around.
  rewrite (Rfloor_unique x f) by lra.
  destruct (Rlt_dec (x - IZR f) (1 / 2)); [lra |].
  destruct (Rlt_dec (1 / 2) (x - IZR f)); [lra | reflexivity].
Qed.

Lemma around_near (x : R) (n : Z) :
  IZR n - 1 / 2 < x < IZR n + 1 / 2 -> around x = n.
Proof.
  intros [H1 H2]. unfold around.
  destruct (Rle_lt_dec (IZR n) x) as [Hge | Hlt].
  - rewrite (Rfloor_unique x n) by lra.
    destruct (Rlt_dec (x - IZR n) (1 / 2)); [reflexivity | lra].
  - rewrite (Rfloor_unique x (n - 1)) by (rewrite minus_IZR; lra).
    rewrite minus_IZR.
    destruct (Rlt_dec (x - (IZR n - 1)) (1 / 2)); [lra |].
    destruct (Rlt_dec (1 / 2) (x - (IZR n - 1))); [lia | lra].
Qed.

Lemma around_cases (x : R) :
  IZR (around x) - 1 / 2 < x < IZR (around x) + 1 / 2 \/ is_tie x.
Proof.
  destruct (Rfloor_spec x) as [H1 H2].
  destruct (Rtotal_order (x - IZR (Rfloor x)) (1 / 2)) as [Hlt | [Heq | Hgt]].
  - left. rewrite (around_near x (Rfloor x)) by lra. lra.
  - right. exists (Rfloor x). lra.
  - left. rewrite (around_near x (Rfloor x + 1)) by (rewrite plus_IZR; lra).
    rewrite plus_IZR. lra.
Qed.

Lemma near_not_tie (x : R) (n : Z) :
  IZR n - 1 / 2 < x < IZR n + 1 / 2 -> ~ is_tie x.
Proof.
  intros [H1 H2] [f Hf].
  assert (Ha : IZR (n - 1) < IZR f) by (rewrite minus_IZR; lra).
  assert (Hb : IZR f < IZR n) by lra.
  apply lt_IZR in Ha, Hb. lia.
Qed.

Lemma around_shift (x : R) (m : Z) :
  ~ is_tie x -> around (x + IZR m) = (around x + m)%Z.
Proof.
  intros Hno. destruct (around_cases x) as [H | H]; [| contradiction].
  apply around_near. rewrite plus_IZR. lra.
Qed.

(** At a tie one more or one fewer period turns the remainder around. *)
Lemma around_shift_tie (x : R) (m : Z) :
  is_tie x -> m = 1%Z \/ m = (-1)%Z ->
  IZR (around (x + IZR m)) = 2 * x + IZR m - IZR (around x).
Proof.
  intros [f Hf] Hm.
  rewrite (around_tie x f Hf).
  rewrite (around_tie (x + IZR m) (f + m)) by (rewrite plus_IZR; lra).
  assert (Hpar : Z.even (f + m) = negb (Z.even f)).
  { destruct Hm as [-> | ->].
    - rewrite Z.add_1_r, Z.even_succ, <- Z.negb_even. reflexivity.
    - replace (f + -1)%Z with (Z.pred f) by lia.
      rewrite Z.even_pred, <- Z.negb_even. reflexivity. }
  rewrite Hpar. destruct (Z.even f); cbn [negb];
    rewrite ?plus_IZR; destruct Hm as [-> | ->]; lra.
Qed.

Lemma wrap_zero_box (a : float) : Force.wrap a 0 = NonFinite.
Proof.
  unfold Force.wrap. rewrite fdiv_by_zero. cbn [faround fmul lift2].
  destruct a; reflexivity.
Qed.

Lemma wrap_finite (x L : R) :
  L <> 0 -> Force.wrap (Finite x) L = Finite (x - L * IZR (around (x / L))).
Proof.
  intros HL. unfold Force.wrap. rewrite fdiv_finite by assumption.
  reflexivity.
Qed.

Lemma wrap_shift_no_tie (x L : R) (m : Z) :
  L <> 0 -> ~ is_tie (x / L) ->
  Force.wrap (Finite (x + IZR m * L)) L = Force.wrap (Finite x) L.
Proof.
  intros HL Hno. rewrite !wrap_finite by assumption.
  replace ((x + IZR m * L) / L) with (x / L + IZR m) by (field; assumption).
  rewrite around_shift by assumption. rewrite plus_IZR.
  f_equal. ring.
Qed.

Lemma wrap_shift (x L : R) (m : Z) :
  L <> 0 -> m = 0%Z \/ m = 1%Z \/ m = (-1)%Z ->
  Force.wrap (Finite (x + IZR m * L)) L = Force.wrap (Finite x) L
  \/ Force.wrap (Finite (x + IZR m * L)) L = fopp (Force.wrap (Finite x) L).
Proof.
  intros HL Hm.
  destruct Hm as [-> | Hm].
  - left. replace (x + 0 * L) with x by ring. reflexivity.
  - destruct (around_cases (x / L)) as [Hnear | Htie].
    + left. apply wrap_shift_no_tie; [assumption |].
      exact (near_not_tie _ _ Hnear).
    + right. rewrite !wrap_finite by assumption.
      replace ((x + IZR m * L) / L) with (x / L + IZR m) by (field; assumption).
      rewrite (around_shift_tie _ _ Htie Hm).
      cbn [fopp]. f_equal. field. assumption.
Qed.

End RoundFacts.

(* ================================================================== *)
(** ** Two-body forces under a move by one box length *)

Module BondForceFacts.
Import Py Float Input Force Terms Examples FloatFacts RoundFacts.
Local Open Scope R_scope.

(** *** One bonded pair *)

Lemma pair_force_wrapped (box_size ri rj : vec R) (r0 k : R) :
  pair_force box_size ri rj r0 k
  = force_of_wrapped (wrapped box_size (rvsub rj ri)) r0 k.
Proof. reflexivity. Qed.

Lemma force_of_wrapped_energy (w w' : vec float) (r0 k : R) :
  vsumsq w' = vsumsq w ->
  snd (force_of_wrapped w' r0 k) = snd (force_of_wrapped w r0 k).
Proof.
  intros H. unfold force_of_wrapped, vnorm. cbn [snd]. now rewrite H.
Qed.

Lemma fmul_fopp_square (a : float) : fmul (fopp a) (fopp a) = fmul a a.
Proof. destruct a as [x |]; simpl; [f_equal; ring | reflexivity]. Qed.

(** One period more or fewer, or none, in the displacement along one
    axis: the wrapped component is the same or the opposite one. *)
Lemma wrap_period (x L : R) (m : Z) :
  m = 0%Z \/ m = 1%Z \/ m = (-1)%Z ->
  (wrap (Finite (x + IZR m * L)) L = wrap (Finite x) L
   \/ wrap (Finite (x + IZR m * L)) L = fopp (wrap (Finite x) L))
  /\ (~ is_tie (x / L) ->
      wrap (Finite (x + IZR m * L)) L = wrap (Finite x) L).
Proof.
  intros Hm. destruct (Req_dec_T L 0) as [-> | HL].
  - rewrite !wrap_zero_box. split; [now left | reflexivity].
  - split; [now apply wrap_shift |].
    intros Hno. now apply wrap_shift_no_tie.
Qed.

Lemma wrapped_period (box_size rij : vec R) (d : axis) (m : Z) :
  m = 0%Z \/ m = 1%Z \/ m = (-1)%Z ->
  let rij' := add_along d (IZR m * component d box_size) rij in
  vsumsq (wrapped box_size rij') = vsumsq (wrapped box_size rij)
  /\ (~ is_tie (component d rij / component d box_size) ->
      wrapped box_size rij' = wrapped box_size rij).
Proof.
  intros Hm rij'. subst rij'.
  destruct rij as [x y z], box_size as [Lx Ly Lz].
  destruct d; cbn [add_along component vx vy vz];
    unfold wrapped, vfinite, vmap, vzip, vsumsq; cbn [vx vy vz].
  - destruct (wrap_period x Lx m Hm) as [[E | E] Hno];
      (split; [rewrite E, ?fmul_fopp_square; reflexivity |]);
      intros H; now rewrite (Hno H).
  - destruct (wrap_period y Ly m Hm) as [[E | E] Hno];
      (split; [rewrite E, ?fmul_fopp_square; reflexivity |]);
      intros H; now rewrite (Hno H).
  - destruct (wrap_period z Lz m Hm) as [[E | E] Hno];
      (split; [rewrite E, ?fmul_fopp_square; reflexivity |]);
      intros H; now rewrite (Hno H).
Qed.


(** *** Moving one atom *)

Lemma getitem_translate (r : list (vec R)) (atom : nat) (d : axis) (s : R)
    (i : nat) :
  getitem (translate r atom d s) i = fmap (moved atom d s i) (getitem r i).
Proof.
  revert atom i.
  induction r as [| v r IH]; intros atom i.
  - destruct atom, i; reflexivity.
  - destruct atom as [| atom], i as [| i]; try reflexivity.
    + unfold getitem, moved. cbn [translate nth_error Nat.eqb].
      destruct (nth_error r i); reflexivity.
    + specialize (IH atom i). unfold getitem, moved in *.
      cbn [translate nth_error Nat.eqb]. exact IH.
Qed.

Lemma getitem_nth_error {A} (xs : list A) (i : nat) (x : A) :
  getitem xs i = OK x -> nth_error xs i = Some x.
Proof.
  unfold getitem. destruct (nth_error xs i); [| discriminate].
  now intros [= ->].
Qed.

Lemma component_rvsub (d : axis) (u v : vec R) :
  component d (rvsub u v) = component d u - component d v.
Proof. destruct d; reflexivity. Qed.

Lemma displacement_moved (atom i j : nat) (d : axis) (box_size : vec R)
    (positive : bool) (ri rj : vec R) :
  let s := box_length box_size d positive in
  exists m : Z,
    (m = 0%Z \/ m = 1%Z \/ m = (-1)%Z)
    /\ rvsub (moved atom d s j rj) (moved atom d s i ri)
       = add_along d (IZR m * component d box_size) (rvsub rj ri).
Proof.
  intros s. subst s. unfold moved, box_length.
  destruct ri as [xi yi zi], rj as [xj yj zj], box_size as [Lx Ly Lz].
  destruct (Nat.eqb i atom), (Nat.eqb j atom).
  - exists 0%Z. split; [tauto |].
    destruct d, positive; unfold rvsub; cbn [add_along component vx vy vz];
      f_equal; ring.
  - exists (if positive then (-1)%Z else 1%Z).
    split; [destruct positive; tauto |].
    destruct d, positive; unfold rvsub; cbn [add_along component vx vy vz];
      f_equal; ring.
  - exists (if positive then 1%Z else (-1)%Z).
    split; [destruct positive; tauto |].
    destruct d, positive; unfold rvsub; cbn [add_along component vx vy vz];
      f_equal; ring.
  - exists 0%Z. split; [tauto |].
    destruct d, positive; unfold rvsub; cbn [add_along component vx vy vz];
      f_equal; ring.
Qed.

Lemma pair_force_moved (atom i j : nat) (d : axis) (box_size : vec R)
    (positive : bool) (ri rj : vec R) (r0 k : R) :
  let s := box_length box_size d positive in
  snd (pair_force box_size (moved atom d s i ri) (moved atom d s j rj) r0 k)
  = snd (pair_force box_size ri rj r0 k)
  /\ (~ is_tie ((component d rj - component d ri) / component d box_size) ->
      pair_force box_size (moved atom d s i ri) (moved atom d s j rj) r0 k
      = pair_force box_size ri rj r0 k).
Proof.
  intros s. rewrite !pair_force_wrapped.
  destruct (displacement_moved atom i j d box_size positive ri rj)
    as [m [Hm Hdisp]].
  fold s in Hdisp. rewrite Hdisp.
  destruct (wrapped_period box_size (rvsub rj ri) d m Hm) as [Hsq Hno].
  split.
  - now apply force_of_wrapped_energy.
  - intros H. rewrite Hno; [reflexivity |]. now rewrite component_rvsub.
Qed.

(** *** The loop over the bonds *)


Lemma update_row_cases {A} (rows : list A) (i : nat) (g : A -> A) :
  (i < length rows)%nat
  /\ (exists rows', update_row rows i g = OK rows'
                    /\ length rows' = length rows)
  \/ (length rows <= i)%nat /\ update_row rows i g = Raise IndexError.
Proof.
  revert i. induction rows as [| x rows IH]; intros i.
  - right. split; [simpl; lia | reflexivity].
  - destruct i as [| i].
    + left. split; [simpl; lia |]. eexists. split; reflexivity.
    + destruct (IH i) as [[Hlt [rows' [E Hlen]]] | [Hge E]].
      * left. split; [simpl; lia |]. exists (x :: rows').
        cbn [update_row]. rewrite E. split; [reflexivity | simpl; lia].
      * right. split; [simpl; lia |]. cbn [update_row]. now rewrite E.
Qed.


Lemma for_each_ext_in {A S} (body body' : S -> A -> result S) (xs : list A) :
  (forall st x, In x xs -> body st x = body' st x) ->
  forall st, for_each body xs st = for_each body' xs st.
Proof.
  induction xs as [| x xs IH]; intros H st; [reflexivity |].
  cbn [for_each]. rewrite (H st x (or_introl eq_refl)).
  destruct (body' st x); cbn [bind]; try reflexivity.
  apply IH. intros s y Hy. apply H. now right.
Qed.

Lemma bond_step_translate (r : list (vec R)) (box_size : vec R)
    (atom : nat) (d : axis) (s : R)
    (st : list (vec float) * float) (i j : nat) (r0 k : R) :
  bond_step (translate r atom d s) box_size st i j r0 k
  = bind (getitem r i) (fun ri =>
    bind (getitem r j) (fun rj =>
      let '(f_bond_vector, e) :=
        pair_force box_size (moved atom d s i ri) (moved atom d s j rj) r0 k in
      bind (update_row (fst st) i (fun f => vsub f f_bond_vector))
        (fun f_bonds =>
      bind (update_row f_bonds j (fun f => vadd f f_bond_vector))
        (fun f_bonds => OK (f_bonds, fadd (snd st) e))))).
Proof.
  unfold bond_step. destruct st as [f energy].
  rewrite !getitem_translate.
  destruct (getitem r i) as [ri | |]; cbn [bind fmap]; try reflexivity.
  destruct (getitem r j) as [rj | |]; cbn [bind fmap]; reflexivity.
Qed.


Lemma bond_step_no_tie (r : list (vec R)) (box_size : vec R)
    (atom : nat) (d : axis) (positive : bool)
    (st : list (vec float) * float) (i j : nat) (r0 k : R) :
  (forall ri rj, nth_error r i = Some ri -> nth_error r j = Some rj ->
     ~ is_tie ((component d rj - component d ri) / component d box_size)) ->
  bond_step (translate r atom d (box_length box_size d positive))
            box_size st i j r0 k
  = bond_step r box_size st i j r0 k.
Proof.
  intros Hno. rewrite bond_step_translate.
  unfold bond_step. destruct st as [f e]. cbn [fst snd].
  destruct (getitem r i) as [ri | x |] eqn:Ei; cbn [bind]; try reflexivity.
  destruct (getitem r j) as [rj | x |] eqn:Ej; cbn [bind]; try reflexivity.
  pose proof (proj2 (pair_force_moved atom i j d box_size positive ri rj r0 k))
    as Hp. cbn zeta in Hp.
  rewrite Hp; [reflexivity |].
  apply Hno; now apply getitem_nth_error.
Qed.

(** *** A pair half a box apart *)

Lemma around_0 (x : R) : x = 0 -> around x = 0%Z.
Proof. intros ->. apply around_near. lra. Qed.




Lemma near_positions_no_tie : no_tie near_positions cube AxisX one_bond.
Proof.
  intros i j r0 k ri rj [H | []] Hi Hj.
  injection H as <- <- <- <-.
  injection Hi as <-. injection Hj as <-.
  apply (near_not_tie _ 0). cbn [component cube vx]. lra.
Qed.

End BondForceFacts.

(* ================================================================== *)
(** ** The thermostat *)

Module ThermostatFacts.
Import Py Float Input Thermostat Terms Examples FloatFacts.
Local Open Scope string_scope.
Local Open Scope R_scope.

Lemma fold_Zadd_counts (world : list rank_arrays) (group : list string)
    (acc : Z) :
  fold_left Z.add
    (map (fun rk => Z.of_nat (length (selected group rk))) world) acc
  = (acc + Z.of_nat (total_count world group))%Z.
Proof.
  unfold total_count.
  revert acc. induction world as [| rk world IH]; intros acc; simpl.
  - lia.
  - rewrite IH. lia.
Qed.

Lemma group_n_particles_count (world : list rank_arrays) (group : list string) :
  group_n_particles world group = Z.of_nat (total_count world group).
Proof. unfold group_n_particles. now rewrite fold_Zadd_counts. Qed.









(** *** The scale factor and the thermostat work *)





(** *** The centre-of-mass velocity of a group *)

Lemma total_count_lists (world : list rank_arrays) (group : list string) :
  total_count world group = count (map (selected group) world).
Proof. reflexivity. Qed.

Lemma count_map_map {A B} (f : A -> B) (W : list (list A)) :
  count (map (map f) W) = count W.
Proof.
  induction W as [| l W IH]; simpl; [reflexivity |].
  now rewrite IH, length_map.
Qed.

Lemma total_rescaled (proj : vec R -> R) (a s : R) (W : list (list (vec R))) :
  Rsum (map (fun l => Rsum (map (fun v => a * (proj v - s) + s) l)) W)
  = a * total proj W + INR (count W) * (s - a * s).
Proof.
  assert (Hcons : forall (x : R) xs, Rsum (x :: xs) = x + Rsum xs)
    by reflexivity.
  unfold total.
  induction W as [| l W IH].
  - simpl. lra.
  - rewrite !map_cons, !Hcons, IH.
    change (count (l :: W)) with (length l + count W)%nat.
    rewrite <- (map_map proj (fun x => a * (x - s) + s)).
    rewrite Rsum_rescaled, length_map, plus_INR. lra.
Qed.

Lemma all_lifted {A B} (f : A -> B) (ys : list B) :
  (forall y, In y ys -> exists x, y = f x) -> exists xs, ys = map f xs.
Proof.
  induction ys as [| y ys IH]; intros H.
  - now exists [].
  - destruct (H y (or_introl eq_refl)) as [x ->].
    destruct IH as [xs ->]; [intros z Hz; apply H; now right |].
    now exists (x :: xs).
Qed.

Lemma map_finite_in {A} (f : A -> float) (xs : list A) (rs : list R) :
  map f xs = map Finite rs -> forall x, In x xs -> is_finite (f x).
Proof.
  revert rs. induction xs as [| y xs IH]; intros rs H x Hin; [contradiction |].
  destruct rs as [| r rs]; [discriminate H |].
  injection H as Hy Hrest.
  destruct Hin as [<- | Hin]; [now exists r | now apply (IH rs)].
Qed.

Lemma vsumsq_vsub_finite_inv (v shift : vec float) (t : R) :
  vsumsq (vsub v shift) = Finite t ->
  (exists v', v = vfinite v') /\ (exists s', shift = vfinite s').
Proof.
  destruct v as [x y z], shift as [sx sy sz].
  unfold vsumsq, vsub, vzip, fadd, fmul, fsub. cbn [vx vy vz].
  intros H.
  destruct (lift2_finite_inv _ _ _ _ H) as [p [q [Hp [Hq _]]]].
  destruct (lift2_finite_inv _ _ _ _ Hp) as [p1 [p2 [Hp1 [Hp2 _]]]].
  destruct (lift2_finite_inv _ _ _ _ Hq) as [q1 [_ [Hq1 _]]].
  destruct (lift2_finite_inv _ _ _ _ Hp1) as [a1 [_ [Ha1 _]]].
  destruct (lift2_finite_inv _ _ _ _ Hp2) as [a2 [_ [Ha2 _]]].
  destruct (lift2_finite_inv _ _ _ _ Ha1) as [x' [sx' [-> [-> _]]]].
  destruct (lift2_finite_inv _ _ _ _ Ha2) as [y' [sy' [-> [-> _]]]].
  destruct (lift2_finite_inv _ _ _ _ Hq1) as [z' [sz' [-> [-> _]]]].
  split; [now exists (V3 x' y' z') | now exists (V3 sx' sy' sz')].
Qed.

(** A finite kinetic energy: every selected velocity is finite. *)
Lemma kinetic_energy_finite_rows (m : R) (world : list rank_arrays)
    (group : list string) (k : R) :
  kinetic_energy m world group = Finite k ->
  exists W : list (list (vec R)),
    map (selected group) world = map (map vfinite) W.
Proof.
  unfold kinetic_energy. intros H.
  destruct (fsum_finite_inv _ _ H) as [ts Hts].
  apply (all_lifted (map vfinite)).
  intros sel Hsel. apply in_map_iff in Hsel as [rk [<- Hrk]].
  destruct (map_finite_in _ _ _ Hts rk Hrk) as [t Ht].
  destruct (lift2_finite_inv _ _ _ _ Ht) as [_ [u [_ [Hu _]]]].
  destruct (fsum_finite_inv _ _ Hu) as [us Hus].
  apply (all_lifted vfinite).
  intros v Hv.
  destruct (map_finite_in _ _ _ Hus v Hv) as [w Hw].
  exact (proj1 (vsumsq_vsub_finite_inv _ _ _ Hw)).
Qed.

Lemma fsum_map_finite {A} (f : A -> R) (xs : list A) :
  fsum (map (fun x => Finite (f x)) xs) = Finite (Rsum (map f xs)).
Proof. rewrite <- (map_map f Finite). apply fsum_finite. Qed.

Lemma vsum_finite_row (l : list (vec R)) :
  vsum (map vfinite l)
  = V3 (Finite (Rsum (map vx l))) (Finite (Rsum (map vy l)))
       (Finite (Rsum (map vz l))).
Proof.
  rewrite vsum_components, !map_map. cbn [vfinite vmap vx vy vz].
  now rewrite !fsum_map_finite.
Qed.

Lemma vsum_finite_rows (W : list (list (vec R))) :
  vsum (map vsum (map (map vfinite) W))
  = V3 (Finite (total vx W)) (Finite (total vy W)) (Finite (total vz W)).
Proof.
  rewrite map_map.
  rewrite (map_ext _ _ vsum_finite_row).
  rewrite vsum_components, !map_map. cbn [vx vy vz].
  unfold total.
  now rewrite !(fsum_map_finite (fun l : list (vec R) => Rsum (map _ l))).
Qed.

Lemma selected_rescaled (group : list string) (g : vec float -> vec float)
    (rk : rank_arrays) :
  selected group
    (map (fun p => if in_group group p then mkParticle (pname p) (g (pvel p))
                   else p) rk)
  = map g (selected group rk).
Proof.
  unfold selected.
  induction rk as [| p rk IH]; [reflexivity |].
  cbn [map filter]. destruct (in_group group p) eqn:E.
  - unfold in_group at 1. cbn [pname]. fold (in_group group p). rewrite E.
    cbn [map pvel]. now rewrite IH.
  - rewrite E. exact IH.
Qed.


Lemma alpha_finite_kinetic_finite (cfg : Config) (world : list rank_arrays)
    (group : list string) (c Rgauss SNf a : R) :
  fsqrt (group_alpha_squared cfg world group c Rgauss SNf) = Finite a ->
  exists k, kinetic_energy (mass cfg) world group = Finite k.
Proof.
  intros H.
  destruct (fsqrt_finite_inv _ _ H) as [x [Hx _]].
  unfold group_alpha_squared, alpha_squared in Hx.
  destruct (lift2_finite_inv _ _ _ _ Hx) as [p [_ [Hp _]]].
  destruct (lift2_finite_inv _ _ _ _ Hp) as [_ [q [_ [Hq _]]]].
  destruct (fdiv_finite_inv _ _ _ Hq) as [_ [y [_ [Hy _]]]].
  destruct (lift2_finite_inv _ _ _ _ Hy) as [_ [k [_ [Hk _]]]].
  now exists k.
Qed.


(** *** Concrete systems *)



Lemma sample_decay (groups : list (list string)) :
  coupling_decay (sample_config groups)
  = OK (exp (- (3 / 100 * 5) / (7 / 10))).
Proof.
  unfold coupling_decay. cbn [tau time_step respa_inner sample_config].
  destruct (Req_dec_T (7 / 10) 0) as [E | _]; [lra | reflexivity].
Qed.





(** A sufficient condition for a finite scale factor: a positive kinetic
    energy, a positive count, a decay factor in [0, 1], and non-negative
    target energy and chi-squared deviate. *)
Lemma alpha_finite_when_kinetic_positive
    (c Rgauss SNf K_target : R) (N_f : Z) (k : R) :
  0 <= c <= 1 -> 0 <= SNf -> 0 <= K_target -> (0 < N_f)%Z -> 0 < k ->
  exists a, fsqrt (alpha_squared c Rgauss SNf K_target N_f (Finite k))
            = Finite a.
Proof.
  intros [Hc0 Hc1] HS HK HN Hk.
  assert (HNf : 0 < IZR N_f) by now apply IZR_lt.
  assert (Hden : 0 < IZR N_f * k) by now apply Rmult_lt_0_compat.
  set (x := K_target / (IZR N_f * k)).
  assert (Hx : 0 <= x).
  { unfold x, Rdiv. apply Rmult_le_pos; [assumption |].
    left. now apply Rinv_0_lt_compat. }
  set (B := (1 - c) * x).
  assert (HB : 0 <= B) by (unfold B; apply Rmult_le_pos; lra).
  assert (Hrad : c * (1 - c) * K_target / (IZR N_f * k) = c * B).
  { unfold B, x. field. lra. }
  assert (Hterm : (1 - c) * (SNf + Rgauss * Rgauss) * K_target
                  / (IZR N_f * k)
                  = B * (SNf + Rgauss * Rgauss)).
  { unfold B, x. field. lra. }
  unfold alpha_squared, of_Z. cbn [fmul lift2].
  rewrite !fdiv_finite by lra.
  rewrite Hrad, Hterm.
  rewrite fsqrt_finite by (apply Rmult_le_pos; assumption).
  cbn [fmul fadd lift2].
  eexists. apply fsqrt_finite.
  rewrite sqrt_mult by assumption.
  pose proof (sqrt_sqrt c Hc0) as HsA.
  pose proof (sqrt_sqrt B HB) as HsB.
  set (sA := sqrt c) in *. set (sB := sqrt B) in *.
  replace (c + B * (SNf + Rgauss * Rgauss) + 2 * Rgauss * (sA * sB))
    with ((sA + Rgauss * sB) * (sA + Rgauss * sB) + B * SNf).
  - apply Rplus_le_le_0_compat.
    + apply Rle_0_sqr.
    + now apply Rmult_le_pos.
  - rewrite <- HsA, <- HsB. ring.
Qed.

Lemma two_ranks_shift :
  com_per_particle (ranks two_ranks) ["A"]
  = V3 (Finite 0) (Finite 0) (Finite 0).
Proof.
  unfold com_per_particle, com_velocity, vdiv, vmap, of_Z.
  cbn -[fdiv Rplus]. rewrite !fdiv_finite by lra.
  repeat f_equal; lra.
Qed.

Lemma two_ranks_kinetic_energy :
  kinetic_energy 72 (ranks two_ranks) ["A"] = Finite 72.
Proof.
  unfold kinetic_energy. rewrite two_ranks_shift.
  cbn -[Rplus Rmult Rminus Rdiv IZR]. f_equal. lra.
Qed.

Lemma sample_decay_range :
  0 <= exp (- (3 / 100 * 5) / (7 / 10)) <= 1.
Proof.
  split; [left; apply exp_pos |].
  pose proof (exp_increasing (- (3 / 100 * 5) / (7 / 10)) 0 ltac:(lra)) as H.
  rewrite exp_0 in H. lra.
Qed.

Lemma two_ranks_alpha_finite (Rgauss SNf : R) :
  0 <= SNf ->
  exists a,
    fsqrt (group_alpha_squared (config two_ranks) (ranks two_ranks) ["A"]
             (exp (- (3 / 100 * 5) / (7 / 10))) Rgauss SNf)
    = Finite a.
Proof.
  intros HS. unfold group_alpha_squared.
  change (mass (config two_ranks)) with 72.
  rewrite two_ranks_kinetic_energy.
  apply alpha_finite_when_kinetic_positive;
    [exact sample_decay_range | assumption | | reflexivity | lra].
  unfold target_kinetic_energy.
  change (group_n_particles (ranks two_ranks) ["A"]) with 2%Z.
  change (target_temperature (config two_ranks)) with 323. lra.
Qed.


End ThermostatFacts.

(* ================================================================== *)
(** ** Logger setup *)

Module LoggingFacts.
Import Py Logging Terms Examples.
Local Open Scope string_scope.

Lemma string_app_assoc (a b c : string) : (a ++ b) ++ c = a ++ (b ++ c).
Proof. induction a as [| x a IH]; simpl; [reflexivity | now rewrite IH]. Qed.

Lemma pad_zero (lj : bool) (s : string) : pad lj 0 s = s.
Proof.
  unfold pad; simpl. destruct lj; simpl; [| reflexivity].
  induction s as [| x s IH]; simpl; [reflexivity | now rewrite IH].
Qed.

(** The format string of [Logger.formatter], read as [%]-formatting reads
    it. *)
Lemma formatter_pieces :
  parse Text (fmt formatter)
  = OK [ Conv "asctime" false 0 "s"; Lit ","; Conv "msecs" false 0 "d";
         Conv "levelname" true 8 "s"; Lit " "; Lit "[";
         Conv "filename" false 0 "s"; Lit ":"; Conv "lineno" false 0 "d";
         Lit "]"; Lit " "; Lit "<"; Conv "funcName" false 0 "s"; Lit ">";
         Lit " "; Conv "message" false 0 "s" ].
Proof. reflexivity. Qed.

Lemma format_record_formatter (rec : LogRecord) :
  fmap (fun s => s ++ String "010" "") (format_record formatter rec)
  = OK (written_line rec).
Proof.
  unfold format_record, percent_format.
  rewrite formatter_pieces.
  cbn [bind fmap render attribute convert String.eqb Ascii.eqb Bool.eqb].
  rewrite !pad_zero.
  unfold written_line.
  f_equal.
  repeat (rewrite ?string_app_assoc; cbn [append]).
  reflexivity.
Qed.

(** C6 (counterexample).  After [setup] with the file [hymd.log], the file
    sink writes, for an INFO record of [run] at [main.py:10], a line in
    which the level follows the milliseconds at once:
    [...,123INFO     [main.py:10] <run> started].  It is not the claimed
    line, whichever way the function name is read. *)
Lemma file_sink_line_has_no_space_before_level :
  exists h,
    log_file_handler (setup INFO (Some "hymd.log") false initial) = Some h
    /\ emit h sample_record
       = OK ("2021-03-04 10:20:30,123,123INFO     [main.py:10] <run> started"
             ++ String "010" "")
    /\ emit h sample_record <> OK (claimed_line false sample_record)
    /\ emit h sample_record <> OK (claimed_line true sample_record).
Proof.
  eexists. split; [reflexivity |].
  split; [reflexivity |].
  split; intros H; vm_compute in H; discriminate H.
Qed.

(** C6 (amended).  When a non-empty log file path is given to [setup], the
    file sink attached to both channels writes, for every record, the
    timestamp, a comma, the millisecond field, then with no space between
    them the level padded on the right to 8 characters, a space,
    [[<source-file>:<line>]], a space, the function name in angle brackets,
    a space, the message and a newline; the console sink, when requested, is
    attached to both channels and writes the same line. *)
Theorem setup_sinks_write_formatter_line
    (default_level : Z) (path : string) (to_stdout : bool) (cls : Logger)
    (rec : LogRecord) :
  path <> "" ->
  let cls' := setup default_level (Some path) to_stdout cls in
  (exists h,
      log_file_handler cls' = Some h
      /\ h_stream h = File path
      /\ In h (ch_handlers (rank0 cls'))
      /\ In h (ch_handlers (all_ranks cls'))
      /\ emit h rec = OK (written_line rec))
  /\ (to_stdout = true ->
      exists h,
        stdout_handler cls' = Some h
        /\ h_stream h = Stdout
        /\ In h (ch_handlers (rank0 cls'))
        /\ In h (ch_handlers (all_ranks cls'))
        /\ emit h rec = OK (written_line rec)).
Proof.
  intros Hpath cls'. subst cls'. unfold setup.
  assert (Ht : truthy (Some path) = true).
  { simpl. destruct (String.eqb_spec path ""); [contradiction | reflexivity]. }
  rewrite Ht. cbn [negb andb].
  destruct to_stdout.
  - split.
    + eexists. cbn [log_file_handler]. split; [reflexivity |].
      split; [reflexivity |].
      cbn [rank0 all_ranks addHandler ch_handlers setLevel addFilter].
      repeat split; try (apply in_or_app; left; apply in_or_app; right;
                          left; reflexivity).
      apply format_record_formatter.
    + intros _. eexists. cbn [stdout_handler]. split; [reflexivity |].
      split; [reflexivity |].
      cbn [rank0 all_ranks addHandler ch_handlers setLevel addFilter].
      repeat split; try (apply in_or_app; right; left; reflexivity).
      apply format_record_formatter.
  - split; [| discriminate].
    eexists. cbn [log_file_handler]. split; [reflexivity |].
    split; [reflexivity |].
    cbn [rank0 all_ranks addHandler ch_handlers setLevel addFilter].
    repeat split; try (apply in_or_app; right; left; reflexivity).
    apply format_record_formatter.
Qed.

(** C6 at one input: [setup] with the file [hymd.log] and console
    streaming, on the channels as [getLogger] first gives them. *)
Lemma setup_sinks_write_formatter_line_witness :
  "hymd.log" <> ""
  /\ (exists h,
         log_file_handler (setup INFO (Some "hymd.log") true initial) = Some h
         /\ emit h sample_record = OK (written_line sample_record)).
Proof.
  split; [discriminate |].
  destruct (setup_sinks_write_formatter_line INFO "hymd.log" true initial
              sample_record ltac:(discriminate)) as [[h [H1 [_ [_ [_ H5]]]]] _].
  exists h. split; assumption.
Defined.

(** C9 (counterexample).  [setup] with no file and no console streaming on
    the channels as [getLogger] first gives them leaves the rank-0 channel
    with a filter it did not have: more than its threshold has changed. *)
Lemma setup_without_sinks_adds_filter :
  rank0 (setup INFO None false initial) <> setLevel (rank0 initial) INFO
  /\ ch_filters (rank0 (setup INFO None false initial)) = [MPIFilter]
  /\ ch_filters (rank0 initial) = [].
Proof.
  split; [| split; reflexivity].
  intros H. vm_compute in H. discriminate H.
Qed.

(** C9 (amended).  Calling [setup] with no file path (or an empty one) and
    console streaming disabled sets the severity threshold of the two
    channels and attaches the rank filter to the rank-0 channel; it
    attaches no sink, and changes nothing else of either channel.  The
    class records the level and the file argument, and its sink attributes
    stay as they were. *)
Theorem setup_without_sinks_effect
    (default_level : Z) (log_file_arg : option string) (cls : Logger) :
  truthy log_file_arg = false ->
  setup default_level log_file_arg false cls
  = mkLogger (Some default_level) log_file_arg
      (mkChannel (ch_name (rank0 cls)) default_level
                 (ch_filters (rank0 cls) ++ [MPIFilter])
                 (ch_handlers (rank0 cls)))
      (mkChannel (ch_name (all_ranks cls)) default_level
                 (ch_filters (all_ranks cls))
                 (ch_handlers (all_ranks cls)))
      (log_file_handler cls) (log_to_stdout cls) (stdout_handler cls).
Proof.
  intros Hfalse. unfold setup. rewrite Hfalse. reflexivity.
Qed.

(** C9 at one input: [setup] with the empty string for the file and no
    console streaming. *)
Lemma setup_without_sinks_effect_witness :
  truthy (Some "") = false
  /\ ch_handlers (rank0 (setup INFO (Some "") false initial)) = []
  /\ ch_handlers (all_ranks (setup INFO (Some "") false initial)) = [].
Proof.
  split; [reflexivity |].
  rewrite (setup_without_sinks_effect INFO (Some "") initial eq_refl).
  split; reflexivity.
Defined.

End LoggingFacts.

(* ================================================================== *)
(** ** Sums of rows under the updates of the force loops *)

Module SumFacts.
Import Py Float Input Force Terms Notions.
Import FloatFacts BondForceFacts.
Local Open Scope R_scope.

Lemma fadd_comm (a b : float) : fadd a b = fadd b a.
Proof. destruct a, b; simpl; try reflexivity. f_equal. lra. Qed.

Lemma fadd_assoc (a b c : float) : fadd (fadd a b) c = fadd a (fadd b c).
Proof. destruct a, b, c; simpl; try reflexivity. f_equal. lra. Qed.

Lemma vadd_comm (u v : vec float) : vadd u v = vadd v u.
Proof.
  destruct u, v. unfold vadd, vzip. cbn. f_equal; apply fadd_comm.
Qed.

Lemma vadd_assoc (u v w : vec float) : vadd (vadd u v) w = vadd u (vadd v w).
Proof.
  destruct u, v, w. unfold vadd, vzip. cbn. f_equal; apply fadd_assoc.
Qed.

Lemma vsub_vadd_vneg (u v : vec float) : vsub u v = vadd u (Angles.vneg v).
Proof.
  destruct u as [a b c], v as [x y z].
  unfold vsub, vadd, vzip, Angles.vneg, vmap. cbn.
  f_equal; match goal with |- fsub ?p ?q = _ => destruct p, q end;
    simpl; try reflexivity; f_equal; lra.
Qed.

Lemma fold_vadd_acc (vs : list (vec float)) (acc d : vec float) :
  fold_left vadd vs (vadd acc d) = vadd (fold_left vadd vs acc) d.
Proof.
  revert acc. induction vs as [| v vs IH]; intros acc; [reflexivity |].
  cbn [fold_left]. rewrite <- IH. f_equal.
  rewrite !vadd_assoc. f_equal. apply vadd_comm.
Qed.

(** Adding [d] to one row adds [d] to the sum of the rows. *)
Lemma vsum_update_row (rows rows' : list (vec float)) (i : nat)
    (d : vec float) :
  update_row rows i (fun f => vadd f d) = OK rows' ->
  vsum rows' = vadd (vsum rows) d.
Proof.
  unfold vsum. generalize vzero as acc.
  revert i rows'. induction rows as [| x rows IH]; intros i rows' acc H.
  - destruct i; discriminate H.
  - destruct i as [| i]; cbn [update_row] in H.
    + injection H as <-. cbn [fold_left].
      rewrite <- fold_vadd_acc. f_equal. symmetry. apply vadd_assoc.
    + destruct (update_row rows i _) as [rows1 | e |] eqn:E;
        cbn [fmap bind] in H; try discriminate H.
      injection H as <-. cbn [fold_left]. now apply (IH i).
Qed.

Lemma vsum_fill_zero (f : list (vec float)) : vsum (fill_zero f) = vzero.
Proof.
  unfold vsum, fill_zero.
  induction f as [| x f IH]; [reflexivity |].
  cbn [map fold_left].
  replace (vadd vzero vzero) with vzero; [exact IH |].
  unfold vadd, vzip, vzero. cbn. repeat f_equal; lra.
Qed.

Lemma balanced_vzero : balanced vzero.
Proof. intros [| |]; left; reflexivity. Qed.

(** What the two updates of one bond, and the three of one angle, add up
    to. *)
Lemma balanced_pair (s d : vec float) :
  balanced s -> balanced (vadd (vadd s (Angles.vneg d)) d).
Proof.
  intros Hs ax. specialize (Hs ax).
  destruct s as [a b c], d as [x y z].
  destruct ax; cbn in *;
    match goal with
    | |- fadd (fadd ?p (fopp ?q)) ?q = _ \/ _ =>
        destruct Hs as [-> | ->]; destruct q; simpl; auto; left; f_equal; lra
    end.
Qed.

Lemma balanced_triple (s a c : vec float) :
  balanced s ->
  balanced (vadd (vadd (vadd s a) c) (Angles.vneg (vadd a c))).
Proof.
  intros Hs ax. specialize (Hs ax).
  destruct s as [s1 s2 s3], a as [a1 a2 a3], c as [c1 c2 c3].
  destruct ax; cbn in *;
    match goal with
    | |- fadd (fadd (fadd ?p ?q) ?r) _ = _ \/ _ =>
        destruct Hs as [-> | ->]; destruct q, r; simpl; auto;
        left; f_equal; lra
    end.
Qed.

Lemma update_row_length {A} (rows rows' : list A) (i : nat) (g : A -> A) :
  update_row rows i g = OK rows' -> length rows' = length rows.
Proof.
  intros H. destruct (update_row_cases rows i g) as [[_ [r1 [E Hl]]] | [_ E]];
    rewrite E in H; [now injection H as <- | discriminate H].
Qed.

Lemma update_row_in_range {A} (rows rows' : list A) (i : nat) (g : A -> A) :
  update_row rows i g = OK rows' -> (i < length rows)%nat.
Proof.
  intros H. destruct (update_row_cases rows i g) as [[Hlt _] | [_ E]];
    [exact Hlt | rewrite E in H; discriminate H].
Qed.

Lemma update_row_ok {A} (rows : list A) (i : nat) (g : A -> A) :
  (i < length rows)%nat ->
  exists rows', update_row rows i g = OK rows' /\ length rows' = length rows.
Proof.
  intros H. destruct (update_row_cases rows i g) as [[_ Hex] | [Hge _]];
    [exact Hex | lia].
Qed.

Lemma update_row_raises {A} (rows : list A) (i : nat) (g : A -> A) :
  ~ (i < length rows)%nat -> update_row rows i g = Raise IndexError.
Proof.
  intros H. destruct (update_row_cases rows i g) as [[Hlt _] | [_ E]];
    [contradiction | exact E].
Qed.

Lemma getitem_ok {A} (xs : list A) (i : nat) :
  (i < length xs)%nat -> exists x, getitem xs i = OK x.
Proof.
  intros H. unfold getitem. destruct (nth_error xs i) as [x |] eqn:E.
  - now exists x.
  - apply nth_error_None in E. lia.
Qed.

Lemma getitem_raises {A} (xs : list A) (i : nat) :
  ~ (i < length xs)%nat -> getitem xs i = Raise IndexError.
Proof.
  intros H. unfold getitem. destruct (nth_error xs i) as [x |] eqn:E.
  - assert (nth_error xs i <> None) as Hn by congruence.
    apply nth_error_Some in Hn. contradiction.
  - reflexivity.
Qed.

Lemma length_fill_zero (f : list (vec float)) :
  length (fill_zero f) = length f.
Proof. unfold fill_zero. apply length_map. Qed.

(** A loop whose body raises nothing but [IndexError], and succeeds exactly
    on the items that satisfy [good], given an invariant [inv] of the
    state. *)
Lemma for_each_index_errors {A S} (inv : S -> Prop) (good : A -> Prop)
    (body : S -> A -> result S) (xs : list A) :
  (forall s x, inv s ->
     match body s x with
     | OK s' => inv s' /\ good x
     | Raise e => e = IndexError /\ ~ good x
     | Unfinished => False
     end) ->
  forall s, inv s ->
    match for_each body xs s with
    | OK s' => inv s' /\ Forall good xs
    | Raise e => e = IndexError /\ ~ Forall good xs
    | Unfinished => False
    end.
Proof.
  intros Hbody. induction xs as [| x xs IH]; intros s Hs.
  - cbn. split; [exact Hs | constructor].
  - cbn [for_each]. specialize (Hbody s x Hs).
    destruct (body s x) as [s1 | e |]; cbn [bind].
    + destruct Hbody as [H1 Hx]. specialize (IH s1 H1).
      destruct (for_each body xs s1) as [s2 | e |].
      * destruct IH as [H2 Hall]. split; [exact H2 | now constructor].
      * destruct IH as [-> Hn]. split; [reflexivity |].
        intros Hall. apply Hn. now inversion Hall.
      * exact IH.
    + destruct Hbody as [-> Hn]. split; [reflexivity |].
      intros Hall. apply Hn. now inversion Hall.
    + exact Hbody.
Qed.

End SumFacts.

(* ================================================================== *)
(** ** The two-body force loop as a whole *)

Module BondLoopFacts.
Import Py Float Input Force Terms Notions Examples.
Import NxFacts FloatFacts BondForceFacts SumFacts.
Local Open Scope R_scope.

Lemma bond_step_index_errors (r : list (vec R)) (box_size : vec R)
    (n : nat) (st : list (vec float) * float) (i j : nat) (r0 k : R) :
  length (fst st) = n ->
  match bond_step r box_size st i j r0 k with
  | OK st' => length (fst st') = n
              /\ rows_exist_2 (length r) n (i, j, r0, k)
  | Raise e => e = IndexError /\ ~ rows_exist_2 (length r) n (i, j, r0, k)
  | Unfinished => False
  end.
Proof.
  destruct st as [f e]. cbn [fst]. intros Hn. unfold bond_step, rows_exist_2.
  destruct (lt_dec i (length r)) as [Hi | Hi];
    [| rewrite (getitem_raises r i Hi); cbn [bind]; split;
       [reflexivity | tauto]].
  destruct (getitem_ok r i Hi) as [ri ->]. cbn [bind].
  destruct (lt_dec j (length r)) as [Hj | Hj];
    [| rewrite (getitem_raises r j Hj); cbn [bind]; split;
       [reflexivity | tauto]].
  destruct (getitem_ok r j Hj) as [rj ->]. cbn [bind].
  destruct (pair_force box_size ri rj r0 k) as [fv en].
  destruct (lt_dec i (length f)) as [Hfi | Hfi];
    [| rewrite (update_row_raises f i _ Hfi); cbn [bind];
       split; [reflexivity | rewrite <- Hn; tauto]].
  destruct (update_row_ok f i (fun f0 => vsub f0 fv) Hfi) as [f1 [-> Hl1]].
  cbn [bind].
  destruct (lt_dec j (length f1)) as [Hfj | Hfj];
    [| rewrite (update_row_raises f1 j _ Hfj); cbn [bind];
       split; [reflexivity | rewrite <- Hn, <- Hl1; tauto]].
  destruct (update_row_ok f1 j (fun f0 => vadd f0 fv) Hfj) as [f2 [-> Hl2]].
  cbn [bind fst]. split; [congruence |].
  rewrite <- Hn. rewrite Hl1 in Hfj. tauto.
Qed.

(** The loop from any state of the force array. *)
Lemma bond_loop_outcome (r : list (vec R)) (box_size : vec R)
    (bonds_2 : list entry2) (st : list (vec float) * float) (n : nat) :
  length (fst st) = n ->
  match for_each
          (fun st '(i, j, r0, k) => bond_step r box_size st i j r0 k)
          bonds_2 st with
  | OK st' =>
      length (fst st') = n /\ Forall (rows_exist_2 (length r) n) bonds_2
  | Raise e => e = IndexError /\ ~ Forall (rows_exist_2 (length r) n) bonds_2
  | Unfinished => False
  end.
Proof.
  intros Hn.
  apply (@for_each_index_errors (nat * nat * R * R)%type _
           (fun st : list (vec float) * float => length (fst st) = n)
           (rows_exist_2 (length r) n)); [| exact Hn].
  intros s [[[i j] r0] k] Hs.
  exact (bond_step_index_errors r box_size n s i j r0 k Hs).
Qed.

(** X3. [compute_bond_forces__plain] returns exactly when every entry names
    rows that exist in the position array and in the force array, and the
    force array keeps its length; otherwise it raises [IndexError], and
    nothing else. *)
Theorem bond_forces_raise_only_index_errors (f_bonds : list (vec float))
    (r : list (vec R)) (bonds_2 : list entry2) (box_size : vec R) :
  match compute_bond_forces__plain f_bonds r bonds_2 box_size with
  | OK (f, _) =>
      length f = length f_bonds
      /\ Forall (rows_exist_2 (length r) (length f_bonds)) bonds_2
  | Raise e =>
      e = IndexError
      /\ ~ Forall (rows_exist_2 (length r) (length f_bonds)) bonds_2
  | Unfinished => False
  end.
Proof.
  pose proof (bond_loop_outcome r box_size bonds_2 (fill_zero f_bonds, Finite 0)
                (length f_bonds) (length_fill_zero f_bonds)) as H.
  change (for_each _ bonds_2 _)
    with (compute_bond_forces__plain f_bonds r bonds_2 box_size) in H.
  destruct (compute_bond_forces__plain f_bonds r bonds_2 box_size)
    as [[f e] | e |]; exact H.
Qed.

Lemma bond_step_balanced (r : list (vec R)) (box_size : vec R)
    (st st' : list (vec float) * float) (i j : nat) (r0 k : R) :
  balanced (vsum (fst st)) ->
  bond_step r box_size st i j r0 k = OK st' ->
  balanced (vsum (fst st')).
Proof.
  destruct st as [f e]. cbn [fst]. intros Hb H. unfold bond_step in H.
  destruct (getitem r i) as [ri | |]; cbn [bind] in H; try discriminate H.
  destruct (getitem r j) as [rj | |]; cbn [bind] in H; try discriminate H.
  destruct (pair_force box_size ri rj r0 k) as [fv en].
  destruct (update_row f i _) as [f1 | |] eqn:E1; cbn [bind] in H;
    try discriminate H.
  destruct (update_row f1 j _) as [f2 | |] eqn:E2; cbn [bind] in H;
    try discriminate H.
  injection H as <-. cbn [fst].
  rewrite (vsum_update_row _ _ _ _ E2).
  assert (update_row f i (fun f0 => vadd f0 (Angles.vneg fv)) = OK f1) as E1'.
  { rewrite <- E1. clear. revert i.
    induction f as [| x f IH]; intros i; [reflexivity |].
    destruct i as [| i]; cbn [update_row].
    - now rewrite vsub_vadd_vneg.
    - now rewrite IH. }
  rewrite (vsum_update_row _ _ _ _ E1').
  now apply balanced_pair.
Qed.

(** X4. The forces [compute_bond_forces__plain] leaves in the array add up
    to nothing: along each axis the sum over all rows is exactly zero,
    unless a value that is not finite has entered it. *)
Theorem bond_forces_sum_to_zero (f_bonds : list (vec float))
    (r : list (vec R)) (bonds_2 : list entry2) (box_size : vec R) :
  match compute_bond_forces__plain f_bonds r bonds_2 box_size with
  | OK (f, _) => balanced (vsum f)
  | _ => True
  end.
Proof.
  unfold compute_bond_forces__plain.
  match goal with
  | |- context [for_each ?body bonds_2 ?s] =>
      destruct (for_each body bonds_2 s) as [[f e] | |] eqn:E;
      [| exact I | exact I];
      change f with (fst (f, e));
      refine (@for_each_invariant (nat * nat * R * R)%type _
                (fun st => balanced (vsum (fst st))) body bonds_2 _ s _ _ E)
  end.
  - intros st [[[i j] r0] k] st' Hst Hstep.
    exact (bond_step_balanced r box_size st st' i j r0 k Hst Hstep).
  - cbn [fst]. rewrite vsum_fill_zero. exact balanced_vzero.
Qed.

Lemma pair_energy_nonnegative (box_size ri rj : vec R) (r0 k x : R) :
  0 <= k -> snd (pair_force box_size ri rj r0 k) = Finite x -> 0 <= x.
Proof.
  intros Hk. unfold pair_force. cbn [snd].
  generalize (fsub (vnorm (vzip wrap (vsub (vfinite rj) (vfinite ri)) box_size))
                   (Finite r0)) as t.
  intros [t |]; simpl; intros H; [| discriminate H].
  injection H as <-. nra.
Qed.

(** X5. With no negative strength among the entries, the energy
    [compute_bond_forces__plain] returns is never a negative number. *)
Theorem bond_energy_nonnegative (f_bonds : list (vec float))
    (r : list (vec R)) (bonds_2 : list entry2) (box_size : vec R) :
  Forall (fun b => 0 <= strength_2 b) bonds_2 ->
  match compute_bond_forces__plain f_bonds r bonds_2 box_size with
  | OK (_, Finite x) => 0 <= x
  | _ => True
  end.
Proof.
  intros Hk. unfold compute_bond_forces__plain.
  assert (forall st : list (vec float) * float,
             (forall x, snd st = Finite x -> 0 <= x) ->
             match for_each
                     (fun st '(i, j, r0, k) => bond_step r box_size st i j r0 k)
                     bonds_2 st with
             | OK (_, Finite x) => 0 <= x
             | _ => True
             end) as H.
  { induction Hk as [| b bs Hb _ IH]; intros [f e] He.
    - cbn. destruct e as [x |]; [now apply He | exact I].
    - cbn [for_each]. destruct b as [[[i j] r0] k]. cbn in Hb.
      unfold bond_step at 1.
      destruct (getitem r i) as [ri | |]; cbn [bind]; try exact I.
      destruct (getitem r j) as [rj | |]; cbn [bind]; try exact I.
      pose proof (pair_energy_nonnegative box_size ri rj r0 k) as Hp.
      destruct (pair_force box_size ri rj r0 k) as [fv en]. cbn [snd] in Hp.
      destruct (update_row f i _) as [f1 | |]; cbn [bind]; try exact I.
      destruct (update_row f1 j _) as [f2 | |]; cbn [bind]; try exact I.
      apply IH. cbn [snd]. intros x Hx.
      destruct e as [a |], en as [b |]; try discriminate Hx.
      injection Hx as <-. cbn [snd] in He.
      pose proof (He a eq_refl). pose proof (Hp b Hb eq_refl). lra. }
  apply H. cbn [snd]. intros x [= <-]. lra.
Qed.

(** X5 at one input: the pair one unit apart in the box of side 10, with
    strength 1. *)
Lemma bond_energy_nonnegative_witness :
  Forall (fun b => 0 <= strength_2 b) one_bond
  /\ match compute_bond_forces__plain two_rows near_positions one_bond cube
     with
     | OK (_, Finite x) => 0 <= x
     | _ => True
     end.
Proof.
  assert (Forall (fun b => 0 <= strength_2 b) one_bond) as H.
  { repeat constructor. simpl. lra. }
  split; [exact H |].
  exact (bond_energy_nonnegative two_rows near_positions one_bond cube H).
Defined.

Lemma getitem_shifted (t : vec R) (r : list (vec R)) (i : nat) :
  getitem (shifted t r) i
  = fmap (fun v => V3 (vx v + vx t) (vy v + vy t) (vz v + vz t)) (getitem r i).
Proof.
  unfold getitem, shifted. rewrite nth_error_map.
  now destruct (nth_error r i).
Qed.

Lemma displacement_shifted (t u v : vec R) :
  vsub (vfinite (V3 (vx v + vx t) (vy v + vy t) (vz v + vz t)))
       (vfinite (V3 (vx u + vx t) (vy u + vy t) (vz u + vz t)))
  = vsub (vfinite v) (vfinite u).
Proof.
  unfold vsub, vzip, vfinite, vmap. cbn. f_equal; f_equal; lra.
Qed.

(** X6. Moving every atom by the same vector changes neither the forces nor
    the energy of [compute_bond_forces__plain]. *)
Theorem bond_forces_unchanged_by_common_shift (f_bonds : list (vec float))
    (r : list (vec R)) (bonds_2 : list entry2) (box_size t : vec R) :
  compute_bond_forces__plain f_bonds (shifted t r) bonds_2 box_size
  = compute_bond_forces__plain f_bonds r bonds_2 box_size.
Proof.
  unfold compute_bond_forces__plain. apply for_each_ext_in.
  intros [f e] [[[i j] r0] k] _. unfold bond_step.
  rewrite !getitem_shifted.
  destruct (getitem r i) as [ri | |]; cbn [fmap bind]; try reflexivity.
  destruct (getitem r j) as [rj | |]; cbn [fmap bind]; try reflexivity.
  unfold pair_force. rewrite displacement_shifted. reflexivity.
Qed.

Lemma wrap_of_zero (x L : R) :
  x = 0 -> wrap (Finite x) L = Finite 0 \/ wrap (Finite x) L = NonFinite.
Proof.
  intros ->. destruct (Req_dec_T L 0) as [-> | HL].
  - right. apply RoundFacts.wrap_zero_box.
  - left. rewrite RoundFacts.wrap_finite by exact HL.
    rewrite around_0 by (unfold Rdiv; lra). f_equal. simpl. lra.
Qed.

Lemma vnorm_of_zero (w : vec float) :
  (vx w = Finite 0 \/ vx w = NonFinite) ->
  (vy w = Finite 0 \/ vy w = NonFinite) ->
  (vz w = Finite 0 \/ vz w = NonFinite) ->
  vnorm w = Finite 0 \/ vnorm w = NonFinite.
Proof.
  destruct w as [a b c]. cbn [vx vy vz]. unfold vnorm, vsumsq. cbn [vx vy vz].
  intros [-> | ->] [-> | ->] [-> | ->]; cbn [fmul fadd lift2 fsqrt]; auto.
  left. destruct (Rlt_dec (0 * 0 + 0 * 0 + 0 * 0) 0) as [H | _]; [lra |].
  f_equal. replace (0 * 0 + 0 * 0 + 0 * 0) with 0 by lra. apply sqrt_0.
Qed.

Lemma fdiv_zero_or_nonfinite (a b : float) :
  b = Finite 0 \/ b = NonFinite -> fdiv a b = NonFinite.
Proof.
  intros [-> | ->]; [apply fdiv_by_zero | now destruct a].
Qed.

Lemma pair_force_coincident (box_size p : vec R) (r0 k : R) :
  fst (pair_force box_size p p r0 k) = vnonfinite.
Proof.
  unfold pair_force. cbn [fst].
  set (w := vzip wrap (vsub (vfinite p) (vfinite p)) box_size).
  assert (vnorm w = Finite 0 \/ vnorm w = NonFinite) as Hn.
  { destruct p as [x y z], box_size as [Lx Ly Lz].
    apply vnorm_of_zero; subst w; cbn; apply wrap_of_zero; lra. }
  unfold vdiv, vmap, vnonfinite.
  now rewrite !(fdiv_zero_or_nonfinite _ _ Hn).
Qed.

Lemma nth_error_update_row {A} (rows rows' : list A) (a i : nat)
    (g : A -> A) :
  update_row rows a g = OK rows' ->
  nth_error rows' i
  = if Nat.eqb i a then option_map g (nth_error rows i)
    else nth_error rows i.
Proof.
  revert a i rows'. induction rows as [| x rows IH]; intros a i rows' H.
  - destruct a; discriminate H.
  - destruct a as [| a]; cbn [update_row] in H.
    + injection H as <-. destruct i; reflexivity.
    + destruct (update_row rows a g) as [rows1 | |] eqn:E;
        cbn [fmap bind] in H; try discriminate H.
      injection H as <-. destruct i as [| i]; [reflexivity |].
      cbn [nth_error Nat.eqb]. now apply IH.
Qed.

Lemma vadd_vnonfinite (d : vec float) : vadd vnonfinite d = vnonfinite.
Proof. reflexivity. Qed.

Lemma vsub_vnonfinite (d : vec float) : vsub vnonfinite d = vnonfinite.
Proof. reflexivity. Qed.

Lemma vadd_vnonfinite_r (u : vec float) : vadd u vnonfinite = vnonfinite.
Proof. destruct u as [[|] [|] [|]]; reflexivity. Qed.

Lemma vsub_vnonfinite_r (u : vec float) : vsub u vnonfinite = vnonfinite.
Proof. destruct u as [[|] [|] [|]]; reflexivity. Qed.

(** A row that is not finite stays so under the updates of the loops. *)
Lemma update_row_keeps_nonfinite (rows rows' : list (vec float)) (a i : nat)
    (g : vec float -> vec float) :
  g vnonfinite = vnonfinite ->
  nth_error rows i = Some vnonfinite ->
  update_row rows a g = OK rows' ->
  nth_error rows' i = Some vnonfinite.
Proof.
  intros Hg Hi H. rewrite (nth_error_update_row _ _ _ i _ H), Hi.
  destruct (Nat.eqb i a); cbn [option_map]; now rewrite ?Hg.
Qed.

Lemma bond_step_keeps_nonfinite (r : list (vec R)) (box_size : vec R)
    (st st' : list (vec float) * float) (i j : nat) (r0 k : R) (a : nat) :
  nth_error (fst st) a = Some vnonfinite ->
  bond_step r box_size st i j r0 k = OK st' ->
  nth_error (fst st') a = Some vnonfinite.
Proof.
  destruct st as [f e]. cbn [fst]. intros Ha H. unfold bond_step in H.
  destruct (getitem r i) as [ri | |]; cbn [bind] in H; try discriminate H.
  destruct (getitem r j) as [rj | |]; cbn [bind] in H; try discriminate H.
  destruct (pair_force box_size ri rj r0 k) as [fv en].
  destruct (update_row f i _) as [f1 | |] eqn:E1; cbn [bind] in H;
    try discriminate H.
  destruct (update_row f1 j _) as [f2 | |] eqn:E2; cbn [bind] in H;
    try discriminate H.
  injection H as <-. cbn [fst].
  apply (update_row_keeps_nonfinite _ _ _ _ _ (vadd_vnonfinite fv)
           (update_row_keeps_nonfinite _ _ _ _ _ (vsub_vnonfinite fv) Ha E1)
           E2).
Qed.

Lemma bond_step_coincident (r : list (vec R)) (box_size : vec R)
    (st st' : list (vec float) * float) (i j : nat) (r0 k : R) (p : vec R) :
  nth_error r i = Some p -> nth_error r j = Some p ->
  bond_step r box_size st i j r0 k = OK st' ->
  nth_error (fst st') i = Some vnonfinite
  /\ nth_error (fst st') j = Some vnonfinite.
Proof.
  destruct st as [f e]. intros Hi Hj H. unfold bond_step, getitem in H.
  rewrite Hi, Hj in H. cbn [bind] in H.
  pose proof (pair_force_coincident box_size p r0 k) as Hp.
  destruct (pair_force box_size p p r0 k) as [fv en]. cbn [fst] in Hp.
  subst fv.
  destruct (update_row f i _) as [f1 | |] eqn:E1; cbn [bind] in H;
    try discriminate H.
  destruct (update_row f1 j _) as [f2 | |] eqn:E2; cbn [bind] in H;
    try discriminate H.
  injection H as <-. cbn [fst].
  pose proof (update_row_in_range _ _ _ _ E1) as Hri.
  pose proof (update_row_in_range _ _ _ _ E2) as Hrj.
  assert (nth_error f1 i = Some vnonfinite) as H1.
  { rewrite (nth_error_update_row _ _ _ i _ E1), Nat.eqb_refl.
    destruct (nth_error f i) as [x |] eqn:Ex.
    - cbn [option_map]. now rewrite vsub_vnonfinite_r.
    - apply nth_error_None in Ex. lia. }
  split.
  - exact (update_row_keeps_nonfinite f1 f2 j i
             (fun f0 => vadd f0 vnonfinite) eq_refl H1 E2).
  - rewrite (nth_error_update_row _ _ _ j _ E2), Nat.eqb_refl.
    destruct (nth_error f1 j) as [x |] eqn:Ex.
    + cbn [option_map]. now rewrite vadd_vnonfinite_r.
    + apply nth_error_None in Ex. lia.
Qed.

(** X7. Two bonded atoms at the same position raise nothing: the forces
    [compute_bond_forces__plain] leaves on both are not finite numbers in
    any component, whatever the other entries are. *)
Theorem bonded_atoms_at_one_point (f_bonds : list (vec float))
    (r : list (vec R)) (bonds_2 : list entry2) (box_size : vec R)
    (i j : nat) (r0 k : R) (p : vec R) :
  In (i, j, r0, k) bonds_2 ->
  nth_error r i = Some p -> nth_error r j = Some p ->
  match compute_bond_forces__plain f_bonds r bonds_2 box_size with
  | OK (f, _) =>
      nth_error f i = Some vnonfinite /\ nth_error f j = Some vnonfinite
  | _ => True
  end.
Proof.
  intros Hin Hi Hj. unfold compute_bond_forces__plain.
  generalize (fill_zero f_bonds, Finite 0) as st.
  induction bonds_2 as [| b bs IH]; intros st; [contradiction |].
  cbn [for_each].
  destruct Hin as [-> | Hin].
  - destruct (bond_step r box_size st i j r0 k) as [st1 | |] eqn:E1;
      cbn [bind]; try exact I.
    destruct (bond_step_coincident _ _ _ _ _ _ _ _ _ Hi Hj E1) as [H1 H2].
    match goal with
    | |- context [for_each ?body bs st1] =>
        destruct (for_each body bs st1) as [[f e] | |] eqn:E; try exact I;
        change f with (fst (f, e)); split;
        [ refine (@for_each_invariant (nat * nat * R * R)%type _
                    (fun s => nth_error (fst s) i = Some vnonfinite)
                    body bs _ st1 _ H1 E)
        | refine (@for_each_invariant (nat * nat * R * R)%type _
                    (fun s => nth_error (fst s) j = Some vnonfinite)
                    body bs _ st1 _ H2 E) ];
        intros s [[[a b] q0] q] s' Hs Hstep;
        exact (bond_step_keeps_nonfinite r box_size s s' a b q0 q _ Hs Hstep)
    end.
  - destruct b as [[[a b] q0] q].
    destruct (bond_step r box_size st a b q0 q) as [st1 | |]; cbn [bind];
      try exact I.
    now apply IH.
Qed.

(** X7 at one input: two bonded atoms at the origin. *)
Lemma bonded_atoms_at_one_point_witness :
  match compute_bond_forces__plain two_rows coincident_positions one_bond
          cube with
  | OK (f, _) =>
      nth_error f 0 = Some vnonfinite /\ nth_error f 1 = Some vnonfinite
  | _ => True
  end.
Proof.
  exact (bonded_atoms_at_one_point two_rows coincident_positions one_bond
           cube 0 1 1 1 (V3 0 0 0) (or_introl eq_refl) eq_refl eq_refl).
Defined.

End BondLoopFacts.

(* ================================================================== *)
(** ** The three-body force loop *)

Module AngleFacts.
Import Py Float Input Force Angles Terms Notions Examples.
Import NxFacts FloatFacts BondForceFacts SumFacts BondLoopFacts.
Local Open Scope R_scope.

Lemma angle_step_index_errors (r : list (vec R)) (box_size : vec R)
    (n : nat) (st : list (vec float) * float) (a b c : nat) (theta0 k : R) :
  length (fst st) = n ->
  match angle_step r box_size st a b c theta0 k with
  | OK st' => length (fst st') = n
              /\ rows_exist_3 (length r) n (a, b, c, theta0, k)
  | Raise e => e = IndexError
               /\ ~ rows_exist_3 (length r) n (a, b, c, theta0, k)
  | Unfinished => False
  end.
Proof.
  destruct st as [f e]. cbn [fst]. intros Hn. unfold angle_step, rows_exist_3.
  destruct (lt_dec a (length r)) as [Ha | Ha];
    [| rewrite (getitem_raises r a Ha); cbn [bind]; split;
       [reflexivity | tauto]].
  destruct (getitem_ok r a Ha) as [pa ->]. cbn [bind].
  destruct (lt_dec b (length r)) as [Hb | Hb];
    [| rewrite (getitem_raises r b Hb); cbn [bind]; split;
       [reflexivity | tauto]].
  destruct (getitem_ok r b Hb) as [pb ->]. cbn [bind].
  destruct (lt_dec c (length r)) as [Hc | Hc];
    [| rewrite (getitem_raises r c Hc); cbn [bind]; split;
       [reflexivity | tauto]].
  destruct (getitem_ok r c Hc) as [pc ->]. cbn [bind].
  destruct (angle_force box_size pa pb pc theta0 k) as [[fa fc] en].
  destruct (lt_dec a (length f)) as [Hfa | Hfa];
    [| rewrite (update_row_raises f a _ Hfa); cbn [bind];
       split; [reflexivity | rewrite <- Hn; tauto]].
  destruct (update_row_ok f a (fun f0 => vadd f0 fa) Hfa) as [f1 [-> Hl1]].
  cbn [bind].
  destruct (lt_dec c (length f1)) as [Hfc | Hfc];
    [| rewrite (update_row_raises f1 c _ Hfc); cbn [bind];
       split; [reflexivity | rewrite <- Hn, <- Hl1; tauto]].
  destruct (update_row_ok f1 c (fun f0 => vadd f0 fc) Hfc) as [f2 [-> Hl2]].
  cbn [bind].
  destruct (lt_dec b (length f2)) as [Hfb | Hfb];
    [| rewrite (update_row_raises f2 b _ Hfb); cbn [bind];
       split; [reflexivity | rewrite <- Hn, <- Hl1, <- Hl2; tauto]].
  destruct (update_row_ok f2 b (fun f0 => vadd f0 (vneg (vadd fa fc))) Hfb)
    as [f3 [-> Hl3]].
  cbn [bind fst]. split; [congruence |].
  rewrite <- Hn. rewrite Hl1 in Hfc. rewrite Hl2, Hl1 in Hfb. tauto.
Qed.

(** The loop from any state of the force array. *)
Lemma angle_loop_outcome (r : list (vec R)) (box_size : vec R)
    (bonds_3 : list entry3) (st : list (vec float) * float) (n : nat) :
  length (fst st) = n ->
  match for_each
          (fun st '(a, b, c, theta0, k) =>
             angle_step r box_size st a b c theta0 k)
          bonds_3 st with
  | OK st' =>
      length (fst st') = n /\ Forall (rows_exist_3 (length r) n) bonds_3
  | Raise e => e = IndexError /\ ~ Forall (rows_exist_3 (length r) n) bonds_3
  | Unfinished => False
  end.
Proof.
  intros Hn.
  apply (@for_each_index_errors (nat * nat * nat * R * R)%type _
           (fun st : list (vec float) * float => length (fst st) = n)
           (rows_exist_3 (length r) n)); [| exact Hn].
  intros s [[[[a b] c] theta0] k] Hs.
  exact (angle_step_index_errors r box_size n s a b c theta0 k Hs).
Qed.

(** X8. [compute_angle_forces__plain] returns exactly when the three atoms
    of every entry are rows of the position array and of the force array,
    and the force array keeps its length; otherwise it raises [IndexError],
    and nothing else: a zero distance or a straight angle raises nothing. *)
Theorem angle_forces_raise_only_index_errors (f_angles : list (vec float))
    (r : list (vec R)) (bonds_3 : list entry3) (box_size : vec R) :
  match compute_angle_forces__plain f_angles r bonds_3 box_size with
  | OK (f, _) =>
      length f = length f_angles
      /\ Forall (rows_exist_3 (length r) (length f_angles)) bonds_3
  | Raise e =>
      e = IndexError
      /\ ~ Forall (rows_exist_3 (length r) (length f_angles)) bonds_3
  | Unfinished => False
  end.
Proof.
  pose proof (angle_loop_outcome r box_size bonds_3
                (fill_zero f_angles, Finite 0)
                (length f_angles) (length_fill_zero f_angles)) as H.
  change (for_each _ bonds_3 _)
    with (compute_angle_forces__plain f_angles r bonds_3 box_size) in H.
  destruct (compute_angle_forces__plain f_angles r bonds_3 box_size)
    as [[f e] | e |]; exact H.
Qed.

Lemma angle_step_balanced (r : list (vec R)) (box_size : vec R)
    (st st' : list (vec float) * float) (a b c : nat) (theta0 k : R) :
  balanced (vsum (fst st)) ->
  angle_step r box_size st a b c theta0 k = OK st' ->
  balanced (vsum (fst st')).
Proof.
  destruct st as [f e]. cbn [fst]. intros Hb H. unfold angle_step in H.
  destruct (getitem r a) as [pa | |]; cbn [bind] in H; try discriminate H.
  destruct (getitem r b) as [pb | |]; cbn [bind] in H; try discriminate H.
  destruct (getitem r c) as [pc | |]; cbn [bind] in H; try discriminate H.
  destruct (angle_force box_size pa pb pc theta0 k) as [[fa fc] en].
  destruct (update_row f a _) as [f1 | |] eqn:E1; cbn [bind] in H;
    try discriminate H.
  destruct (update_row f1 c _) as [f2 | |] eqn:E2; cbn [bind] in H;
    try discriminate H.
  destruct (update_row f2 b _) as [f3 | |] eqn:E3; cbn [bind] in H;
    try discriminate H.
  injection H as <-. cbn [fst].
  rewrite (vsum_update_row _ _ _ _ E3), (vsum_update_row _ _ _ _ E2),
    (vsum_update_row _ _ _ _ E1).
  now apply balanced_triple.
Qed.

(** X9. The forces [compute_angle_forces__plain] leaves in the array add up
    to nothing: along each axis the sum over all rows is exactly zero,
    unless a value that is not finite has entered it. *)
Theorem angle_forces_sum_to_zero (f_angles : list (vec float))
    (r : list (vec R)) (bonds_3 : list entry3) (box_size : vec R) :
  match compute_angle_forces__plain f_angles r bonds_3 box_size with
  | OK (f, _) => balanced (vsum f)
  | _ => True
  end.
Proof.
  unfold compute_angle_forces__plain.
  match goal with
  | |- context [for_each ?body bonds_3 ?s] =>
      destruct (for_each body bonds_3 s) as [[f e] | |] eqn:E;
      [| exact I | exact I];
      change f with (fst (f, e));
      refine (@for_each_invariant (nat * nat * nat * R * R)%type _
                (fun st => balanced (vsum (fst st))) body bonds_3 _ s _ _ E)
  end.
  - intros st [[[[a b] c] theta0] k] st' Hst Hstep.
    exact (angle_step_balanced r box_size st st' a b c theta0 k Hst Hstep).
  - cbn [fst]. rewrite vsum_fill_zero. exact balanced_vzero.
Qed.

(** The term the energy is lowered by is [-0.5 * k * d * d]. *)
Lemma angle_energy_term_nonpositive (box_size pa pb pc : vec R)
    (theta0 k x : R) :
  0 <= k -> snd (angle_force box_size pa pb pc theta0 k) = Finite x -> x <= 0.
Proof.
  intros Hk. unfold angle_force. cbn [snd].
  match goal with
  | |- fmul (fmul _ (fmul _ ?d)) ?d = _ -> _ => generalize d
  end.
  intros [d |]; simpl; intros H; [| discriminate H].
  injection H as <-. nra.
Qed.

(** X10. With no negative strength among the entries, the energy
    [compute_angle_forces__plain] returns is never a negative number. *)
Theorem angle_energy_nonnegative (f_angles : list (vec float))
    (r : list (vec R)) (bonds_3 : list entry3) (box_size : vec R) :
  Forall (fun b => 0 <= strength_3 b) bonds_3 ->
  match compute_angle_forces__plain f_angles r bonds_3 box_size with
  | OK (_, Finite x) => 0 <= x
  | _ => True
  end.
Proof.
  intros Hk. unfold compute_angle_forces__plain.
  assert (forall st : list (vec float) * float,
             (forall x, snd st = Finite x -> 0 <= x) ->
             match for_each
                     (fun st '(a, b, c, theta0, k) =>
                        angle_step r box_size st a b c theta0 k)
                     bonds_3 st with
             | OK (_, Finite x) => 0 <= x
             | _ => True
             end) as H.
  { induction Hk as [| b bs Hb _ IH]; intros [f e] He.
    - cbn. destruct e as [x |]; [now apply He | exact I].
    - cbn [for_each]. destruct b as [[[[a b] c] theta0] k]. cbn in Hb.
      unfold angle_step at 1.
      destruct (getitem r a) as [pa | |]; cbn [bind]; try exact I.
      destruct (getitem r b) as [pb | |]; cbn [bind]; try exact I.
      destruct (getitem r c) as [pc | |]; cbn [bind]; try exact I.
      pose proof (angle_energy_term_nonpositive box_size pa pb pc theta0 k)
        as Hp.
      destruct (angle_force box_size pa pb pc theta0 k) as [[fa fc] en].
      cbn [snd] in Hp.
      destruct (update_row f a _) as [f1 | |]; cbn [bind]; try exact I.
      destruct (update_row f1 c _) as [f2 | |]; cbn [bind]; try exact I.
      destruct (update_row f2 b _) as [f3 | |]; cbn [bind]; try exact I.
      apply IH. cbn [snd]. intros x Hx.
      destruct e as [u |], en as [v |]; try discriminate Hx.
      injection Hx as <-. cbn [snd] in He.
      pose proof (He u eq_refl). pose proof (Hp v Hb eq_refl). lra. }
  apply H. cbn [snd]. intros x [= <-]. lra.
Qed.

(** X10 at one input: three atoms at a right angle, with strength 1. *)
Lemma angle_energy_nonnegative_witness :
  Forall (fun b => 0 <= strength_3 b) one_angle
  /\ match compute_angle_forces__plain three_rows bent_positions one_angle
             cube with
     | OK (_, Finite x) => 0 <= x
     | _ => True
     end.
Proof.
  assert (Forall (fun b => 0 <= strength_3 b) one_angle) as H.
  { repeat constructor. simpl. lra. }
  split; [exact H |].
  exact (angle_energy_nonnegative three_rows bent_positions one_angle cube H).
Defined.

(** X11. Moving every atom by the same vector changes neither the forces
    nor the energy of [compute_angle_forces__plain]. *)
Theorem angle_forces_unchanged_by_common_shift (f_angles : list (vec float))
    (r : list (vec R)) (bonds_3 : list entry3) (box_size t : vec R) :
  compute_angle_forces__plain f_angles (shifted t r) bonds_3 box_size
  = compute_angle_forces__plain f_angles r bonds_3 box_size.
Proof.
  unfold compute_angle_forces__plain. apply for_each_ext_in.
  intros [f e] [[[[a b] c] theta0] k] _. unfold angle_step.
  rewrite !getitem_shifted.
  destruct (getitem r a) as [pa | |]; cbn [fmap bind]; try reflexivity.
  destruct (getitem r b) as [pb | |]; cbn [fmap bind]; try reflexivity.
  destruct (getitem r c) as [pc | |]; cbn [fmap bind]; try reflexivity.
  unfold angle_force. rewrite !displacement_shifted. reflexivity.
Qed.

Lemma fmul_nonfinite_r (a : float) : fmul a NonFinite = NonFinite.
Proof. now destruct a. Qed.

Lemma vtimes_nonfinite (v : vec float) : vtimes v NonFinite = vnonfinite.
Proof.
  destruct v as [x y z]. unfold vtimes, vmap, vnonfinite. cbn [vx vy vz].
  now rewrite !fmul_nonfinite_r.
Qed.

(** An outer atom on the middle atom: nothing of the angle is finite. *)
Lemma angle_force_coincident (box_size p pc : vec R) (theta0 k : R) :
  angle_force box_size p p pc theta0 k = (vnonfinite, vnonfinite, NonFinite).
Proof.
  unfold angle_force. cbv zeta.
  set (ra := vzip wrap (vsub (vfinite p) (vfinite p)) box_size).
  set (rc := vzip wrap (vsub (vfinite pc) (vfinite p)) box_size).
  assert (vnorm ra = Finite 0 \/ vnorm ra = NonFinite) as Hn.
  { destruct p as [x y z], box_size as [Lx Ly Lz].
    apply vnorm_of_zero; subst ra; cbn; apply wrap_of_zero; lra. }
  change (fsqrt (vdot ra ra)) with (vnorm ra).
  rewrite (fdiv_zero_or_nonfinite (Finite 1) (vnorm ra) Hn).
  set (xrc := fdiv (Finite 1) (fsqrt (vdot rc rc))).
  rewrite (vtimes_nonfinite ra).
  set (ec := vtimes rc xrc).
  change (vdot vnonfinite ec) with NonFinite.
  change (farccos NonFinite) with NonFinite.
  change (fmul NonFinite NonFinite) with NonFinite.
  change (fsub (Finite 1) NonFinite) with NonFinite.
  change (fsqrt NonFinite) with NonFinite.
  change (fdiv (Finite 1) NonFinite) with NonFinite.
  change (fsub NonFinite (Finite theta0)) with NonFinite.
  change (fmul (Finite (- k)) NonFinite) with NonFinite.
  change (fmul NonFinite NonFinite) with NonFinite.
  rewrite !fmul_nonfinite_r, !vtimes_nonfinite. reflexivity.
Qed.

Lemma angle_step_keeps_nonfinite (r : list (vec R)) (box_size : vec R)
    (st st' : list (vec float) * float) (a b c : nat) (theta0 k : R)
    (n : nat) :
  nth_error (fst st) n = Some vnonfinite ->
  angle_step r box_size st a b c theta0 k = OK st' ->
  nth_error (fst st') n = Some vnonfinite.
Proof.
  destruct st as [f e]. cbn [fst]. intros Hn H. unfold angle_step in H.
  destruct (getitem r a) as [pa | |]; cbn [bind] in H; try discriminate H.
  destruct (getitem r b) as [pb | |]; cbn [bind] in H; try discriminate H.
  destruct (getitem r c) as [pc | |]; cbn [bind] in H; try discriminate H.
  destruct (angle_force box_size pa pb pc theta0 k) as [[fa fc] en].
  destruct (update_row f a _) as [f1 | |] eqn:E1; cbn [bind] in H;
    try discriminate H.
  destruct (update_row f1 c _) as [f2 | |] eqn:E2; cbn [bind] in H;
    try discriminate H.
  destruct (update_row f2 b _) as [f3 | |] eqn:E3; cbn [bind] in H;
    try discriminate H.
  injection H as <-. cbn [fst].
  apply (update_row_keeps_nonfinite f2 f3 b n
           (fun f0 => vadd f0 (vneg (vadd fa fc))) eq_refl); [| exact E3].
  apply (update_row_keeps_nonfinite f1 f2 c n (fun f0 => vadd f0 fc) eq_refl);
    [| exact E2].
  exact (update_row_keeps_nonfinite f f1 a n (fun f0 => vadd f0 fa) eq_refl
           Hn E1).
Qed.

Lemma angle_step_keeps_energy_nonfinite (r : list (vec R))
    (box_size : vec R) (st st' : list (vec float) * float) (a b c : nat)
    (theta0 k : R) :
  snd st = NonFinite ->
  angle_step r box_size st a b c theta0 k = OK st' ->
  snd st' = NonFinite.
Proof.
  destruct st as [f e]. cbn [snd]. intros -> H. unfold angle_step in H.
  destruct (getitem r a) as [pa | |]; cbn [bind] in H; try discriminate H.
  destruct (getitem r b) as [pb | |]; cbn [bind] in H; try discriminate H.
  destruct (getitem r c) as [pc | |]; cbn [bind] in H; try discriminate H.
  destruct (angle_force box_size pa pb pc theta0 k) as [[fa fc] en].
  destruct (update_row f a _) as [f1 | |]; cbn [bind] in H;
    try discriminate H.
  destruct (update_row f1 c _) as [f2 | |]; cbn [bind] in H;
    try discriminate H.
  destruct (update_row f2 b _) as [f3 | |]; cbn [bind] in H;
    try discriminate H.
  now injection H as <-.
Qed.

Lemma update_row_sets_nonfinite (rows rows' : list (vec float)) (i : nat) :
  update_row rows i (fun f => vadd f vnonfinite) = OK rows' ->
  nth_error rows' i = Some vnonfinite.
Proof.
  intros E. pose proof (update_row_in_range _ _ _ _ E) as Hr.
  rewrite (nth_error_update_row _ _ _ i _ E), Nat.eqb_refl.
  destruct (nth_error rows i) as [x |] eqn:Ex.
  - cbn [option_map]. now rewrite vadd_vnonfinite_r.
  - apply nth_error_None in Ex. lia.
Qed.

Lemma angle_step_coincident (r : list (vec R)) (box_size : vec R)
    (st st' : list (vec float) * float) (a b c : nat) (theta0 k : R)
    (p pc : vec R) :
  nth_error r a = Some p -> nth_error r b = Some p ->
  nth_error r c = Some pc ->
  angle_step r box_size st a b c theta0 k = OK st' ->
  snd st' = NonFinite
  /\ nth_error (fst st') a = Some vnonfinite
  /\ nth_error (fst st') b = Some vnonfinite
  /\ nth_error (fst st') c = Some vnonfinite.
Proof.
  destruct st as [f e]. intros Ha Hb Hc H. unfold angle_step, getitem in H.
  rewrite Ha, Hb, Hc in H. cbn [bind] in H.
  rewrite angle_force_coincident in H.
  destruct (update_row f a _) as [f1 | |] eqn:E1; cbn [bind] in H;
    try discriminate H.
  destruct (update_row f1 c _) as [f2 | |] eqn:E2; cbn [bind] in H;
    try discriminate H.
  destruct (update_row f2 b _) as [f3 | |] eqn:E3; cbn [bind] in H;
    try discriminate H.
  injection H as <-. cbn [fst snd].
  pose proof (update_row_sets_nonfinite _ _ _ E1) as H1.
  pose proof (update_row_sets_nonfinite _ _ _ E2) as H2.
  change (vneg (vadd vnonfinite vnonfinite)) with vnonfinite in E3.
  pose proof (update_row_sets_nonfinite _ _ _ E3) as H3.
  split; [now destruct e |]. split; [| split].
  - apply (update_row_keeps_nonfinite f2 f3 b a
             (fun f0 => vadd f0 vnonfinite) eq_refl); [| exact E3].
    exact (update_row_keeps_nonfinite f1 f2 c a
             (fun f0 => vadd f0 vnonfinite) eq_refl H1 E2).
  - exact H3.
  - exact (update_row_keeps_nonfinite f2 f3 b c
             (fun f0 => vadd f0 vnonfinite) eq_refl H2 E3).
Qed.

(** X20. An angle whose first atom lies on its middle atom raises nothing:
    the energy [compute_angle_forces__plain] returns is not a finite
    number, and neither is any component of the forces it leaves on the
    three atoms, whatever the other entries are. *)
Theorem angle_with_atom_on_its_middle (f_angles : list (vec float))
    (r : list (vec R)) (bonds_3 : list entry3) (box_size : vec R)
    (a b c : nat) (theta0 k : R) (p pc : vec R) :
  In (a, b, c, theta0, k) bonds_3 ->
  nth_error r a = Some p -> nth_error r b = Some p ->
  nth_error r c = Some pc ->
  match compute_angle_forces__plain f_angles r bonds_3 box_size with
  | OK (f, energy) =>
      energy = NonFinite
      /\ nth_error f a = Some vnonfinite
      /\ nth_error f b = Some vnonfinite
      /\ nth_error f c = Some vnonfinite
  | _ => True
  end.
Proof.
  intros Hin Ha Hb Hc. unfold compute_angle_forces__plain.
  generalize (fill_zero f_angles, Finite 0) as st.
  induction bonds_3 as [| e3 bs IH]; intros st; [contradiction |].
  cbn [for_each].
  destruct Hin as [-> | Hin].
  - destruct (angle_step r box_size st a b c theta0 k) as [st1 | |] eqn:E1;
      cbn [bind]; try exact I.
    destruct (angle_step_coincident _ _ _ _ _ _ _ _ _ _ _ Ha Hb Hc E1)
      as [He [H1 [H2 H3]]].
    match goal with
    | |- context [for_each ?body bs st1] =>
        destruct (for_each body bs st1) as [[f e] | |] eqn:E; try exact I;
        pose proof (@for_each_invariant (nat * nat * nat * R * R)%type _
                      (fun s => snd s = NonFinite
                                /\ nth_error (fst s) a = Some vnonfinite
                                /\ nth_error (fst s) b = Some vnonfinite
                                /\ nth_error (fst s) c = Some vnonfinite)
                      body bs) as Hinv
    end.
    apply (Hinv ltac:(
             intros s [[[[a' b'] c'] t'] k'] s' [G0 [G1 [G2 G3]]] Hstep;
             repeat split;
             [ exact (angle_step_keeps_energy_nonfinite _ _ _ _ _ _ _ _ _
                        G0 Hstep)
             | exact (angle_step_keeps_nonfinite _ _ _ _ _ _ _ _ _ _ G1 Hstep)
             | exact (angle_step_keeps_nonfinite _ _ _ _ _ _ _ _ _ _ G2 Hstep)
             | exact (angle_step_keeps_nonfinite _ _ _ _ _ _ _ _ _ _ G3 Hstep)
             ]) st1 (f, e)); [| exact E].
    repeat split; assumption.
  - destruct e3 as [[[[a' b'] c'] t'] k'].
    destruct (angle_step r box_size st a' b' c' t' k') as [st1 | |];
      cbn [bind]; try exact I.
    now apply IH.
Qed.

(** X20 at one input: the first two of three atoms at the origin. *)
Lemma angle_with_atom_on_its_middle_witness :
  match compute_angle_forces__plain three_rows
          [V3 0 0 0; V3 0 0 0; V3 0 1 0] one_angle cube with
  | OK (f, energy) =>
      energy = NonFinite
      /\ nth_error f 0 = Some vnonfinite
      /\ nth_error f 1 = Some vnonfinite
      /\ nth_error f 2 = Some vnonfinite
  | _ => True
  end.
Proof.
  exact (angle_with_atom_on_its_middle three_rows
           [V3 0 0 0; V3 0 0 0; V3 0 1 0] one_angle cube 0 1 2 PI 1
           (V3 0 0 0) (V3 0 1 0) (or_introl eq_refl) eq_refl eq_refl eq_refl).
Defined.

End AngleFacts.

(* ================================================================== *)
(** ** The three-body forces and the periodic images *)

Module AngleImageFacts.
Import Py Float Input Force Angles Terms Notions Examples.
Import RoundFacts BondForceFacts.
Local Open Scope R_scope.

Lemma angle_force_wrapped (box_size pa pb pc : vec R) (theta0 k : R) :
  angle_force box_size pa pb pc theta0 k
  = angle_force_of_wrapped (wrapped box_size (rvsub pa pb))
                           (wrapped box_size (rvsub pc pb)) theta0 k.
Proof. reflexivity. Qed.

Lemma wrapped_moved (atom i j : nat) (d : axis) (box_size : vec R)
    (positive : bool) (ri rj : vec R) :
  ~ is_tie ((component d rj - component d ri) / component d box_size) ->
  let s := box_length box_size d positive in
  wrapped box_size (rvsub (moved atom d s j rj) (moved atom d s i ri))
  = wrapped box_size (rvsub rj ri).
Proof.
  intros Hno s.
  destruct (displacement_moved atom i j d box_size positive ri rj)
    as [m [Hm Hdisp]].
  fold s in Hdisp. rewrite Hdisp.
  apply (proj2 (wrapped_period box_size (rvsub rj ri) d m Hm)).
  now rewrite component_rvsub.
Qed.

Lemma angle_step_no_tie (r : list (vec R)) (box_size : vec R)
    (atom : nat) (d : axis) (positive : bool)
    (st : list (vec float) * float) (a b c : nat) (theta0 k : R) :
  (forall pa pb pc,
      nth_error r a = Some pa -> nth_error r b = Some pb ->
      nth_error r c = Some pc ->
      ~ is_tie ((component d pa - component d pb) / component d box_size)
      /\ ~ is_tie ((component d pc - component d pb)
                   / component d box_size)) ->
  angle_step (translate r atom d (box_length box_size d positive))
             box_size st a b c theta0 k
  = angle_step r box_size st a b c theta0 k.
Proof.
  intros Hno. unfold angle_step. destruct st as [f energy].
  rewrite !getitem_translate.
  destruct (getitem r a) as [pa | |] eqn:Ea; cbn [bind fmap]; try reflexivity.
  destruct (getitem r b) as [pb | |] eqn:Eb; cbn [bind fmap]; try reflexivity.
  destruct (getitem r c) as [pc | |] eqn:Ec; cbn [bind fmap]; try reflexivity.
  destruct (Hno pa pb pc (getitem_nth_error _ _ _ Ea)
              (getitem_nth_error _ _ _ Eb) (getitem_nth_error _ _ _ Ec))
    as [Ha Hc].
  rewrite !angle_force_wrapped.
  rewrite (wrapped_moved atom b a d box_size positive pb pa Ha).
  rewrite (wrapped_moved atom b c d box_size positive pb pc Hc).
  reflexivity.
Qed.

(** X21. In exact arithmetic: moving one atom by one box length along one
    axis, in either sense,
    changes nothing of what [compute_angle_forces__plain] computes, forces
    and energy, when neither outer atom of any angle is separated from the
    angle's middle atom along that axis by an odd number of half box
    lengths. *)
Theorem angle_forces_periodic_image (f_angles : list (vec float))
    (r : list (vec R)) (bonds_3 : list entry3) (box_size : vec R)
    (atom : nat) (d : axis) (positive : bool) :
  no_tie_3 r box_size d bonds_3 ->
  compute_angle_forces__plain f_angles
    (translate r atom d (box_length box_size d positive)) bonds_3 box_size
  = compute_angle_forces__plain f_angles r bonds_3 box_size.
Proof.
  intros Hno. unfold compute_angle_forces__plain. apply for_each_ext_in.
  intros st [[[[a b] c] theta0] k] Hin. apply angle_step_no_tie.
  intros pa pb pc Ha Hb Hc. now apply (Hno a b c theta0 k).
Qed.

Lemma bent_positions_no_tie : no_tie_3 bent_positions cube AxisX one_angle.
Proof.
  intros a b c theta0 k pa pb pc [H | []] Ha Hb Hc.
  injection H as <- <- <- <- <-.
  injection Ha as <-. injection Hb as <-. injection Hc as <-.
  split; apply (near_not_tie _ 0); cbn [component cube vx]; lra.
Qed.

(** X21 at one input: three atoms at a right angle in the box of side 10,
    the first moved by one box length along x. *)
Lemma angle_forces_periodic_image_witness :
  no_tie_3 bent_positions cube AxisX one_angle
  /\ compute_angle_forces__plain three_rows
       (translate bent_positions 0 AxisX (box_length cube AxisX true))
         one_angle cube
     = compute_angle_forces__plain three_rows bent_positions one_angle cube.
Proof.
  split; [exact bent_positions_no_tie |].
  exact (angle_forces_periodic_image three_rows bent_positions one_angle cube
           0 AxisX true bent_positions_no_tie).
Defined.

End AngleImageFacts.

(* ================================================================== *)
(** ** [prepare_bonds]: the lists as arrays *)

Module ArrayFacts.
Import Py Float Input Force Arrays Terms Notions.
Import NxFacts SumFacts.

Lemma setitem_middle {A} (pre : list A) (y : A) (post : list A) (x : A) :
  setitem (pre ++ y :: post) (length pre) x = OK (pre ++ x :: post).
Proof.
  unfold setitem. induction pre as [| p pre IH]; [reflexivity |].
  cbn [app length update_row]. now rewrite IH.
Qed.

(** The slot after the rows already written. *)
Lemma setitem_next {A B} (f : A -> B) (pre : list A) (b : A) (n : nat)
    (fill : B) :
  setitem (map f pre ++ np_empty (S n) fill) (length pre) (f b)
  = OK (map f (pre ++ [b]) ++ np_empty n fill).
Proof.
  unfold np_empty. cbn [repeat].
  rewrite <- (length_map f pre) at 1. rewrite setitem_middle.
  now rewrite map_app, <- app_assoc.
Qed.

Lemma fill_bonds_2_loop (pre bs : list (nat * nat * R * R)) :
  for_each
    (fun '(atom1, atom2, equilibrium, stength) '(i, b) =>
       let '(b0, b1, b2, b3) := b in
       bind (setitem atom1 i b0) (fun atom1 =>
       bind (setitem atom2 i b1) (fun atom2 =>
       bind (setitem equilibrium i b2) (fun equilibrium =>
       bind (setitem stength i b3) (fun stength =>
       OK (atom1, atom2, equilibrium, stength))))))
    (combine (seq (length pre) (length bs)) bs)
    (map (fun '(i, _, _, _) => i) pre ++ np_empty (length bs) O,
     map (fun '(_, j, _, _) => j) pre ++ np_empty (length bs) O,
     map (fun '(_, _, r0, _) => r0) pre ++ np_empty (length bs) 0%R,
     map (fun '(_, _, _, k) => k) pre ++ np_empty (length bs) 0%R)
  = OK (map (fun '(i, _, _, _) => i) (pre ++ bs),
        map (fun '(_, j, _, _) => j) (pre ++ bs),
        map (fun '(_, _, r0, _) => r0) (pre ++ bs),
        map (fun '(_, _, _, k) => k) (pre ++ bs)).
Proof.
  revert pre. induction bs as [| b bs IH]; intros pre.
  - cbn. now rewrite !app_nil_r.
  - cbn [length seq combine for_each].
    pose proof (setitem_next (fun '(i, _, _, _) => i) pre b (length bs) O)
      as E1.
    pose proof (setitem_next (fun '(_, j, _, _) => j) pre b (length bs) O)
      as E2.
    pose proof (setitem_next (fun '(_, _, r0, _) => r0) pre b (length bs) 0%R)
      as E3.
    pose proof (setitem_next (fun '(_, _, _, k) => k) pre b (length bs) 0%R)
      as E4.
    destruct b as [[[b0 b1] b2] b3]. cbv beta iota.
    rewrite E1. cbn [bind]. rewrite E2. cbn [bind].
    rewrite E3. cbn [bind]. rewrite E4. cbn [bind].
    assert (L : S (length pre) = length (pre ++ [(b0, b1, b2, b3)]))
      by (rewrite length_app; simpl; lia).
    rewrite L, IH. now rewrite <- app_assoc.
Qed.

Lemma fill_bonds_3_loop (pre bs : list (nat * nat * nat * R * R)) :
  for_each
    (fun '(atom1, atom2, atom3, equilibrium, stength) '(i, b) =>
       let '(b0, b1, b2, b3, b4) := b in
       bind (setitem atom1 i b0) (fun atom1 =>
       bind (setitem atom2 i b1) (fun atom2 =>
       bind (setitem atom3 i b2) (fun atom3 =>
       bind (setitem equilibrium i b3) (fun equilibrium =>
       bind (setitem stength i b4) (fun stength =>
       OK (atom1, atom2, atom3, equilibrium, stength)))))))
    (combine (seq (length pre) (length bs)) bs)
    (map (fun '(a, _, _, _, _) => a) pre ++ np_empty (length bs) O,
     map (fun '(_, b, _, _, _) => b) pre ++ np_empty (length bs) O,
     map (fun '(_, _, c, _, _) => c) pre ++ np_empty (length bs) O,
     map (fun '(_, _, _, t0, _) => t0) pre ++ np_empty (length bs) 0%R,
     map (fun '(_, _, _, _, k) => k) pre ++ np_empty (length bs) 0%R)
  = OK (map (fun '(a, _, _, _, _) => a) (pre ++ bs),
        map (fun '(_, b, _, _, _) => b) (pre ++ bs),
        map (fun '(_, _, c, _, _) => c) (pre ++ bs),
        map (fun '(_, _, _, t0, _) => t0) (pre ++ bs),
        map (fun '(_, _, _, _, k) => k) (pre ++ bs)).
Proof.
  revert pre. induction bs as [| b bs IH]; intros pre.
  - cbn. now rewrite !app_nil_r.
  - cbn [length seq combine for_each].
    pose proof (setitem_next (fun '(a, _, _, _, _) => a) pre b (length bs) O)
      as E1.
    pose proof (setitem_next (fun '(_, b, _, _, _) => b) pre b (length bs) O)
      as E2.
    pose proof (setitem_next (fun '(_, _, c, _, _) => c) pre b (length bs) O)
      as E3.
    pose proof
      (setitem_next (fun '(_, _, _, t0, _) => t0) pre b (length bs) 0%R)
      as E4.
    pose proof
      (setitem_next (fun '(_, _, _, _, k) => k) pre b (length bs) 0%R)
      as E5.
    destruct b as [[[[b0 b1] b2] b3] b4]. cbv beta iota.
    rewrite E1. cbn [bind]. rewrite E2. cbn [bind].
    rewrite E3. cbn [bind]. rewrite E4. cbn [bind]. rewrite E5. cbn [bind].
    assert (L : S (length pre) = length (pre ++ [(b0, b1, b2, b3, b4)]))
      by (rewrite length_app; simpl; lia).
    rewrite L, IH. now rewrite <- app_assoc.
Qed.

(** X13. [prepare_bonds] fails exactly as [prepare_bonds_old] does, and
    otherwise returns its two lists column by column: the assignments by
    position fill every slot of the nine arrays, entry [n] of each from
    row [n] of the list. *)
Theorem prepare_bonds_gives_columns (molecules : list Z)
    (names : list string) (bonds : option (list (list Z)))
    (indices : list Z) (config : Config) :
  prepare_bonds molecules names bonds indices config
  = fmap (fun '(bonds_2, bonds_3) => columns bonds_2 bonds_3)
         (prepare_bonds_old molecules names bonds indices config).
Proof.
  unfold prepare_bonds.
  destruct (prepare_bonds_old molecules names bonds indices config)
    as [[b2 b3] | e |]; cbn [fmap bind]; try reflexivity.
  pose proof (fill_bonds_2_loop [] b2) as E2.
  pose proof (fill_bonds_3_loop [] b3) as E3.
  cbn [length map app] in E2, E3.
  unfold fill_bonds_2, fill_bonds_3, enumerate.
  match goal with
  | |- bind ?x ?cont = _ =>
      transitivity (bind (OK (map (fun '(i, _, _, _) => i) b2,
                              map (fun '(_, j, _, _) => j) b2,
                              map (fun '(_, _, r0, _) => r0) b2,
                              map (fun '(_, _, _, k) => k) b2)) cont);
      [f_equal; exact E2 |]
  end.
  cbn [bind].
  match goal with
  | |- bind ?x ?cont = _ =>
      transitivity (bind (OK (map (fun '(a, _, _, _, _) => a) b3,
                              map (fun '(_, b, _, _, _) => b) b3,
                              map (fun '(_, _, c, _, _) => c) b3,
                              map (fun '(_, _, _, t0, _) => t0) b3,
                              map (fun '(_, _, _, _, k) => k) b3)) cont);
      [f_equal; exact E3 |]
  end.
  reflexivity.
Qed.

End ArrayFacts.

(* ================================================================== *)
(** ** What [prepare_bonds_old] emits *)

Module EntryFacts.
Import Py Float Input Nx Force Terms Notions.
Import NxFacts BondForceFacts SumFacts BondLoopFacts AngleFacts.
Local Open Scope Z_scope.

Lemma for_each_invariant_in {A S} (P : S -> Prop)
    (body : S -> A -> result S) (xs : list A) :
  (forall s x s', In x xs -> P s -> body s x = OK s' -> P s') ->
  forall s s', P s -> for_each body xs s = OK s' -> P s'.
Proof.
  induction xs as [| x xs IH]; intros Hbody s s' Hs H.
  - injection H as <-. exact Hs.
  - cbn [for_each] in H. destruct (body s x) as [s1 | e |] eqn:E;
      cbn [bind] in H; try discriminate H.
    apply (IH (fun s0 y s0' Hy => Hbody s0 y s0' (or_intror Hy)) s1 s');
      [| exact H].
    now apply (Hbody s x s1 (or_introl eq_refl)).
Qed.

Lemma In_combine_seq {A} (xs : list A) (start i : nat) (x : A) :
  In (i, x) (combine (seq start (length xs)) xs) ->
  (start <= i)%nat /\ nth_error xs (i - start) = Some x.
Proof.
  revert start. induction xs as [| y xs IH]; intros start H; [contradiction |].
  cbn [length seq combine] in H. destruct H as [H | H].
  - injection H as <- <-. rewrite Nat.sub_diag. split; [lia | reflexivity].
  - destruct (IH (S start) H) as [Hle Hn]. split; [lia |].
    replace (i - start)%nat with (S (i - S start)) by lia. exact Hn.
Qed.

Lemma In_enumerate {A} (xs : list A) (i : nat) (x : A) :
  In (i, x) (enumerate xs) -> nth_error xs i = Some x.
Proof.
  intros H. destruct (In_combine_seq xs 0 i x H) as [_ Hn].
  now rewrite Nat.sub_0_r in Hn.
Qed.

(** *** The attributes of the nodes *)

Section Attrs.
Variables (molecules : list Z) (names : list string) (indices : list Z).
Variable mol : Z.

Lemma attrs_sound_empty : attrs_sound molecules names indices mol empty.
Proof. intros n a H. discriminate H. Qed.

Lemma attrs_sound_ensure_node (g : Graph) (n : Z) :
  attrs_sound molecules names indices mol g ->
  attrs_sound molecules names indices mol (ensure_node g n).
Proof.
  intros Hg. unfold ensure_node. destruct (dict_mem n (_node g)); [exact Hg |].
  intros k a H. cbn [_node] in H. rewrite dict_get_app in H.
  destruct (dict_get k (_node g)) as [v |] eqn:E.
  - injection H as ->. now apply Hg.
  - cbn [dict_get] in H. destruct (k =? n); discriminate H.
Qed.

Lemma attrs_sound_add_edge (g : Graph) (u v : Z) :
  attrs_sound molecules names indices mol g ->
  attrs_sound molecules names indices mol (add_edge g u v).
Proof.
  intros Hg k a H. unfold add_edge in H. cbn [_node] in H.
  exact (attrs_sound_ensure_node _ v (attrs_sound_ensure_node _ u Hg) k a H).
Qed.

Lemma attrs_sound_add_edges (u : Z) (vs : list Z) (g : Graph) :
  attrs_sound molecules names indices mol g ->
  attrs_sound molecules names indices mol
    (fold_left (fun g' v => add_edge g' u v) vs g).
Proof.
  revert g. induction vs as [| v vs IH]; intros g Hg; [exact Hg |].
  cbn [fold_left]. apply IH. now apply attrs_sound_add_edge.
Qed.

Lemma attrs_sound_add_node (g : Graph) (n : Z) (a : attrs) :
  attrs_sound molecules names indices mol g ->
  nth_error indices (local_index a) = Some n ->
  nth_error names (local_index a) = Some (name a) ->
  nth_error molecules (local_index a) = Some mol ->
  attrs_sound molecules names indices mol (add_node g n a).
Proof.
  intros Hg H1 H2 H3 k a' H. unfold add_node in H. cbn [_node] in H.
  rewrite dict_get_set in H. destruct (Z.eqb_spec k n) as [-> | Hne].
  - injection H as <-. auto.
  - exact (attrs_sound_ensure_node g n Hg k a' H).
Qed.

Lemma molecule_graph_attrs_sound (bonds : option (list (list Z)))
    (g : Graph) :
  molecule_graph mol molecules names bonds indices = OK g ->
  attrs_sound molecules names indices mol g.
Proof.
  unfold molecule_graph.
  apply (for_each_invariant_in (attrs_sound molecules names indices mol));
    [| exact attrs_sound_empty].
  intros s [li gi] s' Hin Hs H. cbv beta iota in H.
  apply In_enumerate in Hin.
  destruct (getitem molecules li) as [m | |] eqn:Em; cbn [bind] in H;
    try discriminate H.
  destruct (Z.eqb_spec m mol) as [-> | Hne]; cbn [negb] in H;
    [| injection H as <-; exact Hs].
  destruct (getitem names li) as [nm | |] eqn:En; cbn [bind] in H;
    try discriminate H.
  destruct (match bonds with
            | Some rows => getitem rows li
            | None => Raise TypeError
            end) as [row | |]; cbn [bind] in H; try discriminate H.
  injection H as <-. apply attrs_sound_add_edges.
  apply attrs_sound_add_node; cbn [local_index name]; auto.
  - now apply getitem_nth_error.
  - now apply getitem_nth_error.
Qed.

Lemma node_attrs_sound (g : Graph) (n : Z) (a : attrs) :
  attrs_sound molecules names indices mol g -> node_attrs g n = OK a ->
  nth_error indices (local_index a) = Some n
  /\ nth_error names (local_index a) = Some (name a)
  /\ nth_error molecules (local_index a) = Some mol.
Proof.
  intros Hg H. apply Hg. unfold node_attrs in H.
  destruct (dict_get n (_node g)) as [[a' |] |]; try discriminate H.
  now injection H as ->.
Qed.

End Attrs.

(** *** The paths of the search *)

Lemma dict_get_pair {V} (k : Z) (d : dict V) (v : V) :
  dict_get k d = Some v -> In (k, v) d.
Proof.
  induction d as [| [k' v'] d IH]; [discriminate |].
  cbn [dict_get]. destruct (Z.eqb_spec k k') as [-> | Hne].
  - intros [= ->]. now left.
  - intros H. right. now apply IH.
Qed.

Lemma last_snoc (p : list Z) (w d : Z) : last (p ++ [w]) d = w.
Proof. apply last_last. Qed.

Lemma visit_neighbours_paths_from (source : Z) (pv ws : list Z)
    (st : paths * list Z) :
  pv <> [] -> hd 0 pv = source ->
  paths_from source (fst st) ->
  paths_from source (fst (visit_neighbours pv ws st)).
Proof.
  intros Hne Hhd. revert st. induction ws as [| w ws IH]; intros [ps next] Hps;
    [exact Hps |].
  cbn [visit_neighbours]. destruct (dict_mem w ps); [now apply IH |].
  apply IH. cbn [fst] in *. intros k p Hin.
  apply in_app_or in Hin as [Hin | [Hin | []]]; [now apply Hps |].
  injection Hin as <- <-. split; [| split].
  - destruct pv; discriminate.
  - destruct pv; [contradiction | exact Hhd].
  - apply last_snoc.
Qed.

Lemma visit_level_paths_from (source : Z) (adj : dict (list Z))
    (thislevel : list Z) (ps ps' : paths) (next : list Z) :
  paths_from source ps ->
  visit_level adj thislevel ps = OK (ps', next) ->
  paths_from source ps'.
Proof.
  intros Hps H. unfold visit_level in H.
  change ps' with (fst (ps', next)).
  refine (for_each_invariant (fun st => paths_from source (fst st)) _ _ _ _ _
            _ H); [| exact Hps].
  intros st v st' Hst Hstep. cbv beta in Hstep.
  destruct (dict_get v adj) as [ws |]; [| discriminate Hstep].
  match type of Hstep with
  | match ?t with _ => _ end = _ => destruct t as [pv |] eqn:Epv
  end; [| discriminate Hstep].
  injection Hstep as <-.
  destruct (Hst v pv (dict_get_pair _ _ _ Epv)) as [Hne [Hhd _]].
  now apply visit_neighbours_paths_from.
Qed.

Lemma shortest_path_loop_paths_from (source : Z) (adj : dict (list Z))
    (budget : nat) (nextlevel : list Z) (ps ps' : paths) :
  paths_from source ps ->
  shortest_path_loop budget adj nextlevel ps = OK ps' ->
  paths_from source ps'.
Proof.
  revert nextlevel ps. induction budget as [| budget IH];
    intros nextlevel ps Hps H.
  - destruct nextlevel; cbn in H; [now injection H as <- | discriminate H].
  - destruct nextlevel as [| v level]; [cbn in H; now injection H as <- |].
    cbn [shortest_path_loop] in H.
    destruct (visit_level adj (v :: level) ps) as [[ps1 next] | |] eqn:E;
      cbn [bind] in H; try discriminate H.
    apply (IH next ps1); [| exact H].
    exact (visit_level_paths_from source adj _ ps ps1 next Hps E).
Qed.

Lemma single_source_paths_from (g : Graph) (source : Z) (ps : paths) :
  single_source_shortest_path g source = OK ps -> paths_from source ps.
Proof.
  unfold single_source_shortest_path.
  apply shortest_path_loop_paths_from.
  intros k p [H | []]. injection H as <- <-.
  split; [discriminate | split; reflexivity].
Qed.

(** *** The entries *)

Lemma bond_matches_names (name_i name_j : string) (b : Bond) :
  bond_matches name_i name_j b = true ->
  name_i = atom_1 b /\ name_j = atom_2 b.
Proof.
  unfold bond_matches.
  destruct (String.eqb_spec name_i (atom_1 b)) as [-> | H1];
    destruct (String.eqb_spec name_j (atom_2 b)) as [-> | H2];
    cbn; intros H; try discriminate H; auto.
Qed.

Lemma angle_matches_names (name_i name_mid name_j : string) (a : Angle) :
  angle_matches name_i name_mid name_j a = true ->
  name_mid = atom_2 a
  /\ (name_i = atom_1 a /\ name_j = atom_3 a
      \/ name_i = atom_3 a /\ name_j = atom_1 a).
Proof.
  unfold angle_matches.
  destruct (String.eqb_spec name_mid (atom_2 a)) as [-> | H2];
    destruct (String.eqb_spec name_i (atom_1 a)) as [E1 | H1];
    destruct (String.eqb_spec name_j (atom_3 a)) as [E3 | H3];
    destruct (String.eqb_spec name_i (atom_3 a)) as [F3 | G3];
    destruct (String.eqb_spec name_j (atom_1 a)) as [F1 | G1];
    cbn; intros H; try discriminate H; auto.
Qed.

Lemma append_bonds_2_Forall (P : entry2 -> Prop) (config_bonds : list Bond)
    (name_i name_j : string) (local_i local_j : nat) (acc : list entry2) :
  Forall P acc ->
  (forall b, In b config_bonds -> bond_matches name_i name_j b = true ->
             P (local_i, local_j, equilibrium b, strength b)) ->
  Forall P (append_bonds_2 config_bonds name_i name_j local_i local_j acc).
Proof.
  unfold append_bonds_2. revert acc.
  induction config_bonds as [| b bs IH]; intros acc Hacc Hb; [exact Hacc |].
  cbn [fold_left]. apply IH.
  - destruct (bond_matches name_i name_j b) eqn:E; [| exact Hacc].
    apply Forall_app. split; [exact Hacc |].
    constructor; [| constructor]. apply Hb; [now left | exact E].
  - intros b' Hin. apply Hb. now right.
Qed.

Lemma append_bonds_3_Forall (P : entry3 -> Prop) (config_angles : list Angle)
    (name_i name_mid name_j : string) (local_i local_mid local_j : nat)
    (acc : list entry3) :
  Forall P acc ->
  (forall a, In a config_angles ->
             angle_matches name_i name_mid name_j a = true ->
             P (local_i, local_mid, local_j, radians (equilibrium a),
                strength a)) ->
  Forall P (append_bonds_3 config_angles name_i name_mid name_j
              local_i local_mid local_j acc).
Proof.
  unfold append_bonds_3. revert acc.
  induction config_angles as [| a bs IH]; intros acc Hacc Ha; [exact Hacc |].
  cbn [fold_left]. apply IH.
  - destruct (angle_matches name_i name_mid name_j a) eqn:E; [| exact Hacc].
    apply Forall_app. split; [exact Hacc |].
    constructor; [| constructor]. apply Ha; [now left | exact E].
  - intros a' Hin. apply Ha. now right.
Qed.

Section Entries.
Variables (molecules : list Z) (names : list string) (indices : list Z).
Variable config : Config.

Lemma visit_path_sound (mol : Z) (g : Graph) (i j : Z) (path : list Z)
    (acc acc' : list entry2 * list entry3) :
  attrs_sound molecules names indices mol g ->
  path <> [] -> hd 0 path = i -> last path 0 = j ->
  entries_sound molecules names indices config acc ->
  visit_path config g i acc (j, path) = OK acc' ->
  entries_sound molecules names indices config acc'.
Proof.
  intros Hg Hne Hhd Hlast [H2 H3] H. unfold visit_path in H.
  rewrite Hhd, Hlast in H.
  match type of H with
  | bind ?c2 _ = _ => destruct c2 as [b2 | |] eqn:E2
  end; cbn [bind] in H; try discriminate H.
  match type of H with
  | bind ?c3 _ = _ => destruct c3 as [b3 | |] eqn:E3
  end; cbn [bind] in H; try discriminate H.
  injection H as <-. split; cbn [fst snd].
  - destruct ((length path =? 2)%nat && (j >? i)) eqn:C;
      [| now injection E2 as <-].
    apply andb_prop in C as [_ Hord]. apply Z.gtb_lt in Hord.
    destruct (node_attrs g i) as [ai | |] eqn:Ei; cbn [bind] in E2;
      try discriminate E2.
    destruct (node_attrs g j) as [aj | |] eqn:Ej; cbn [bind] in E2;
      try discriminate E2.
    injection E2 as <-.
    destruct (node_attrs_sound _ _ _ _ _ _ _ Hg Ei) as [Ii [Ni Mi]].
    destruct (node_attrs_sound _ _ _ _ _ _ _ Hg Ej) as [Ij [Nj Mj]].
    apply append_bonds_2_Forall; [exact H2 |].
    intros b Hb Hm. apply bond_matches_names in Hm as [E1 E2'].
    exists b, i, j, mol. rewrite <- E1, <- E2'. repeat split; auto.
  - destruct ((length path =? 3)%nat && (j >? i)) eqn:C;
      [| now injection E3 as <-].
    apply andb_prop in C as [_ Hord]. apply Z.gtb_lt in Hord.
    destruct (node_attrs g i) as [ai | |] eqn:Ei; cbn [bind] in E3;
      try discriminate E3.
    destruct (node_attrs g (nth 1 path 0)) as [am | |] eqn:Em;
      cbn [bind] in E3; try discriminate E3.
    destruct (node_attrs g j) as [aj | |] eqn:Ej; cbn [bind] in E3;
      try discriminate E3.
    injection E3 as <-.
    destruct (node_attrs_sound _ _ _ _ _ _ _ Hg Ei) as [Ii [Ni Mi]].
    destruct (node_attrs_sound _ _ _ _ _ _ _ Hg Em) as [Im [Nm Mm]].
    destruct (node_attrs_sound _ _ _ _ _ _ _ Hg Ej) as [Ij [Nj Mj]].
    apply append_bonds_3_Forall; [exact H3 |].
    intros a Ha Hm. apply angle_matches_names in Hm as [Emid Hout].
    exists a, i, (nth 1 path 0), j, mol. rewrite <- Emid.
    repeat split; auto.
    destruct Hout as [[E1 E3'] | [E3' E1]]; rewrite <- E1, <- E3'; auto.
Qed.

Lemma visit_molecule_sound (bonds : option (list (list Z)))
    (acc acc' : list entry2 * list entry3) (mol : Z) :
  entries_sound molecules names indices config acc ->
  visit_molecule molecules names bonds indices config acc mol = OK acc' ->
  entries_sound molecules names indices config acc'.
Proof.
  intros Hacc H. unfold visit_molecule in H.
  destruct (molecule_graph mol molecules names bonds indices)
    as [g | |] eqn:Eg; cbn [bind] in H; try discriminate H.
  pose proof (molecule_graph_attrs_sound _ _ _ _ _ _ Eg) as Hg.
  refine (for_each_invariant_in (entries_sound molecules names indices config)
            _ _ _ _ _ Hacc H).
  intros s [i c1] s' Hin Hs Hstep. cbv beta iota in Hstep.
  unfold all_pairs_shortest_path in Hin.
  apply in_map_iff in Hin as [n [Hn _]]. injection Hn as <- <-.
  destruct (single_source_shortest_path g n) as [connected | |] eqn:Ec;
    cbn [bind] in Hstep; try discriminate Hstep.
  pose proof (single_source_paths_from g n connected Ec) as Hpaths.
  refine (for_each_invariant_in (entries_sound molecules names indices config)
            _ _ _ _ _ Hs Hstep).
  intros s1 [j path] s1' Hjp Hs1 Hvisit.
  destruct (Hpaths j path Hjp) as [Hne [Hhd Hlast]].
  exact (visit_path_sound mol g n j path s1 s1' Hg Hne Hhd Hlast Hs1 Hvisit).
Qed.

Lemma prepare_bonds_old_sound (bonds : option (list (list Z)))
    (out : list entry2 * list entry3) :
  prepare_bonds_old molecules names bonds indices config = OK out ->
  entries_sound molecules names indices config out.
Proof.
  unfold prepare_bonds_old.
  apply (for_each_invariant (entries_sound molecules names indices config)).
  - intros s mol s' Hs Hstep.
    exact (visit_molecule_sound bonds s s' mol Hs Hstep).
  - split; constructor.
Qed.

End Entries.

(** X14. Every entry [prepare_bonds_old] returns stands for a configured
    bond or angle between local particles of one molecule: the local
    indices are rows of the arrays, the first atom has a smaller global
    index than the last, the names are those of the definition (for a bond
    in the order [atom_1], [atom_2] only; for an angle with the outer two in
    either order), and the entry carries the definition's equilibrium (an
    angle's in radians) and strength. *)
Theorem prepare_bonds_old_entries_stand_for_definitions
    (molecules : list Z) (names : list string)
    (bonds : option (list (list Z))) (indices : list Z) (config : Config) :
  match prepare_bonds_old molecules names bonds indices config with
  | OK (bonds_2, bonds_3) =>
      Forall (sound_2 molecules names indices config) bonds_2
      /\ Forall (sound_3 molecules names indices config) bonds_3
  | _ => True
  end.
Proof.
  destruct (prepare_bonds_old molecules names bonds indices config)
    as [[b2 b3] | |] eqn:E; try exact I.
  exact (prepare_bonds_old_sound molecules names indices config bonds _ E).
Qed.

Lemma sound_2_rows_exist (molecules : list Z) (names : list string)
    (indices : list Z) (config : Config) (n m : nat) (e : entry2) :
  n = length indices -> m = length indices ->
  sound_2 molecules names indices config e -> rows_exist_2 n m e.
Proof.
  intros -> ->. destruct e as [[[i j] r0] k].
  intros [b [gi [gj [mol [_ [_ [_ [_ [_ [Hi [Hj _]]]]]]]]]]].
  assert (nth_error indices i <> None) as Hi' by congruence.
  assert (nth_error indices j <> None) as Hj' by congruence.
  apply nth_error_Some in Hi', Hj'. unfold rows_exist_2. tauto.
Qed.

Lemma sound_3_rows_exist (molecules : list Z) (names : list string)
    (indices : list Z) (config : Config) (n m : nat) (e : entry3) :
  n = length indices -> m = length indices ->
  sound_3 molecules names indices config e -> rows_exist_3 n m e.
Proof.
  intros -> ->. destruct e as [[[[i mid] j] t0] k].
  intros [a [gi [gm [gj [mol [_ [_ [_ [_ [_ [Hi [Hm [Hj _]]]]]]]]]]]]].
  assert (nth_error indices i <> None) as Hi' by congruence.
  assert (nth_error indices mid <> None) as Hm' by congruence.
  assert (nth_error indices j <> None) as Hj' by congruence.
  apply nth_error_Some in Hi', Hm', Hj'. unfold rows_exist_3. tauto.
Qed.

(** X15. The lists [prepare_bonds_old] returns can always be handed to the
    force loops: with position and force arrays of one row per local
    particle, [compute_bond_forces__plain] and
    [compute_angle_forces__plain] return and raise nothing. *)
Theorem prepared_entries_never_miss_a_row
    (molecules : list Z) (names : list string)
    (bonds : option (list (list Z))) (indices : list Z) (config : Config)
    (f : list (vec float)) (r : list (vec R)) (box_size : vec R) :
  length r = length indices -> length f = length indices ->
  match prepare_bonds_old molecules names bonds indices config with
  | OK (bonds_2, bonds_3) =>
      (exists out, compute_bond_forces__plain f r bonds_2 box_size = OK out)
      /\ (exists out,
             Angles.compute_angle_forces__plain f r bonds_3 box_size = OK out)
  | _ => True
  end.
Proof.
  intros Hr Hf.
  destruct (prepare_bonds_old molecules names bonds indices config)
    as [[b2 b3] | |] eqn:E; try exact I.
  destruct (prepare_bonds_old_sound molecules names indices config bonds _ E)
    as [H2 H3]. cbn [fst snd] in H2, H3.
  split.
  - pose proof (bond_loop_outcome r box_size b2 (fill_zero f, Finite 0)
                  (length f) (length_fill_zero f)) as H.
    change (for_each _ b2 _)
      with (compute_bond_forces__plain f r b2 box_size) in H.
    destruct (compute_bond_forces__plain f r b2 box_size) as [out | e |].
    + now exists out.
    + destruct H as [_ Hn]. exfalso. apply Hn.
      eapply Forall_impl; [| exact H2].
      intros e2. now apply sound_2_rows_exist.
    + contradiction.
  - pose proof (angle_loop_outcome r box_size b3 (fill_zero f, Finite 0)
                  (length f) (length_fill_zero f)) as H.
    change (for_each _ b3 _)
      with (Angles.compute_angle_forces__plain f r b3 box_size) in H.
    destruct (Angles.compute_angle_forces__plain f r b3 box_size)
      as [out | e |].
    + now exists out.
    + destruct H as [_ Hn]. exfalso. apply Hn.
      eapply Forall_impl; [| exact H3].
      intros e3. now apply sound_3_rows_exist.
    + contradiction.
Qed.

(** X15 at one input: the pair with two definitions for its names, with
    two rows of positions and of forces. *)
Lemma prepared_entries_never_miss_a_row_witness :
  match prepare_bonds_old Examples.doubly_defined_pair.molecules
          Examples.doubly_defined_pair.names
          Examples.doubly_defined_pair.bonds
          Examples.doubly_defined_pair.indices
          Examples.doubly_defined_pair.config with
  | OK (bonds_2, bonds_3) =>
      (exists out,
          compute_bond_forces__plain Examples.two_rows
            Examples.near_positions bonds_2 Examples.cube = OK out)
      /\ (exists out,
             Angles.compute_angle_forces__plain Examples.two_rows
               Examples.near_positions bonds_3 Examples.cube = OK out)
  | _ => True
  end.
Proof.
  exact (prepared_entries_never_miss_a_row
           Examples.doubly_defined_pair.molecules
           Examples.doubly_defined_pair.names
           Examples.doubly_defined_pair.bonds
           Examples.doubly_defined_pair.indices
           Examples.doubly_defined_pair.config
           Examples.two_rows Examples.near_positions Examples.cube
           eq_refl eq_refl).
Defined.

End EntryFacts.

(* ================================================================== *)
(** ** What a thermostat call leaves alone, and the work it books *)

Module ThermostatFrameFacts.
Import Py Float Input Thermostat Terms Notions Examples.
Import FloatFacts ThermostatFacts EntryFacts.
Local Open Scope R_scope.

Lemma in_group_names (group : list string) (p q : particle) :
  pname p = pname q -> in_group group p = in_group group q.
Proof. unfold in_group. now intros ->. Qed.

Lemma outside_names (groups : list (list string)) (p q : particle) :
  pname p = pname q -> outside groups p = outside groups q.
Proof.
  intros H. unfold outside. f_equal.
  induction groups as [| g groups IH]; [reflexivity |].
  cbn [existsb]. now rewrite IH, (in_group_names g p q H).
Qed.

Lemma outside_not_in_group (groups : list (list string))
    (group : list string) (p : particle) :
  In group groups -> in_group group p = true -> outside groups p = false.
Proof.
  intros Hin Hp. unfold outside. apply negb_false_iff.
  apply existsb_exists. now exists group.
Qed.

(** The loop body on the arrays: names stay, and so do the rows outside
    the group. *)
Lemma thermostat_group_frame
    (random_gaussian : nat -> result R)
    (random_chi_squared : nat -> Z -> result R)
    (groups : list (list string)) (st st' : state) (i : nat)
    (group : list string) :
  In group groups ->
  thermostat_group random_gaussian random_chi_squared st (i, group) = OK st' ->
  all_names (ranks st') = all_names (ranks st)
  /\ velocities_outside groups (ranks st')
     = velocities_outside groups (ranks st)
  /\ config st'
     = set_thermostat_work (config st) (thermostat_work (config st')).
Proof.
  intros Hin H. unfold thermostat_group in H.
  destruct (coupling_decay (config st)) as [c | |]; cbn [bind] in H;
    try discriminate H.
  destruct (random_gaussian i) as [Rg | |]; cbn [bind] in H;
    try discriminate H.
  destruct (random_chi_squared i _) as [SNf | |]; cbn [bind] in H;
    try discriminate H.
  injection H as <-. cbn [ranks config]. split; [| split].
  - unfold all_names. rewrite map_map. apply map_ext. intros rk.
    rewrite map_map. apply map_ext. intros p.
    now destruct (in_group group p).
  - unfold velocities_outside. rewrite map_map. apply map_ext. intros rk.
    rewrite map_map. apply map_ext. intros p.
    destruct (in_group group p) eqn:E; [| reflexivity].
    match goal with
    | |- (if outside groups ?q then _ else _) = _ =>
        rewrite (outside_names groups q p eq_refl)
    end.
    now rewrite (outside_not_in_group groups group p Hin E).
  - now destruct (config st).
Qed.

(** X16. A call of [csvr_thermostat] that returns leaves the [names] array
    of every rank as it was, leaves the velocity of every particle whose
    name is in none of the coupling groups as it was, and changes nothing
    of the configuration but [thermostat_work] and, when no group was
    configured, [thermostat_coupling_groups], which stays set to the one
    group of all [unique_names]. *)
Theorem csvr_thermostat_touches_only_the_groups
    (random_gaussian : nat -> result R)
    (random_chi_squared : nat -> Z -> result R) (st : state) :
  let cfg := default_groups (config st) in
  let groups := thermostat_coupling_groups cfg in
  match csvr_thermostat random_gaussian random_chi_squared st with
  | OK st' =>
      all_names (ranks st') = all_names (ranks st)
      /\ velocities_outside groups (ranks st')
         = velocities_outside groups (ranks st)
      /\ config st' = set_thermostat_work cfg (thermostat_work (config st'))
  | _ => True
  end.
Proof.
  intros cfg groups. unfold csvr_thermostat. fold cfg. fold groups.
  destruct (for_each _ (enumerate groups) _) as [st' | |] eqn:E;
    try exact I.
  refine (for_each_invariant_in
            (fun s => all_names (ranks s) = all_names (ranks st)
                      /\ velocities_outside groups (ranks s)
                         = velocities_outside groups (ranks st)
                      /\ config s
                         = set_thermostat_work cfg (thermostat_work (config s)))
            _ _ _ _ _ _ E).
  - intros s [i group] s' Hin [H1 [H2 H3]] Hstep.
    apply In_enumerate in Hin. apply nth_error_In in Hin.
    destruct (thermostat_group_frame _ _ groups s s' i group Hin Hstep)
      as [F1 [F2 F3]].
    split; [congruence | split; [congruence |]].
    rewrite F3, H3. reflexivity.
  - cbn [ranks config]. repeat split. now destruct cfg.
Qed.

End ThermostatFrameFacts.

(* ================================================================== *)
(** ** The kinetic energy of a group across the loop body *)

Module ThermostatWorkFacts.
Import Py Float Input Thermostat Terms Notions Examples.
Import FloatFacts ThermostatFacts.
Local Open Scope string_scope.
Local Open Scope R_scope.

Lemma Rsum_scaled {A} (c : R) (f : A -> R) (l : list A) :
  Rsum (map (fun x => c * f x) l) = c * Rsum (map f l).
Proof.
  induction l as [| x l IH]; simpl; [lra |].
  fold (Rsum (map (fun x => c * f x) l)). fold (Rsum (map f l)).
  rewrite IH. lra.
Qed.

Lemma map_selected (F : list (vec float) -> float) (world : list rank_arrays)
    (group : list string) (W : list (list (vec R))) :
  map (selected group) world = map (map vfinite) W ->
  map (fun rk => F (selected group rk)) world
  = map (fun l => F (map vfinite l)) W.
Proof.
  intros HW. rewrite <- (map_map (selected group) F), HW.
  now rewrite map_map.
Qed.

(** The centre-of-mass velocity of finite rows. *)
Lemma com_per_particle_finite (world : list rank_arrays)
    (group : list string) (W : list (list (vec R))) :
  map (selected group) world = map (map vfinite) W ->
  count W <> O ->
  com_per_particle world group
  = vfinite (V3 (total vx W / INR (count W)) (total vy W / INR (count W))
                (total vz W / INR (count W))).
Proof.
  intros HW HN.
  assert (HnW : group_n_particles world group = Z.of_nat (count W)).
  { now rewrite group_n_particles_count, total_count_lists, HW,
      count_map_map. }
  assert (Hcom : com_velocity world group
                 = V3 (Finite (total vx W)) (Finite (total vy W))
                      (Finite (total vz W))).
  { unfold com_velocity.
    rewrite <- (map_map (selected group) vsum), HW.
    apply vsum_finite_rows. }
  unfold com_per_particle, vdiv, vmap, of_Z, vfinite.
  rewrite Hcom, HnW, <- INR_IZR_INZ. cbn [vx vy vz].
  assert (INR (count W) <> 0) by now apply not_0_INR.
  now rewrite !fdiv_finite.
Qed.

(** The kinetic energy of finite rows about a finite centre. *)
Lemma kinetic_energy_finite (m : R) (world : list rank_arrays)
    (group : list string) (W : list (list (vec R))) (s : vec R) :
  map (selected group) world = map (map vfinite) W ->
  com_per_particle world group = vfinite s ->
  kinetic_energy m world group
  = Finite (Rsum (map (fun l => 5 / 10 * m * Rsum (map (sqdist s) l)) W)).
Proof.
  intros HW Hs. unfold kinetic_energy. rewrite Hs.
  rewrite (map_selected
             (fun l => fmul (Finite (5 / 10 * m))
                         (fsum (map (fun v => vsumsq (vsub v (vfinite s))) l)))
             world group W HW).
  rewrite <- fsum_map_finite. f_equal. apply map_ext. intros l.
  rewrite map_map.
  rewrite (map_ext (fun u => vsumsq (vsub (vfinite u) (vfinite s)))
                   (fun u => Finite (sqdist s u)))
    by (intros u; destruct u, s; reflexivity).
  now rewrite fsum_map_finite.
Qed.

Lemma selected_after_rescale (world : list rank_arrays)
    (group : list string) (W : list (list (vec R))) (a : R) (s : vec R) :
  map (selected group) world = map (map vfinite) W ->
  map (selected group)
      (map (map (fun p =>
                   if in_group group p
                   then mkParticle (pname p)
                          (rescale true (Finite a) (vfinite s) (pvel p))
                   else p))
           world)
  = map (map vfinite) (map (map (rescaled_about a s)) W).
Proof.
  intros HW. rewrite map_map.
  rewrite (map_ext _ (fun rk => map (rescale true (Finite a) (vfinite s))
                                    (selected group rk)))
    by (intros rk; apply selected_rescaled).
  rewrite <- (map_map (selected group)
                      (map (rescale true (Finite a) (vfinite s)))), HW.
  rewrite !map_map. apply map_ext. intros l. rewrite !map_map.
  apply map_ext. intros u. destruct u, s. reflexivity.
Qed.

Lemma total_rescaled_about (proj : vec R -> R) (a : R) (s : vec R)
    (W : list (list (vec R))) :
  (forall u, proj (rescaled_about a s u) = a * (proj u - proj s) + proj s) ->
  count W <> O ->
  proj s = total proj W / INR (count W) ->
  total proj (map (map (rescaled_about a s)) W) = total proj W.
Proof.
  intros Hproj HN Hs. unfold total at 1. rewrite map_map.
  rewrite (map_ext _ (fun l => Rsum (map (fun v => a * (proj v - proj s)
                                                   + proj s) l))).
  - rewrite total_rescaled, Hs. field. now apply not_0_INR.
  - intros l. rewrite map_map. f_equal. apply map_ext. exact Hproj.
Qed.

(** Rescaling the rows of a group about its centre-of-mass velocity leaves
    that velocity where it was. *)
Lemma com_per_particle_after_rescale (world : list rank_arrays)
    (group : list string) (W : list (list (vec R))) (a : R) :
  map (selected group) world = map (map vfinite) W ->
  count W <> O ->
  let s := V3 (total vx W / INR (count W)) (total vy W / INR (count W))
              (total vz W / INR (count W)) in
  com_per_particle
    (map (map (fun p =>
                 if in_group group p
                 then mkParticle (pname p)
                        (rescale true (Finite a) (vfinite s) (pvel p))
                 else p))
         world)
    group
  = vfinite s.
Proof.
  intros HW HN s.
  rewrite (com_per_particle_finite _ group
             (map (map (rescaled_about a s)) W)
             (selected_after_rescale world group W a s HW))
    by now rewrite count_map_map.
  rewrite count_map_map.
  rewrite (total_rescaled_about vx a s W), (total_rescaled_about vy a s W),
    (total_rescaled_about vz a s W); try reflexivity; try assumption;
    intros u; reflexivity.
Qed.

(** X17. For a coupling group with a non-zero particle count and a finite
    scale factor [alpha], the loop body multiplies the group's kinetic
    energy about its centre of mass by [alpha * alpha], and what it adds to
    [thermostat_work] is exactly the change of that kinetic energy. *)
Theorem thermostat_work_books_kinetic_energy_change
    (random_gaussian : nat -> result R)
    (random_chi_squared : nat -> Z -> result R)
    (st : state) (i : nat) (group : list string) (Rgauss SNf c a : R) :
  let m := mass (config st) in
  let n := group_n_particles (ranks st) group in
  n <> 0%Z ->
  coupling_decay (config st) = OK c ->
  random_gaussian i = OK Rgauss ->
  random_chi_squared i (3 * n - 1)%Z = OK SNf ->
  fsqrt (group_alpha_squared (config st) (ranks st) group c Rgauss SNf)
  = Finite a ->
  exists st',
    thermostat_group random_gaussian random_chi_squared st (i, group) = OK st'
    /\ kinetic_energy m (ranks st') group
       = fmul (Finite (a * a)) (kinetic_energy m (ranks st) group)
    /\ thermostat_work (config st')
       = fadd (thermostat_work (config st))
              (fsub (kinetic_energy m (ranks st') group)
                    (kinetic_energy m (ranks st) group)).
Proof.
  intros m n Hn Hc Hg Hchi Ha. subst m n.
  destruct st as [world cfg]. cbn [ranks config] in *.
  destruct (alpha_finite_kinetic_finite _ _ _ _ _ _ _ Ha) as [k Hk].
  destruct (kinetic_energy_finite_rows _ _ _ _ Hk) as [W HW].
  assert (HnW : group_n_particles world group = Z.of_nat (count W)).
  { now rewrite group_n_particles_count, total_count_lists, HW,
      count_map_map. }
  assert (HN : count W <> O) by lia.
  assert (Hgt : (group_n_particles world group >? 0)%Z = true).
  { apply Z.gtb_lt. lia. }
  set (s := V3 (total vx W / INR (count W)) (total vy W / INR (count W))
               (total vz W / INR (count W))).
  pose proof (com_per_particle_finite world group W HW HN) as Hs.
  fold s in Hs.
  destruct (fsqrt_finite_inv _ _ Ha) as [x [Hx [Hx0 Hax]]].
  assert (Haa : a * a = x) by (rewrite Hax; now apply sqrt_sqrt).
  pose proof (kinetic_energy_finite (mass cfg) world group W s HW Hs) as HK.
  eexists. split.
  - unfold thermostat_group. cbn [ranks config]. rewrite Hc.
    cbn [Py.bind]. rewrite Hg. cbn [Py.bind]. rewrite Hchi. cbn [Py.bind].
    rewrite Ha, Hgt, Hs. reflexivity.
  - cbn [ranks config set_thermostat_work thermostat_work mass].
    assert (HK' :
              kinetic_energy (mass cfg)
                (map (map (fun p =>
                             if in_group group p
                             then mkParticle (pname p)
                                    (rescale true (Finite a) (vfinite s)
                                             (pvel p))
                             else p))
                     world)
                group
              = Finite (a * a
                        * Rsum (map (fun l => 5 / 10 * mass cfg
                                              * Rsum (map (sqdist s) l)) W))).
    { rewrite (kinetic_energy_finite (mass cfg) _ group
                 (map (map (rescaled_about a s)) W) s
                 (selected_after_rescale world group W a s HW)
                 (com_per_particle_after_rescale world group W a HW HN)).
      f_equal. rewrite map_map.
      rewrite <- (Rsum_scaled (a * a)
                    (fun l => 5 / 10 * mass cfg * Rsum (map (sqdist s) l)) W).
      f_equal. apply map_ext. intros l. rewrite map_map.
      rewrite (map_ext (fun u => sqdist s (rescaled_about a s u))
                       (fun u => a * a * sqdist s u))
        by (intros u; unfold sqdist, rescaled_about; cbn [vx vy vz]; ring).
      rewrite Rsum_scaled. ring. }
    rewrite HK', HK. split; [reflexivity |].
    rewrite Hx, Haa. cbn [fmul fsub lift2]. do 2 f_equal. ring.
Qed.

(** X17 at one input: the group A of [two_ranks], with [R = -1/2] and
    [SNf = 5]. *)
Lemma thermostat_work_books_kinetic_energy_change_witness :
  exists st',
    thermostat_group (fun _ => OK (-1 / 2)) (fun _ _ => OK 5) two_ranks
                     (O, ["A"])
    = OK st'
    /\ thermostat_work (config st')
       = fadd (thermostat_work (config two_ranks))
              (fsub (kinetic_energy (mass (config two_ranks)) (ranks st')
                                    ["A"])
                    (kinetic_energy (mass (config two_ranks))
                                    (ranks two_ranks) ["A"])).
Proof.
  destruct (two_ranks_alpha_finite (-1 / 2) 5 ltac:(lra)) as [a Ha].
  destruct (thermostat_work_books_kinetic_energy_change
              (fun _ => OK (-1 / 2)) (fun _ _ => OK 5) two_ranks O ["A"]
              (-1 / 2) 5 (exp (- (3 / 100 * 5) / (7 / 10))) a
              ltac:(discriminate) (sample_decay _) eq_refl eq_refl Ha)
    as [st' [H1 [_ H3]]].
  exists st'. split; assumption.
Defined.

End ThermostatWorkFacts.

(* ================================================================== *)
(** ** What the two channels write after [setup] *)

Module HandlingFacts.
Import Py Logging Handling Terms Notions Examples LoggingFacts.
Local Open Scope string_scope.
Local Open Scope Z_scope.

Lemma setup_rank0_filters (default_level : Z) (log_file_arg : option string)
    (log_to_stdout_arg : bool) (cls : Logger) :
  ch_filters (rank0 (setup default_level log_file_arg log_to_stdout_arg cls))
  = (ch_filters (rank0 cls) ++ [MPIFilter])%list.
Proof.
  unfold setup.
  destruct log_file_arg as [path |]; cbn [truthy negb andb];
    [destruct (negb (path =? ""))%string |];
    destruct log_to_stdout_arg; reflexivity.
Qed.

Lemma forallb_snoc {A} (f : A -> bool) (xs : list A) (x : A) :
  forallb f (xs ++ [x])%list = forallb f xs && f x.
Proof. rewrite forallb_app. cbn. now rewrite andb_true_r. Qed.

(** X18. After [setup], whatever its arguments and whatever was attached
    before, a record logged to the rank-0 channel on a process whose rank is
    not 0 is written nowhere: the filter [setup] adds rejects it. *)
Theorem rank0_channel_is_silent_off_rank_0
    (default_level : Z) (log_file_arg : option string)
    (log_to_stdout_arg : bool) (cls : Logger)
    (rank levelno : Z) (rec : LogRecord) :
  rank <> 0 ->
  log (rank0 (setup default_level log_file_arg log_to_stdout_arg cls))
      rank levelno rec
  = OK [].
Proof.
  intros Hrank. unfold log.
  destruct (levelno <? effective_level _); [reflexivity |].
  rewrite setup_rank0_filters, forallb_snoc. cbn [filter].
  destruct (Z.eqb_spec rank 0) as [E | _]; [contradiction |].
  now rewrite andb_false_r.
Qed.

(** X18 at one input: the rank-0 channel on rank 1, after [setup] with a
    file and console streaming. *)
Lemma rank0_channel_is_silent_off_rank_0_witness :
  log (rank0 (setup INFO (Some "hymd.log") true initial)) 1 INFO sample_record
  = OK [].
Proof.
  apply rank0_channel_is_silent_off_rank_0. discriminate.
Defined.

(** The channels after [k] calls of [setup] with the same file. *)
Lemma repeated_setup_channels (lvl : Z) (path : string) (k : nat) :
  path <> ""%string ->
  let h := mkHandler (File path) lvl (Some formatter) in
  let cls := Nat.iter (S k) (setup lvl (Some path) false) initial in
  all_ranks cls = mkChannel "HyMD.all_ranks" lvl [] (repeat h (S k))
  /\ rank0 cls
     = mkChannel "HyMD.rank_0" lvl (repeat MPIFilter (S k)) (repeat h (S k)).
Proof.
  intros Hpath h.
  assert (Ht : truthy (Some path) = true).
  { simpl. destruct (String.eqb_spec path ""); [contradiction | reflexivity]. }
  assert (Hstep : forall cls,
             all_ranks (setup lvl (Some path) false cls)
             = mkChannel (ch_name (all_ranks cls)) lvl
                         (ch_filters (all_ranks cls))
                         (ch_handlers (all_ranks cls) ++ [h])%list
             /\ rank0 (setup lvl (Some path) false cls)
                = mkChannel (ch_name (rank0 cls)) lvl
                            (ch_filters (rank0 cls) ++ [MPIFilter])%list
                            (ch_handlers (rank0 cls) ++ [h])%list).
  { intros cls. unfold setup. rewrite Ht. split; reflexivity. }
  induction k as [| k IH]; cbn zeta.
  - change (Nat.iter 1 (setup lvl (Some path) false) initial)
      with (setup lvl (Some path) false initial).
    destruct (Hstep initial) as [-> ->]. split; reflexivity.
  - cbn zeta in IH. destruct IH as [IH1 IH2].
    set (prev := Nat.iter (S k) (setup lvl (Some path) false) initial) in *.
    change (Nat.iter (S (S k)) (setup lvl (Some path) false) initial)
      with (setup lvl (Some path) false prev).
    destruct (Hstep prev) as [-> ->]. rewrite IH1, IH2.
    cbn [ch_name ch_filters ch_handlers].
    rewrite <- !repeat_cons. split; reflexivity.
Qed.

Lemma call_handlers_loop (h : Handler) (n : nat) (levelno : Z)
    (rec : LogRecord) (line : string) (out : list (destination * string)) :
  h_level h <= levelno ->
  emit h rec = OK line ->
  for_each
    (fun out h =>
       if h_level h <=? levelno then
         bind (emit h rec) (fun line =>
         OK (out ++ [(To (h_stream h), line)])%list)
       else OK out)
    (repeat h n) out
  = OK (out ++ repeat (To (h_stream h), line) n)%list.
Proof.
  intros Hl He. revert out. induction n as [| n IH]; intros out.
  - cbn. now rewrite app_nil_r.
  - cbn [repeat for_each].
    destruct (Z.leb_spec (h_level h) levelno) as [_ | Hlt]; [| lia].
    rewrite He. cbn [bind]. rewrite IH. now rewrite <- app_assoc.
Qed.

Lemma call_handlers_repeat (name : string) (lvl : Z) (fs : list Filter)
    (h : Handler) (n : nat) (levelno : Z) (rec : LogRecord) (line : string) :
  h_level h <= levelno ->
  emit h rec = OK line ->
  call_handlers (mkChannel name lvl fs (repeat h n)) levelno rec
  = OK (repeat (To (h_stream h), line) n).
Proof.
  intros Hl He. unfold call_handlers. cbn [ch_handlers].
  exact (call_handlers_loop h n levelno rec line [] Hl He).
Qed.

(** X19. [setup] does not look at what is attached already: after [k + 1]
    calls with the same file and level, starting from the channels as
    [getLogger] first gives them, a record at or above the level is
    written [k + 1] times to the file, once per call; the all-ranks channel
    does so on every rank, the rank-0 channel on rank 0. *)
Theorem repeated_setup_repeats_lines (lvl : Z) (path : string) (k : nat)
    (rank levelno : Z) (rec : LogRecord) :
  path <> ""%string ->
  0 < lvl <= levelno ->
  let cls := Nat.iter (S k) (setup lvl (Some path) false) initial in
  log (all_ranks cls) rank levelno rec
  = OK (repeat (To (File path), written_line rec) (S k))
  /\ log (rank0 cls) 0 levelno rec
     = OK (repeat (To (File path), written_line rec) (S k)).
Proof.
  intros Hpath [Hl0 Hl] cls.
  destruct (repeated_setup_channels lvl path k Hpath) as [Ha Hr].
  fold cls in Ha, Hr. rewrite Ha, Hr.
  set (h := mkHandler (File path) lvl (Some formatter)).
  assert (He : emit h rec = OK (written_line rec))
    by apply format_record_formatter.
  assert (Hlevel : forall name fs hs,
             (levelno <? effective_level (mkChannel name lvl fs hs)) = false).
  { intros name fs hs. unfold effective_level. cbn [ch_level].
    destruct (Z.eqb_spec lvl 0); [lia |]. apply Z.ltb_ge. lia. }
  split; unfold log; rewrite Hlevel; cbn [ch_filters ch_handlers].
  - cbn [forallb negb repeat].
    exact (call_handlers_repeat _ lvl [] h (S k) levelno rec _ Hl He).
  - assert (forallb (fun f => filter f 0) (repeat MPIFilter (S k)) = true)
      as ->.
    { apply forallb_forall. intros f Hf. apply repeat_spec in Hf. now subst f. }
    cbn [negb repeat].
    exact (call_handlers_repeat _ lvl _ h (S k) levelno rec _ Hl He).
Qed.

(** X19 at one input: two calls of [setup] with the file [hymd.log], and
    an INFO record on rank 3. *)
Lemma repeated_setup_repeats_lines_witness :
  log (all_ranks (Nat.iter 2 (setup INFO (Some "hymd.log") false) initial))
      3 INFO sample_record
  = OK [ (To (File "hymd.log"), written_line sample_record);
         (To (File "hymd.log"), written_line sample_record) ].
Proof.
  refine (proj1 (repeated_setup_repeats_lines INFO "hymd.log" 1 3 INFO
                   sample_record _ _)).
  - discriminate.
  - unfold INFO. lia.
Defined.

End HandlingFacts.

(* ================================================================== *)
(** ** The scale factor from the velocities *)

Module ScaleFactorFacts.
Import Py Float Input Thermostat Terms Notions Examples.
Import FloatFacts ThermostatFacts ThermostatWorkFacts.
Local Open Scope string_scope.
Local Open Scope R_scope.




End ScaleFactorFacts.

(* ================================================================== *)
(** ** Loops over a list taken apart *)

Module LoopFacts.
Import Py.

Lemma for_each_app {A S} (body : S -> A -> result S) (xs ys : list A)
    (s : S) :
  for_each body (xs ++ ys) s = bind (for_each body xs s) (for_each body ys).
Proof.
  revert s. induction xs as [| x xs IH]; intros s; [reflexivity |].
  cbn [app for_each]. destruct (body s x) as [s1 | e |]; cbn [bind];
    [apply IH | reflexivity | reflexivity].
Qed.




End LoopFacts.

(* ================================================================== *)
(** ** The centre-of-mass velocity of a group over the whole call *)

Module ThermostatCallFacts.
Import Py Float Input Thermostat Terms Notions Examples.
Import NxFacts FloatFacts ThermostatFacts EntryFacts ThermostatFrameFacts.
Import LoopFacts.
Local Open Scope string_scope.
Local Open Scope R_scope.

(** *** What a group's quantities depend on *)








(** *** One pass of the loop *)








End ThermostatCallFacts.

(* ================================================================== *)
(** ** Groups that share a name *)

Module SharedNameFacts.
Import Py Float Input Thermostat Terms Notions Examples.
Import NxFacts FloatFacts ThermostatFacts EntryFacts ThermostatFrameFacts.
Import ThermostatCallFacts.
Local Open Scope string_scope.
Local Open Scope R_scope.











End SharedNameFacts.

(* ================================================================== *)
(** ** The compiled loops against the plain ones *)

Module CompiledFacts.
Import Py Float Input Force Terms Notions Examples.
Import RoundFacts BondForceFacts AngleImageFacts.
Local Open Scope R_scope.

Lemma jit_getitem {A} (xs : list A) (i : nat) (x : A) :
  Jit.getitem xs i = Some x -> getitem xs i = OK x.
Proof. unfold Jit.getitem, getitem. now intros ->. Qed.

Lemma jit_update_row {A} (rows rows' : list A) (i : nat) (g : A -> A) :
  Jit.update_row rows i g = Some rows' -> update_row rows i g = OK rows'.
Proof.
  revert i rows'. induction rows as [| x rows IH]; intros i rows' H.
  - destruct i; discriminate H.
  - destruct i as [| i]; cbn [Jit.update_row] in H.
    + now injection H as <-.
    + destruct (Jit.update_row rows i g) as [rows1 |] eqn:E;
        [| discriminate H].
      injection H as <-. cbn [update_row]. now rewrite (IH i rows1 E).
Qed.

Lemma jit_fast (a b : float) : Jit.fast a = Some b -> b = a.
Proof. destruct a; cbn; [now intros [= <-] | discriminate]. Qed.

Lemma jit_vfast (v w : vec float) : Jit.vfast v = Some w -> w = v.
Proof.
  destruct v as [[x |] [y |] [z |]]; cbn; try discriminate.
  now intros [= <-].
Qed.

Lemma jit_getitem_middle {A B} (f : A -> B) (pre : list A) (x : A)
    (post : list A) :
  Jit.getitem (map f (pre ++ x :: post)) (length pre) = Some (f x).
Proof.
  unfold Jit.getitem.
  rewrite map_app, nth_error_app2 by (rewrite length_map; lia).
  rewrite length_map, Nat.sub_diag. reflexivity.
Qed.

Lemma jit_getitem_translate (r : list (vec R)) (atom : nat) (d : axis)
    (s : R) (i : nat) :
  Jit.getitem (translate r atom d s) i
  = option_map (moved atom d s i) (Jit.getitem r i).
Proof.
  pose proof (getitem_translate r atom d s i) as H.
  unfold getitem, Jit.getitem in *.
  destruct (nth_error (translate r atom d s) i) as [x |],
           (nth_error r i) as [y |]; cbn in *; congruence.
Qed.

(** One pass of the compiled two-body loop, where its result is defined,
    is the pass of the plain loop on the row the arrays hold. *)
Lemma bond_body_as_step (r : list (vec R)) (box_size : vec R)
    (pre : list entry2) (i j : nat) (r0 k : R) (post : list entry2)
    (st st' : list (vec float) * float) :
  let bonds_2 := pre ++ (i, j, r0, k) :: post in
  Compiled.bond_body r box_size
    (map (fun '(i, _, _, _) => i) bonds_2)
    (map (fun '(_, j, _, _) => j) bonds_2)
    (map (fun '(_, _, r0, _) => r0) bonds_2)
    (map (fun '(_, _, _, k) => k) bonds_2) st (length pre)
  = Some st' ->
  bond_step r box_size st i j r0 k = OK st'.
Proof.
  intros bonds_2. subst bonds_2. intros H.
  unfold Compiled.bond_body in H. destruct st as [f energy].
  rewrite !jit_getitem_middle in H. cbn [Jit.bind] in H.
  unfold bond_step.
  destruct (Jit.getitem r i) as [ri |] eqn:Ei; cbn [Jit.bind] in H;
    [| discriminate H].
  destruct (Jit.getitem r j) as [rj |] eqn:Ej; cbn [Jit.bind] in H;
    [| discriminate H].
  rewrite (jit_getitem _ _ _ Ei), (jit_getitem _ _ _ Ej). cbn [bind].
  change (pair_force box_size ri rj r0 k)
    with (let rij := vzip wrap (vsub (vfinite rj) (vfinite ri)) box_size in
          let dr := vnorm rij in
          let df := fmul (Finite (- k)) (fsub dr (Finite r0)) in
          (vdiv (vscale df rij) dr,
           fmul (Finite (5 / 10 * k))
                (fmul (fsub dr (Finite r0)) (fsub dr (Finite r0))))).
  cbv zeta.
  match type of H with
  | Jit.bind (Jit.vfast ?v) _ = _ =>
      destruct (Jit.vfast v) as [fv |] eqn:Ev; cbn [Jit.bind] in H;
      [| discriminate H]; apply jit_vfast in Ev; subst fv
  end.
  match type of H with
  | Jit.bind ?u _ = _ =>
      destruct u as [f1 |] eqn:E1; cbn [Jit.bind] in H; [| discriminate H]
  end.
  match type of H with
  | Jit.bind ?u _ = _ =>
      destruct u as [f2 |] eqn:E2; cbn [Jit.bind] in H; [| discriminate H]
  end.
  match type of H with
  | Jit.bind (Jit.fast ?a) _ = _ =>
      destruct (Jit.fast a) as [e |] eqn:Ee; cbn [Jit.bind] in H;
      [| discriminate H]; apply jit_fast in Ee; subst e
  end.
  injection H as <-.
  apply jit_update_row in E1. apply jit_update_row in E2.
  etransitivity; [| reflexivity].
  unfold vzip, wrap. cbn [vx vy vz].
  rewrite E1. cbn [bind]. rewrite E2. reflexivity.
Qed.

Lemma bond_loop_as_plain (r : list (vec R)) (box_size : vec R)
    (pre bs : list entry2) (st out : list (vec float) * float) :
  Jit.for_range
    (Compiled.bond_body r box_size
       (map (fun '(i, _, _, _) => i) (pre ++ bs))
       (map (fun '(_, j, _, _) => j) (pre ++ bs))
       (map (fun '(_, _, r0, _) => r0) (pre ++ bs))
       (map (fun '(_, _, _, k) => k) (pre ++ bs)))
    (seq (length pre) (length bs)) st
  = Some out ->
  for_each (fun st '(i, j, r0, k) => bond_step r box_size st i j r0 k) bs st
  = OK out.
Proof.
  revert pre st. induction bs as [| b bs IH]; intros pre st H.
  - cbn in H. now injection H as <-.
  - cbn [length seq Jit.for_range] in H. cbn [for_each].
    destruct b as [[[i j] r0] k].
    match type of H with
    | Jit.bind ?u _ = _ =>
        destruct u as [st1 |] eqn:E1; cbn [Jit.bind] in H; [| discriminate H]
    end.
    rewrite (bond_body_as_step r box_size pre i j r0 k bs st st1 E1).
    cbn [bind].
    apply (IH (pre ++ [(i, j, r0, k)])).
    rewrite <- app_assoc, length_app. cbn [app length].
    replace (length pre + 1)%nat with (S (length pre)) by lia.
    exact H.
Qed.

Lemma bond_body_tail (r : list (vec R)) (box_size : vec R)
    (pre : list entry2) (i j : nat) (r0 k : R) (post : list entry2)
    (st : list (vec float) * float) :
  let bonds_2 := pre ++ (i, j, r0, k) :: post in
  Compiled.bond_body r box_size
    (map (fun '(i, _, _, _) => i) bonds_2)
    (map (fun '(_, j, _, _) => j) bonds_2)
    (map (fun '(_, _, r0, _) => r0) bonds_2)
    (map (fun '(_, _, _, k) => k) bonds_2) st (length pre)
  = Jit.bind (Jit.getitem r i) (fun ri =>
    Jit.bind (Jit.getitem r j) (fun rj =>
      Compiled.bond_tail st i j r0 k (wrapped box_size (rvsub rj ri)))).
Proof.
  intros bonds_2. subst bonds_2.
  unfold Compiled.bond_body. destruct st as [f energy].
  rewrite !jit_getitem_middle. cbn [Jit.bind].
  destruct (Jit.getitem r i) as [ri |]; [| reflexivity].
  destruct (Jit.getitem r j) as [rj |]; reflexivity.
Qed.

Lemma bond_body_no_tie (r : list (vec R)) (box_size : vec R)
    (atom : nat) (d : axis) (positive : bool)
    (pre : list entry2) (i j : nat) (r0 k : R) (post : list entry2)
    (st : list (vec float) * float) :
  let bonds_2 := pre ++ (i, j, r0, k) :: post in
  (forall ri rj,
      nth_error r i = Some ri -> nth_error r j = Some rj ->
      ~ is_tie ((component d rj - component d ri) / component d box_size)) ->
  Compiled.bond_body (translate r atom d (box_length box_size d positive))
    box_size
    (map (fun '(i, _, _, _) => i) bonds_2)
    (map (fun '(_, j, _, _) => j) bonds_2)
    (map (fun '(_, _, r0, _) => r0) bonds_2)
    (map (fun '(_, _, _, k) => k) bonds_2) st (length pre)
  = Compiled.bond_body r box_size
      (map (fun '(i, _, _, _) => i) bonds_2)
      (map (fun '(_, j, _, _) => j) bonds_2)
      (map (fun '(_, _, r0, _) => r0) bonds_2)
      (map (fun '(_, _, _, k) => k) bonds_2) st (length pre).
Proof.
  intros bonds_2 Hno. subst bonds_2.
  rewrite (bond_body_tail (translate r atom d (box_length box_size d positive))
             box_size pre i j r0 k post st).
  rewrite (bond_body_tail r box_size pre i j r0 k post st).
  rewrite !jit_getitem_translate. unfold Jit.getitem.
  destruct (nth_error r i) as [ri |] eqn:Ei; cbn [option_map Jit.bind];
    [| reflexivity].
  destruct (nth_error r j) as [rj |] eqn:Ej; cbn [option_map Jit.bind];
    [| reflexivity].
  now rewrite (wrapped_moved atom i j d box_size positive ri rj
                 (Hno ri rj eq_refl eq_refl)).
Qed.

Lemma bond_loop_no_tie (r : list (vec R)) (box_size : vec R)
    (atom : nat) (d : axis) (positive : bool)
    (pre bs : list entry2) (st : list (vec float) * float) :
  no_tie r box_size d bs ->
  Jit.for_range
    (Compiled.bond_body (translate r atom d (box_length box_size d positive))
       box_size
       (map (fun '(i, _, _, _) => i) (pre ++ bs))
       (map (fun '(_, j, _, _) => j) (pre ++ bs))
       (map (fun '(_, _, r0, _) => r0) (pre ++ bs))
       (map (fun '(_, _, _, k) => k) (pre ++ bs)))
    (seq (length pre) (length bs)) st
  = Jit.for_range
      (Compiled.bond_body r box_size
         (map (fun '(i, _, _, _) => i) (pre ++ bs))
         (map (fun '(_, j, _, _) => j) (pre ++ bs))
         (map (fun '(_, _, r0, _) => r0) (pre ++ bs))
         (map (fun '(_, _, _, k) => k) (pre ++ bs)))
      (seq (length pre) (length bs)) st.
Proof.
  revert pre st. induction bs as [| b bs IH]; intros pre st Hno;
    [reflexivity |].
  cbn [length seq Jit.for_range]. destruct b as [[[i j] r0] k].
  assert (Hhere : forall ri rj,
             nth_error r i = Some ri -> nth_error r j = Some rj ->
             ~ is_tie ((component d rj - component d ri)
                       / component d box_size)).
  { intros ri rj Hi Hj. apply (Hno i j r0 k ri rj); [now left | | ];
      assumption. }
  match goal with
  | |- Jit.bind ?u _ = Jit.bind ?v _ =>
      assert (Huv : u = v)
        by exact (bond_body_no_tie r box_size atom d positive pre i j r0 k
                    bs st Hhere);
      rewrite Huv; destruct v as [st1 |]; [| reflexivity]
  end.
  cbn [Jit.bind].
  assert (Hrest : no_tie r box_size d bs).
  { intros i' j' r0' k' ri rj Hin. apply (Hno i' j' r0' k'). now right. }
  pose proof (IH (pre ++ [(i, j, r0, k)]) st1 Hrest) as IH'.
  rewrite <- app_assoc, length_app in IH'. cbn [app length] in IH'.
  replace (length pre + 1)%nat with (S (length pre)) in IH' by lia.
  exact IH'.
Qed.



End CompiledFacts.

(* ================================================================== *)
(** ** Where the compiled loops are defined *)

Module DefinedFacts.
Import Py Float Input Force Terms Notions CompiledTerms Examples.
Import NxFacts FloatFacts RoundFacts BondForceFacts SumFacts BondLoopFacts.
Import CompiledFacts.
Local Open Scope R_scope.

Lemma jit_getitem_of {A} (xs : list A) (i : nat) (x : A) :
  getitem xs i = OK x -> Jit.getitem xs i = Some x.
Proof.
  unfold Jit.getitem, getitem. destruct (nth_error xs i); [| discriminate].
  now intros [= ->].
Qed.

Lemma jit_update_row_of {A} (rows rows' : list A) (i : nat) (g : A -> A) :
  update_row rows i g = OK rows' -> Jit.update_row rows i g = Some rows'.
Proof.
  revert i rows'. induction rows as [| x rows IH]; intros i rows' H.
  - destruct i; discriminate H.
  - destruct i as [| i]; cbn [update_row] in H.
    + now injection H as <-.
    + destruct (update_row rows i g) as [rows1 | |] eqn:E;
        cbn [fmap bind] in H; try discriminate H.
      injection H as <-. cbn [Jit.update_row]. now rewrite (IH i rows1 E).
Qed.

Lemma jit_vfast_of (v : vec float) : vfiniteb v = true -> Jit.vfast v = Some v.
Proof. destruct v as [[x |] [y |] [z |]]; cbn; try discriminate; reflexivity. Qed.

Lemma jit_fast_of (a : float) : finiteb a = true -> Jit.fast a = Some a.
Proof. destruct a; cbn; [reflexivity | discriminate]. Qed.

(** The force of one pair is finite in every component or in none. *)
Lemma force_all_or_nothing (w : vec float) (r0 k : R) :
  vfiniteb (fst (force_of_wrapped w r0 k)) = true
  \/ fst (force_of_wrapped w r0 k) = vnonfinite.
Proof.
  unfold force_of_wrapped. cbn [fst].
  destruct (vnorm w) as [x |] eqn:En.
  - destruct (Req_dec_T x 0) as [-> | Hx].
    + right. unfold vdiv, vmap, vnonfinite. now rewrite !fdiv_by_zero.
    + left. unfold vnorm in En.
      destruct (fsqrt_finite_inv _ _ En) as [s [Hs _]].
      destruct w as [[a |] [b |] [c |]]; cbn in Hs; try discriminate Hs.
      unfold vdiv, vscale, vmap, vfiniteb. cbn [vx vy vz fmul fsub lift2].
      now rewrite !fdiv_finite by exact Hx.
  - right. unfold vdiv, vmap, vnonfinite.
    rewrite !(fdiv_zero_or_nonfinite _ NonFinite) by now right.
    reflexivity.
Qed.

Lemma bond_step_nonfinite_force (r : list (vec R)) (box_size : vec R)
    (st st' : list (vec float) * float) (i j : nat) (r0 k : R)
    (ri rj : vec R) :
  getitem r i = OK ri -> getitem r j = OK rj ->
  fst (pair_force box_size ri rj r0 k) = vnonfinite ->
  bond_step r box_size st i j r0 k = OK st' ->
  nth_error (fst st') i = Some vnonfinite.
Proof.
  destruct st as [f e]. intros Hi Hj Hp H. unfold bond_step in H.
  rewrite Hi, Hj in H. cbn [bind] in H.
  destruct (pair_force box_size ri rj r0 k) as [fv en]. cbn [fst] in Hp.
  subst fv.
  destruct (update_row f i _) as [f1 | |] eqn:E1; cbn [bind] in H;
    try discriminate H.
  destruct (update_row f1 j _) as [f2 | |] eqn:E2; cbn [bind] in H;
    try discriminate H.
  injection H as <-. cbn [fst].
  pose proof (update_row_in_range _ _ _ _ E1) as Hri.
  assert (nth_error f1 i = Some vnonfinite) as H1.
  { rewrite (nth_error_update_row _ _ _ i _ E1), Nat.eqb_refl.
    destruct (nth_error f i) as [x |] eqn:Ex.
    - cbn [option_map]. now rewrite vsub_vnonfinite_r.
    - apply nth_error_None in Ex. lia. }
  exact (update_row_keeps_nonfinite f1 f2 j i
           (fun f0 => vadd f0 vnonfinite) eq_refl H1 E2).
Qed.

Lemma bond_step_keeps_energy_nonfinite (r : list (vec R))
    (box_size : vec R) (st st' : list (vec float) * float) (i j : nat)
    (r0 k : R) :
  snd st = NonFinite ->
  bond_step r box_size st i j r0 k = OK st' ->
  snd st' = NonFinite.
Proof.
  destruct st as [f e]. cbn [snd]. intros -> H. unfold bond_step in H.
  destruct (getitem r i) as [ri | |]; cbn [bind] in H; try discriminate H.
  destruct (getitem r j) as [rj | |]; cbn [bind] in H; try discriminate H.
  destruct (pair_force box_size ri rj r0 k) as [fv en].
  destruct (update_row f i _) as [f1 | |]; cbn [bind] in H;
    try discriminate H.
  destruct (update_row f1 j _) as [f2 | |]; cbn [bind] in H;
    try discriminate H.
  now injection H as <-.
Qed.

Lemma all_finite_row (out : list (vec float) * float) (i : nat) :
  all_finite out = true -> nth_error (fst out) i <> Some vnonfinite.
Proof.
  unfold all_finite. intros H Hi. apply andb_prop in H as [H _].
  apply nth_error_In in Hi.
  pose proof (proj1 (forallb_forall _ _) H _ Hi) as Hv. discriminate Hv.
Qed.

Lemma all_finite_energy (out : list (vec float) * float) :
  all_finite out = true -> snd out <> NonFinite.
Proof.
  unfold all_finite. intros H He. apply andb_prop in H as [_ H].
  rewrite He in H. discriminate H.
Qed.

(** A plain pass whose force and energy term are finite is a defined
    compiled pass. *)
Lemma bond_step_as_body (r : list (vec R)) (box_size : vec R)
    (pre : list entry2) (i j : nat) (r0 k : R) (post : list entry2)
    (st st' : list (vec float) * float) (ri rj : vec R) :
  let bonds_2 := pre ++ (i, j, r0, k) :: post in
  getitem r i = OK ri -> getitem r j = OK rj ->
  vfiniteb (fst (pair_force box_size ri rj r0 k)) = true ->
  finiteb (snd (pair_force box_size ri rj r0 k)) = true ->
  bond_step r box_size st i j r0 k = OK st' ->
  Compiled.bond_body r box_size
    (map (fun '(i, _, _, _) => i) bonds_2)
    (map (fun '(_, j, _, _) => j) bonds_2)
    (map (fun '(_, _, r0, _) => r0) bonds_2)
    (map (fun '(_, _, _, k) => k) bonds_2) st (length pre)
  = Some st'.
Proof.
  intros bonds_2 Hi Hj Hf He H. subst bonds_2.
  rewrite (bond_body_tail r box_size pre i j r0 k post st).
  rewrite (jit_getitem_of _ _ _ Hi), (jit_getitem_of _ _ _ Hj).
  cbn [Jit.bind].
  unfold bond_step in H. destruct st as [f energy].
  rewrite Hi, Hj in H. cbn [bind] in H.
  rewrite pair_force_wrapped in H, Hf, He.
  unfold Compiled.bond_tail.
  unfold force_of_wrapped in H, Hf, He. cbn [fst snd] in Hf, He.
  rewrite (jit_vfast_of _ Hf). cbn [Jit.bind].
  destruct (update_row f i _) as [f1 | |] eqn:E1; cbn [bind] in H;
    try discriminate H.
  destruct (update_row f1 j _) as [f2 | |] eqn:E2; cbn [bind] in H;
    try discriminate H.
  rewrite (jit_update_row_of _ _ _ _ E1). cbn [Jit.bind].
  rewrite (jit_update_row_of _ _ _ _ E2). cbn [Jit.bind].
  rewrite (jit_fast_of _ He). cbn [Jit.bind]. now injection H as <-.
Qed.

Lemma bond_loop_defined (r : list (vec R)) (box_size : vec R)
    (pre bs : list entry2) (st out : list (vec float) * float) :
  for_each (fun st '(i, j, r0, k) => bond_step r box_size st i j r0 k) bs st
  = OK out ->
  all_finite out = true ->
  Jit.for_range
    (Compiled.bond_body r box_size
       (map (fun '(i, _, _, _) => i) (pre ++ bs))
       (map (fun '(_, j, _, _) => j) (pre ++ bs))
       (map (fun '(_, _, r0, _) => r0) (pre ++ bs))
       (map (fun '(_, _, _, k) => k) (pre ++ bs)))
    (seq (length pre) (length bs)) st
  = Some out.
Proof.
  revert pre st. induction bs as [| b bs IH]; intros pre st H Hout.
  - cbn in H. injection H as <-. reflexivity.
  - cbn [for_each] in H. destruct b as [[[i j] r0] k].
    destruct (bond_step r box_size st i j r0 k) as [st1 | |] eqn:E1;
      cbn [bind] in H; try discriminate H.
    cbn [length seq Jit.for_range].
    assert (Hstep := E1). unfold bond_step in Hstep.
    destruct st as [f energy].
    destruct (getitem r i) as [ri | |] eqn:Ei; cbn [bind] in Hstep;
      try discriminate Hstep.
    destruct (getitem r j) as [rj | |] eqn:Ej; cbn [bind] in Hstep;
      try discriminate Hstep.
    clear Hstep.
    assert (Hf : vfiniteb (fst (pair_force box_size ri rj r0 k)) = true).
    { rewrite pair_force_wrapped.
      destruct (force_all_or_nothing (wrapped box_size (rvsub rj ri)) r0 k)
        as [Hfin | Hnon]; [exact Hfin | exfalso].
      rewrite <- pair_force_wrapped in Hnon.
      pose proof (bond_step_nonfinite_force r box_size _ st1 i j r0 k ri rj
                    Ei Ej Hnon E1) as Hrow.
      apply (all_finite_row out i Hout).
      refine (for_each_invariant
                (fun s => nth_error (fst s) i = Some vnonfinite)
                _ bs _ st1 out Hrow H).
      intros s [[[a b] q0] q] s' Hs Hstep.
      exact (bond_step_keeps_nonfinite r box_size s s' a b q0 q i Hs Hstep). }
    assert (He : finiteb (snd (pair_force box_size ri rj r0 k)) = true).
    { destruct (snd (pair_force box_size ri rj r0 k)) as [x |] eqn:Een;
        [reflexivity | exfalso].
      assert (Hst1 : snd st1 = NonFinite).
      { unfold bond_step in E1. rewrite Ei, Ej in E1. cbn [bind] in E1.
        destruct (pair_force box_size ri rj r0 k) as [fv en].
        cbn [snd] in Een. subst en.
        destruct (update_row f i _) as [f1 | |]; cbn [bind] in E1;
          try discriminate E1.
        destruct (update_row f1 j _) as [f2 | |]; cbn [bind] in E1;
          try discriminate E1.
        injection E1 as <-. cbn [snd]. now destruct energy. }
      apply (all_finite_energy out Hout).
      refine (for_each_invariant (fun s => snd s = NonFinite)
                _ bs _ st1 out Hst1 H).
      intros s [[[a b] q0] q] s' Hs Hstep.
      exact (bond_step_keeps_energy_nonfinite r box_size s s' a b q0 q
               Hs Hstep). }
    match goal with
    | |- Jit.bind ?u _ = _ =>
        assert (Hu : u = Some st1)
          by exact (bond_step_as_body r box_size pre i j r0 k bs (f, energy)
                      st1 ri rj Ei Ej Hf He E1);
        rewrite Hu
    end.
    cbn [Jit.bind].
    pose proof (IH (pre ++ [(i, j, r0, k)]) st1 H Hout) as IH'.
    rewrite <- app_assoc, length_app in IH'. cbn [app length] in IH'.
    replace (length pre + 1)%nat with (S (length pre)) in IH' by lia.
    exact IH'.
Qed.

(** *** The three-body loop *)





Lemma vfiniteb_vsub (u v : vec float) :
  vfiniteb u = true -> vfiniteb v = true -> vfiniteb (vsub u v) = true.
Proof.
  destruct u as [[a |] [b |] [c |]], v as [[a' |] [b' |] [c' |]]; cbn;
    try discriminate; reflexivity.
Qed.

Lemma vfiniteb_vadd (u v : vec float) :
  vfiniteb u = true -> vfiniteb v = true -> vfiniteb (vadd u v) = true.
Proof.
  destruct u as [[a |] [b |] [c |]], v as [[a' |] [b' |] [c' |]]; cbn;
    try discriminate; reflexivity.
Qed.








(** *** What a defined run leaves is finite *)

Lemma jit_for_range_invariant {S} (inv : S -> Prop)
    (body : S -> nat -> option S) (inds : list nat) (s out : S) :
  (forall s ind s', inv s -> body s ind = Some s' -> inv s') ->
  inv s -> Jit.for_range body inds s = Some out -> inv out.
Proof.
  intros Hbody. revert s. induction inds as [| ind inds IH]; intros s Hs H.
  - cbn in H. now injection H as <-.
  - cbn [Jit.for_range] in H.
    destruct (body s ind) as [s1 |] eqn:E; cbn [Jit.bind] in H;
      [| discriminate H].
    exact (IH s1 (Hbody s ind s1 Hs E) H).
Qed.

Lemma jit_update_row_forallb {A} (P : A -> bool) (rows rows' : list A)
    (i : nat) (g : A -> A) :
  (forall x, P x = true -> P (g x) = true) ->
  forallb P rows = true ->
  Jit.update_row rows i g = Some rows' ->
  forallb P rows' = true.
Proof.
  intros Hg. revert i rows'.
  induction rows as [| x rows IH]; intros i rows' Hall H.
  - destruct i; discriminate H.
  - cbn [forallb] in Hall. apply andb_prop in Hall as [Hx Hrest].
    destruct i as [| i]; cbn [Jit.update_row] in H.
    + injection H as <-. cbn [forallb]. now rewrite (Hg x Hx), Hrest.
    + destruct (Jit.update_row rows i g) as [rows1 |] eqn:E;
        [| discriminate H].
      injection H as <-. cbn [forallb]. now rewrite Hx, (IH i rows1 Hrest E).
Qed.

Lemma jit_vfast_finite (v w : vec float) :
  Jit.vfast v = Some w -> vfiniteb w = true.
Proof.
  destruct v as [[x |] [y |] [z |]]; cbn; try discriminate.
  now intros [= <-].
Qed.

Lemma jit_fast_finite (a b : float) : Jit.fast a = Some b -> finiteb b = true.
Proof. destruct a; cbn; [now intros [= <-] | discriminate]. Qed.

Lemma finiteb_fadd (a b : float) :
  finiteb a = true -> finiteb b = true -> finiteb (fadd a b) = true.
Proof. destruct a, b; cbn; try discriminate; reflexivity. Qed.


Lemma all_finite_start (f : list (vec float)) :
  all_finite (fill_zero f, Finite 0) = true.
Proof.
  unfold all_finite, fill_zero. cbn [fst snd finiteb].
  rewrite andb_true_r. induction f as [| x f IH]; [reflexivity |].
  cbn [map forallb]. now rewrite IH.
Qed.

Lemma bond_body_all_finite (r : list (vec R)) (box_size : vec R)
    (atom1 atom2 : list nat) (equilibrium stength : list R)
    (st : list (vec float) * float) (ind : nat)
    (st' : list (vec float) * float) :
  all_finite st = true ->
  Compiled.bond_body r box_size atom1 atom2 equilibrium stength st ind
  = Some st' ->
  all_finite st' = true.
Proof.
  destruct st as [f energy]. unfold all_finite. cbn [fst snd].
  intros Hst H. apply andb_prop in Hst as [Hf He].
  unfold Compiled.bond_body in H.
  repeat match type of H with
  | Jit.bind (Jit.getitem ?xs ?n) _ = _ =>
      destruct (Jit.getitem xs n); cbn [Jit.bind] in H; [| discriminate H]
  end.
  cbv zeta in H.
  match type of H with
  | Jit.bind (Jit.vfast ?v) _ = _ =>
      destruct (Jit.vfast v) as [fv |] eqn:Ev; cbn [Jit.bind] in H;
      [| discriminate H]; apply jit_vfast_finite in Ev
  end.
  match type of H with
  | Jit.bind ?u _ = _ =>
      destruct u as [f1 |] eqn:E1; cbn [Jit.bind] in H; [| discriminate H]
  end.
  match type of H with
  | Jit.bind ?u _ = _ =>
      destruct u as [f2 |] eqn:E2; cbn [Jit.bind] in H; [| discriminate H]
  end.
  match type of H with
  | Jit.bind (Jit.fast ?a) _ = _ =>
      destruct (Jit.fast a) as [e |] eqn:Ee; cbn [Jit.bind] in H;
      [| discriminate H]; apply jit_fast_finite in Ee
  end.
  injection H as <-. cbn [fst snd].
  assert (H1 : forallb vfiniteb f1 = true).
  { refine (jit_update_row_forallb vfiniteb f f1 _ _ _ Hf E1).
    intros x Hx. now apply vfiniteb_vsub. }
  assert (H2 : forallb vfiniteb f2 = true).
  { refine (jit_update_row_forallb vfiniteb f1 f2 _ _ _ H1 E2).
    intros x Hx. now apply vfiniteb_vadd. }
  now rewrite H2, (finiteb_fadd _ _ He Ee).
Qed.


(** The compiled two-body loop on the columns of a list against the plain
    loop on the list. *)
Lemma bond_loop_where_defined (f_bonds : list (vec float))
    (r : list (vec R)) (bonds_2 : list entry2) (box_size : vec R) :
  (let '(atom1, atom2, equilibrium, stength) := bonds_2_arrays bonds_2 in
   Compiled.compute_bond_forces__numba f_bonds r box_size
     atom1 atom2 equilibrium stength)
  = where_defined (compute_bond_forces__plain f_bonds r bonds_2 box_size).
Proof.
  unfold bonds_2_arrays, Compiled.compute_bond_forces__numba.
  rewrite length_map.
  match goal with
  | |- ?lhs = _ => destruct lhs as [out |] eqn:E
  end.
  - pose proof (bond_loop_as_plain r box_size [] bonds_2 _ out E) as Hp.
    unfold compute_bond_forces__plain. rewrite Hp. cbn [where_defined].
    assert (Hfin : all_finite out = true).
    { refine (jit_for_range_invariant (fun s => all_finite s = true)
                _ _ _ out _ (all_finite_start f_bonds) E).
      intros s ind s'. apply bond_body_all_finite. }
    now rewrite Hfin.
  - unfold compute_bond_forces__plain.
    match goal with
    | |- None = where_defined ?p => destruct p as [out | |] eqn:Hp
    end; cbn [where_defined]; try reflexivity.
    destruct (all_finite out) eqn:Hfin; [| reflexivity].
    pose proof (bond_loop_defined r box_size [] bonds_2 _ out Hp Hfin) as Hc.
    cbn [app length] in Hc.
    pose proof (eq_trans (eq_sym E) Hc) as Hbad. discriminate Hbad.
Qed.


End DefinedFacts.

(* ================================================================== *)
(** ** The compiled loops: what they return, and the periodic image *)

Module CompiledLoopFacts.
Import Py Float Input Force Terms Notions CompiledTerms Examples.
Import FloatFacts RoundFacts BondForceFacts CompiledFacts DefinedFacts.
Local Open Scope R_scope.



(** The compiled loop is defined on that input, before and after the move:
    it returns the forces [0] on both atoms and the energy [0]. *)
Lemma compiled_bond_loop_defined_at_near_positions :
  Compiled.compute_bond_forces__numba two_rows near_positions cube
    [0%nat] [1%nat] [1] [1]
  = Some ([vzero; vzero], Finite 0)
  /\ Compiled.compute_bond_forces__numba two_rows
       (translate near_positions 1 AxisX (box_length cube AxisX true)) cube
       [0%nat] [1%nat] [1] [1]
     = Some ([vzero; vzero], Finite 0).
Proof.
  assert (Hplain : compute_bond_forces__plain two_rows near_positions
                     one_bond cube
                   = OK ([vzero; vzero], Finite 0)).
  { assert (Hpair : pair_force cube (V3 0 0 0) (V3 1 0 0) 1 1
                     = (vzero, Finite 0)).
    { rewrite pair_force_wrapped.
      unfold wrapped, rvsub, cube, vzip, vfinite, vmap. cbn [vx vy vz].
      rewrite !wrap_finite by lra.
      rewrite (around_near ((1 - 0) / 10) 0) by (cbn; lra).
      rewrite (around_0 ((0 - 0) / 10)) by lra.
      unfold force_of_wrapped, vnorm, vsumsq.
      cbn [vx vy vz fmul fadd lift2].
      rewrite fsqrt_finite by (cbn; lra).
      match goal with
      | |- context [sqrt ?t] => replace t with (1 * 1) by (cbn; lra)
      end.
      rewrite sqrt_square by lra.
      unfold vscale, vdiv, vmap, vzero. cbn [vx vy vz fmul fsub lift2].
      rewrite !fdiv_finite by lra.
      repeat f_equal; cbn; lra. }
    unfold compute_bond_forces__plain, one_bond, row2, near_positions.
    cbn [for_each bond_step getitem nth_error bind fill_zero two_rows map].
    rewrite Hpair.
    cbn [update_row fmap bind].
    unfold vsub, vadd, vzero, vzip. cbn [vx vy vz fsub fadd lift2].
    repeat f_equal; lra. }
  pose proof (bond_loop_where_defined two_rows near_positions one_bond cube)
    as H.
  pose proof (bond_loop_where_defined two_rows
                (translate near_positions 1 AxisX (box_length cube AxisX true))
                one_bond cube) as H'.
  assert (Hmoved : compute_bond_forces__plain two_rows
                     (translate near_positions 1 AxisX
                        (box_length cube AxisX true)) one_bond cube
                   = OK ([vzero; vzero], Finite 0)).
  { rewrite <- Hplain. unfold compute_bond_forces__plain.
    apply for_each_ext_in.
    intros st [[[i j] r0] k] Hin. apply bond_step_no_tie.
    intros ri rj Hi Hj.
    now apply (near_positions_no_tie i j r0 k). }
  rewrite Hplain in H. rewrite Hmoved in H'.
  split; [exact H | exact H'].
Qed.


End CompiledLoopFacts.

(* ================================================================== *)
(** ** One bonded pair in binary64 *)

Module Binary64Facts.
Import PrimFloat.
Local Open Scope float_scope.

(** In binary64 the quotient of line 193 is rounded before [np.around]
    sees it.  With the box side [2 + 2 ^ -51] and atoms at 0 and 1 along x
    (equilibrium length 1/2, strength 1), moving the second atom by one box
    length gives the exact quotient [1 + 1 / L < 3/2], which is no tie, but
    its binary64 value is [1.5], which [np.around] takes to 2: the force on
    the second atom goes from [-0.5] to a positive value.  Over the reals
    no pair of that input is at a tie. *)
Lemma binary64_force_flips_off_the_ties :
  let L := Binary64.box_side in
  let LR := Binary64.box_side_exact in
  let box := (L, L, L) in
  let before := Binary64.pair_force box (0, 0, 0) (1, 0, 0) 0.5 1 in
  let after := Binary64.pair_force box (0, 0, 0) (1 + L, 0, 0) 0.5 1 in
  FloatOps.Prim2SF L = SpecFloat.S754_finite false 4503599627370497 (-51)
  /\ (1 + L) / L = 1.5
  /\ fst (fst (fst before)) = -0.5
  /\ (0 <? fst (fst (fst after))) = true
  /\ ((1 + LR) / LR < 3 / 2)%R
  /\ Terms.no_tie [Float.V3 0 0 0; Float.V3 1 0 0]%R (Float.V3 LR LR LR)
       Force.AxisX [Force.row2 0 1 (1 / 2) 1]%R.
Proof.
  cbv zeta. repeat split; try (vm_compute; reflexivity).
  - unfold Binary64.box_side_exact. lra.
  - intros i j r0 k ri rj [H | []] Hi Hj.
    injection H as <- <- <- <-.
    injection Hi as <-. injection Hj as <-.
    apply (RoundFacts.near_not_tie _ 0). cbn [Force.component Float.vx].
    unfold Binary64.box_side_exact. cbn [IZR]. lra.
Qed.

End Binary64Facts.

(* ================================================================== *)
(** ** The graph of a molecule: what a bonds row and a particle leave *)

Module GraphFacts.
Import Py Float Input Nx Force Terms Notions.
Import NxFacts ConstructionFacts EntryFacts LoopFacts.
Local Open Scope Z_scope.


(** A loop in which one item appends [extra] to what [view] shows of the
    state and no other item changes it. *)
Lemma for_each_one_step {A S B} (view : S -> list B)
    (body : S -> A -> result S) (pre post : list A) (x0 : A)
    (extra : list B) (s s' : S) :
  (forall x s1 s2, In x pre \/ In x post ->
     body s1 x = OK s2 -> view s2 = view s1) ->
  (forall s1 s2, body s1 x0 = OK s2 -> view s2 = view s1 ++ extra) ->
  for_each body (pre ++ x0 :: post) s = OK s' ->
  view s' = view s ++ extra.
Proof.
  intros Hother Hown H. rewrite for_each_app in H.
  destruct (for_each body pre s) as [s1 | |] eqn:E1; cbn [bind] in H;
    try discriminate H.
  cbn [for_each] in H.
  destruct (body s1 x0) as [s2 | |] eqn:E2; cbn [bind] in H;
    try discriminate H.
  assert (H1 : view s1 = view s).
  { refine (for_each_invariant_in (fun t => view t = view s) body pre
              _ s s1 eq_refl E1).
    intros t x t' Hx Ht Hb. rewrite <- Ht.
    exact (Hother x t t' (or_introl Hx) Hb). }
  assert (H3 : view s' = view s2).
  { refine (for_each_invariant_in (fun t => view t = view s2) body post
              _ s2 s' eq_refl H).
    intros t x t' Hx Ht Hb. rewrite <- Ht.
    exact (Hother x t t' (or_intror Hx) Hb). }
  rewrite H3, (Hown s1 s2 E2), H1. reflexivity.
Qed.


(** *** Keys *)








(** *** Attributes and neighbours, once set, stay *)














(** *** The loop that builds the graph *)





End GraphFacts.

(* ================================================================== *)
(** ** The breadth-first search: the first level *)

Module SearchFacts.
Import Py Float Input Nx Force Terms Notions.
Import NxFacts ConstructionFacts EntryFacts GraphFacts.
Local Open Scope Z_scope.








End SearchFacts.

(* ================================================================== *)
(** ** What [prepare_bonds_old] emits for one pair of particles *)

Module PairFacts.
Import Py Float Input Nx Force Terms Notions Examples.
Import NxFacts ConstructionFacts ForceFacts EntryFacts.
Import LoopFacts GraphFacts SearchFacts.
Local Open Scope Z_scope.

(** *** [np.unique] *)





(** *** The rows of one pair *)









Section Pair.
Variables (molecules : list Z) (names : list string).
Variables (bonds : option (list (list Z))) (indices : list Z).
Variable config : Config.
Variables (li lj : nat) (gi gj mol : Z).
Hypothesis Hnd : NoDup indices.
Hypothesis Hli : nth_error indices li = Some gi.
Hypothesis Hlj : nth_error indices lj = Some gj.
Hypothesis Hmi : nth_error molecules li = Some mol.







End Pair.

End PairFacts.

(* ================================================================== *)
(** ** Arrays that fit: the construction returns *)

Module ReturnFacts.
Import Py Float Input Nx Force Terms Notions Examples.
Import NxFacts ConstructionFacts ForceFacts EntryFacts.
Import LoopFacts GraphFacts SearchFacts.
Local Open Scope Z_scope.

(** *** The nodes of the graph *)





Section Fit.
Variables (molecules : list Z) (names : list string).
Variables (bonds : option (list (list Z))) (indices : list Z).
Hypothesis Hnd : NoDup indices.
Hypothesis Hfit : arrays_fit molecules names bonds indices.




End Fit.

(** *** The paths stay in the graph *)





(** *** The loops return *)




End ReturnFacts.

(* ================================================================== *)
(** ** One entry for every matching definition *)

Module MatchFacts.
Import Py Float Input Nx Force Terms Notions Examples.
Import NxFacts ConstructionFacts ForceFacts EntryFacts.
Import GraphFacts SearchFacts PairFacts ReturnFacts.
Local Open Scope Z_scope.


(** With a global index repeated in [indices] the later particle takes
    the node of the earlier one: the bonded pair of local particles 0 and
    2, named A and B, gets no row, and the row of the definition goes to
    the local particles 1 and 2. *)
Lemma repeated_index_hides_a_particle :
  prepare_bonds_old repeated_index.molecules repeated_index.names
    repeated_index.bonds repeated_index.indices repeated_index.config
  = OK ([row2 1 2 1 100], [])
  /\ entries_2_of 0 2 [row2 1 2 1 100] = []
  /\ lists_bond repeated_index.bonds 0 1.
Proof.
  split; [reflexivity |]. split; [reflexivity |].
  exists [ [1; -1; -1]; [1; -1; -1]; [0; -1; -1] ], [1; -1; -1].
  repeat split; [now left | discriminate].
Qed.

(** The arrays of the chain A - B - C fit together. *)
Lemma doubly_defined_angle_fits :
  arrays_fit doubly_defined_angle.molecules doubly_defined_angle.names
    doubly_defined_angle.bonds doubly_defined_angle.indices.
Proof.
  exists [ [1; -1; -1]; [0; 2; -1]; [1; -1; -1] ]. split; [reflexivity |].
  intros l gl Hl. destruct l as [| [| [| l]]]; cbn in Hl.
  - injection Hl as <-. exists 0, "A"%string, [1; -1; -1].
    repeat split. intros u [<- | [<- | [<- | []]]] Hu;
      try (now contradiction Hu).
    now exists 1%nat.
  - injection Hl as <-. exists 0, "B"%string, [0; 2; -1].
    repeat split. intros u [<- | [<- | [<- | []]]] Hu;
      try (now contradiction Hu).
    + now exists 0%nat.
    + now exists 2%nat.
  - injection Hl as <-. exists 0, "C"%string, [1; -1; -1].
    repeat split. intros u [<- | [<- | [<- | []]]] Hu;
      try (now contradiction Hu).
    now exists 1%nat.
  - destruct l; discriminate Hl.
Qed.


End MatchFacts.
